(** * Cross-validation utilities of e3fp-paper: a shallow embedding

    Source: [src/e3fp_paper/crossvalidation/util.py].

    Python dictionaries whose iteration order is irrelevant are finite maps
    ([gmap]); the one dictionary whose iteration order the code observes
    ([mol_list_dict] in [molecules_to_array]) is an association list.
    Exceptions are an explicit error type threaded through a small monad.
    Floating-point arithmetic is an interface ([Arith]); the code is
    embedded once, generically, and the numeric statements are proved on the
    instance of exact reals extended with the IEEE special values. *)

From Stdlib Require Import Reals Lra QArith Qreals Ascii.
From stdpp Require Import base strings list gmap sets sorting fin_maps
  pretty.

#[local] Set Warnings "-clear-no-such-hyp".

Local Open Scope string_scope.
Local Open Scope nat_scope.
Local Open Scope list_scope.

(** ** Python exceptions and results *)

Inductive exn : Type :=
| KeyError (key : string)
| IndexError
| ValueError
| AssertionError
| StopIteration
| IOError
| ZeroDivisionError
| UndefinedMetricWarning (msg : string)
| RuntimeWarning.

Inductive result (A : Type) : Type :=
| Ok (a : A)
| Raise (e : exn).
Arguments Ok {A} a.
Arguments Raise {A} e.

Global Instance result_bind : MBind result := λ A B k r,
  match r with
  | Ok a => k a
  | Raise e => Raise e
  end.
Global Instance result_ret : MRet result := λ A a, Ok a.

Definition of_option {A : Type} (o : option A) (e : exn) : result A :=
  match o with
  | Some a => Ok a
  | None => Raise e
  end.

(** [[f(x) for x in l]] where [f] may raise: left to right, first error wins. *)
Fixpoint map_result {A B : Type} (f : A → result B) (l : list A) : result (list B) :=
  match l with
  | [] => Ok []
  | x :: l' => y ← f x ; ys ← map_result f l' ; Ok (y :: ys)
  end.

(** [for x in l: acc = body(acc, x)] where the body may raise. *)
Fixpoint fold_result {A S : Type} (body : S → A → result S) (s : S) (l : list A)
  : result S :=
  match l with
  | [] => Ok s
  | x :: l' => s' ← body s x ; fold_result body s' l'
  end.

(** [enumerate(l)] *)
Definition enumerate {A : Type} (l : list A) : list (nat * A) :=
  zip (seq 0 (length l)) l.

(** [sorted(s)] for a set (or the keys of a dict) of strings. *)
Definition sorted (s : gset string) : list string :=
  merge_sort String.le (elements s).

(** ** Data model *)

(** [seacore.util.library.SetValue(name, cids, description)] *)
Record SetValue : Type := mkSetValue {
  name : string;
  cids : list string;
  description : string
}.

(** ** Dict aggregation utilities *)

Section dicts.
Context {V : Type}.

(** [merged.setdefault(k, []).append(v)] *)
Definition setdefault_append (merged : gmap string (list V))
    (k : string) (v : V) : gmap string (list V) :=
  <[k := default [] (merged !! k) ++ [v]]> merged.

(** [for k, v in d.iteritems(): ...] *)
Definition merge_one (merged : gmap string (list V)) (d : gmap string V)
  : gmap string (list V) :=
  foldl (λ acc kv, setdefault_append acc kv.1 kv.2) merged (map_to_list d).

Definition merge_dicts (ds : list (gmap string V)) : gmap string (list V) :=
  foldl merge_one ∅ ds.
End dicts.

(** ** Floating-point arithmetic as an interface

    numpy's double arithmetic, the two logarithms, [np.isinf], the
    comparison [<] and the reduction [np.sum]. *)

Class Arith (F : Type) : Type := {
  fconst : Q → F;
  fadd : F → F → F;
  fsub : F → F → F;
  fmul : F → F → F;
  fdiv : F → F → F;
  flog10 : F → F;
  flog : F → F;
  fisinf : F → bool;
  flt : F → F → bool;
  fsum : list F → F
}.

(** The two tests on a double the module depends on: [x == 0.0], which is
    what makes a division of Python floats raise, and [np.isnan(x)], by
    which [np.searchsorted] orders NaN last and [np.argmax] stops. *)
Class ArithTests (F : Type) : Type := {
  fiszero : F → bool;
  fisnan : F → bool
}.

Definition of_nat_Q (n : nat) : Q := inject_Z (Z.of_nat n).

Section average.
Context {F : Type} `{!Arith F}.

(** [np.mean(v)] on a one-dimensional sequence *)
Definition np_mean (v : list F) : F :=
  fdiv (fsum v) (fconst (of_nat_Q (length v))).

Definition average_dict_values (ds : list (gmap string F)) : gmap string F :=
  let merged := merge_dicts ds in
  np_mean <$> merged.

(** [{k: (v - d2[k]) for k, v in d1.iteritems() if k in d2}] *)
Definition get_delta_auc_dict (d1 d2 : gmap string F) : gmap string F :=
  map_zip_with fsub d1 d2.
End average.

(** ** Matrices

    Element values are integers; [cast] is numpy's conversion of an integer
    (or of [True], which is 1) to the element type. *)

Inductive dtype : Type := np_bool | np_int8 | np_float64.

Global Instance dtype_eq_dec : EqDecision dtype.
Proof. solve_decision. Defined.

Definition cast (dt : dtype) (v : Z) : Z :=
  match dt with
  | np_bool => if decide (v = 0%Z) then 0%Z else 1%Z
  | np_int8 => ((v + 128) `mod` 256 - 128)%Z
  | np_float64 => v
  end.

(** [scipy.sparse.csr_matrix]: row [i] owns the stored entries
    [indptr[i] .. indptr[i+1]-1] of [indices] (columns) and [data]. *)
Record csr_matrix : Type := mk_csr {
  csr_dtype : dtype;
  data : list Z;
  indices : list nat;
  indptr : list nat;
  shape : nat * nat
}.

(** A dense two-dimensional [ndarray]. *)
Record ndarray : Type := mk_ndarray {
  nd_dtype : dtype;
  nd_shape : nat * nat;
  nd_rows : list (list Z)
}.

Inductive array : Type :=
| Dense (a : ndarray)
| Sparse (m : csr_matrix).

Definition array_shape (a : array) : nat * nat :=
  match a with
  | Dense a => nd_shape a
  | Sparse m => shape m
  end.

(** The stored entries (column, value) of row [i]. *)
Definition row_entries (m : csr_matrix) (i : nat) : list (nat * Z) :=
  let lo := default 0 (indptr m !! i) in
  let hi := default 0 (indptr m !! S i) in
  (λ k, (default 0 (indices m !! k), default 0%Z (data m !! k)))
    <$> seq lo (hi - lo).

(** [m[i, j]]: stored entries at one position add up. *)
Definition csr_get (m : csr_matrix) (i j : nat) : Z :=
  foldr Z.add 0%Z ((filter (λ e, e.1 = j) (row_entries m i)).*2).


Definition nd_get (a : ndarray) (i j : nat) : Z :=
  default 0%Z (r ← nd_rows a !! i; r !! j).

Definition array_get (a : array) (i j : nat) : Z :=
  match a with
  | Dense a => nd_get a i j
  | Sparse m => csr_get m i j
  end.

(** Row boundary offsets of consecutive rows with the given lengths. *)
Fixpoint offsets (start : nat) (lens : list nat) : list nat :=
  start :: match lens with
           | [] => []
           | n :: lens' => offsets (start + n) lens'
           end.

(** A matrix in canonical compressed-row form from its rows, each a list of
    (column, value) in increasing column order. *)
Definition csr_of_rows (dt : dtype) (ncols : nat)
    (rows : list (list (nat * Z))) : csr_matrix :=
  {| csr_dtype := dt;
     data := (concat rows).*2;
     indices := (concat rows).*1;
     indptr := offsets 0 (length <$> rows);
     shape := (length rows, ncols) |}.

(** [csr_matrix(a)] for a dense [a]: the nonzero elements are stored. *)
Definition csr_of_dense (a : ndarray) : csr_matrix :=
  csr_of_rows (nd_dtype a) (nd_shape a).2
    ((λ r, filter (λ e, e.2 ≠ 0%Z) (zip (seq 0 (length r)) r)) <$> nd_rows a).

(** [m.toarray()]: entries stored more than once at a position are added
    up in the element type. *)
Definition toarray (m : csr_matrix) : ndarray :=
  {| nd_dtype := csr_dtype m;
     nd_shape := shape m;
     nd_rows := (λ i, (λ j, cast (csr_dtype m) (csr_get m i j))
                        <$> seq 0 (shape m).2)
                  <$> seq 0 (shape m).1 |}.

(** Number of times the coordinate [(i, j)] is listed. *)
Definition coord_count (coords : list (nat * nat)) (i j : nat) : nat :=
  length (filter (λ c, c = (i, j)) coords).

(** [csr_matrix((data, (row_inds, col_inds)), shape=shape, dtype=dt)] with
    [data] all [True]: coordinates outside the shape are refused, duplicates
    are summed in the element type, columns end up sorted within a row. *)
Definition csr_from_coords (dt : dtype) (row_inds col_inds : list nat)
    (shp : nat * nat) : result csr_matrix :=
  if decide (length row_inds = length col_inds) then
    let coords := zip row_inds col_inds in
    if decide (Forall (λ c, c.1 < shp.1 ∧ c.2 < shp.2) coords) then
      Ok (csr_of_rows dt shp.2
            ((λ i, omap (λ j, let n := coord_count coords i j in
                              if decide (n = 0) then None
                              else Some (j, cast dt (Z.of_nat n)))
                        (seq 0 shp.2))
               <$> seq 0 shp.1))
    else Raise ValueError
  else Raise ValueError.

(** [a = np.zeros(shape, dtype); a[(row_inds, col_inds)] = True] *)
Definition dense_from_coords (dt : dtype) (row_inds col_inds : list nat)
    (shp : nat * nat) : result ndarray :=
  if decide (length row_inds = length col_inds) then
    let coords := zip row_inds col_inds in
    if decide (Forall (λ c, c.1 < shp.1 ∧ c.2 < shp.2) coords) then
      Ok {| nd_dtype := dt;
            nd_shape := shp;
            nd_rows := (λ i, (λ j, if decide (coord_count coords i j = 0)
                                   then 0%Z else cast dt 1)
                               <$> seq 0 shp.2)
                         <$> seq 0 shp.1 |}
    else Raise IndexError
  else Raise IndexError.

(** ** Array builder *)

(** [{x: i for i, x in enumerate(mol_list)}]: a later position overwrites an
    earlier one. *)
Definition index_map (mol_list : list string) : gmap string nat :=
  foldl (λ acc ix, <[ix.2 := ix.1]> acc) ∅ (enumerate mol_list).

(** [scipy.sparse.lil_matrix]: the set of columns held by each row (every
    stored value is [True]). *)
Definition lil_matrix : Type := list (gset nat).

(** [m[i, inds] = True]; an empty [inds] assigns nothing. *)
Definition lil_set_row (m : lil_matrix) (i : nat) (inds : list nat)
  : lil_matrix :=
  <[i := default ∅ (m !! i) ∪ list_to_set inds]> m.

(** [m.tocsr()] *)
Definition tocsr (dt : dtype) (ncols : nat) (m : lil_matrix) : csr_matrix :=
  csr_of_rows dt ncols
    ((λ row : gset nat, (λ j, (j, cast dt 1))
                          <$> filter (λ j, j ∈ row) (seq 0 ncols)) <$> m).

(** [targets] is taken in its dict form (a targets file is parsed outside
    this module); the parameter [dense] of the source is never read. *)
Definition targets_to_array (targets_dict : gmap string SetValue)
    (mol_list : list string) (dt : dtype)
  : result (csr_matrix * list string) :=
  let target_list := sorted (dom targets_dict) in
  let target_num := length target_list in
  let mol_num := length mol_list in
  let mol_inds := index_map mol_list in
  let target_mol_array : lil_matrix := replicate target_num ∅ in
  target_mol_array ←
    fold_result (λ (arr : lil_matrix) (it : nat * string),
      let '(i, target_key) := it in
      sv ← of_option (targets_dict !! target_key) (KeyError target_key);
      inds ← map_result (λ mol_name,
                of_option (mol_inds !! mol_name) (KeyError mol_name))
              (cids sv);
      Ok (lil_set_row arr i inds))
    target_mol_array (enumerate target_list);
  Ok (tocsr dt mol_num target_mol_array, target_list).

(** The two collaborators of [molecules_to_array] that live outside this
    module: [native_tuple_to_fprint(n).bits] and [native_tuple_to_indices(n)]
    (the bit width of a fingerprint record and its set bits). *)
Class NativeTuple (T : Type) : Type := {
  native_tuple_bits : T → nat;
  native_tuple_to_indices : T → list nat
}.

(** Modelled from the spec: a fingerprint record, "convertible to a
    bit-index set", read by "a bit-extraction function mapping one
    fingerprint record to its set of bit indices and its total bit width";
    the two functions are defined outside this module. *)
Record native_tuple : Type := mk_native_tuple {
  nt_bits : nat;
  nt_indices : list nat
}.

Global Instance native_tuple_record : NativeTuple native_tuple := {|
  native_tuple_bits := nt_bits;
  native_tuple_to_indices := nt_indices
|}.

(** [d[k]] on a dict kept in iteration order. *)
Fixpoint getitem {V : Type} (d : list (string * V)) (k : string) : option V :=
  match d with
  | [] => None
  | (k', v) :: d' => if decide (k' = k) then Some v else getitem d' k
  end.

Section molecules.
Context {T : Type} `{!NativeTuple T}.

(** State of the loop: [mol_indices_dict], [all_row_inds], [all_col_inds],
    [max_ind]. *)
Record mol_state : Type := mk_mol_state {
  mol_indices_dict : gmap nat (list nat);
  all_row_inds : list nat;
  all_col_inds : list nat;
  max_ind : nat
}.

(** [[(i, j) for i, n in izip(row_inds, native_tuples)
           for j in native_tuple_to_indices(n)]] *)
Definition bit_coords (row_inds : list nat) (native_tuples : list T)
  : list (nat * nat) :=
  '(i, n) ← zip row_inds native_tuples;
  (λ j, (i, j)) <$> native_tuple_to_indices n.

Definition mol_step (mol_list_dict : list (string * list T))
    (st : mol_state) (it : nat * string) : result mol_state :=
  let '(k, mol_name) := it in
  native_tuples ← of_option (getitem mol_list_dict mol_name)
                            (KeyError mol_name);
  let fp_num := length native_tuples in
  let row_inds := seq (max_ind st) fp_num in
  let pairs := bit_coords row_inds native_tuples in
  (* the unpacking [row_inds, col_inds = zip(...)] needs two tuples *)
  if decide (pairs = []) then Raise ValueError
  else
    Ok {| mol_indices_dict := <[k := row_inds]> (mol_indices_dict st);
          all_row_inds := all_row_inds st ++ pairs.*1;
          all_col_inds := all_col_inds st ++ pairs.*2;
          max_ind := max_ind st + fp_num |}.

(** [molecules] is taken in its dict form, in the order the dict iterates
    (a molecules file is parsed outside this module). *)
Definition molecules_to_array (mol_list_dict : list (string * list T))
    (mol_list : list string) (dt : dtype) (dense : bool)
  : result (array * gmap nat (list nat)) :=
  if decide (list_to_set (mol_list_dict.*1) =@{gset string}
             list_to_set mol_list) then
    first ← of_option (head (mol_list_dict.*2)) StopIteration;
    nt ← of_option (head first) IndexError;
    let bit_num := native_tuple_bits nt in
    st ← fold_result (mol_step mol_list_dict)
           (mk_mol_state ∅ [] [] 0) (enumerate mol_list);
    if dense then
      all_fps ← dense_from_coords dt (all_row_inds st) (all_col_inds st)
                  (max_ind st, bit_num);
      Ok (Dense all_fps, mol_indices_dict st)
    else
      all_fps ← csr_from_coords dt (all_row_inds st) (all_col_inds st)
                  (max_ind st, bit_num);
      Ok (Sparse all_fps, mol_indices_dict st)
  else Raise AssertionError.
End molecules.

(** ** Fold splitter *)

(** [np.where(row == v)[0]] *)
Definition where_eq (v : Z) (row : list Z) : list nat :=
  (filter (λ jx : nat * Z, jx.2 = v) (zip (seq 0 (length row)) row)).*1.

(** [set(np.where(np.any(mask == v, axis=0))[0])] *)
Definition any_axis0 (v : Z) (mask : list (list Z)) : gset nat :=
  ⋃ ((λ row, list_to_set (where_eq v row)) <$> mask).

Section split.
Context {T : Type}.

(** [{x: mol_list_dict[x] for i, x in enumerate(mol_list) if i in inds}] *)
Definition select_mols (mol_list_dict : gmap string T)
    (mol_list : list string) (inds : gset nat) : result (gmap string T) :=
  fold_result (λ (acc : gmap string T) (it : nat * string),
    let '(i, x) := it in
    if decide (i ∈ inds) then
      v ← of_option (mol_list_dict !! x) (KeyError x);
      Ok (<[x := v]> acc)
    else Ok acc)
  ∅ (enumerate mol_list).

Definition target_step (mol_list : list string)
    (target_dict : gmap string SetValue) (train_test_mask : list (list Z))
    (st : gmap string SetValue * gmap string SetValue) (it : nat * string)
  : result (gmap string SetValue * gmap string SetValue) :=
  let '(test_target_dict, train_target_dict) := st in
  let '(i, target_key) := it in
  row ← of_option (train_test_mask !! i) IndexError;
  let test_mol_inds := where_eq 1 row in
  test_mols ← map_result (λ j, of_option (mol_list !! j) IndexError)
                test_mol_inds;
  let test_mols : gset string := list_to_set test_mols in
  sv ← of_option (target_dict !! target_key) (KeyError target_key);
  let pos_mols : gset string := list_to_set (cids sv) in
  Ok (<[target_key := mkSetValue (name sv) (sorted (pos_mols ∩ test_mols))
                        (description sv)]> test_target_dict,
      <[target_key := mkSetValue (name sv) (sorted (pos_mols ∖ test_mols))
                        (description sv)]> train_target_dict).

(** Returns [(train_mol_list_dict, train_target_dict, test_mol_list_dict,
    test_target_dict)]. *)
Definition train_test_dicts_from_mask (mol_list_dict : gmap string T)
    (mol_list : list string) (target_dict : gmap string SetValue)
    (target_list : list string) (train_test_mask : list (list Z))
  : result (gmap string T * gmap string SetValue *
            gmap string T * gmap string SetValue) :=
  let test_inds := any_axis0 1 train_test_mask in
  let train_inds := any_axis0 (-1) train_test_mask in
  test_mol_list_dict ← select_mols mol_list_dict mol_list test_inds;
  train_mol_list_dict ← select_mols mol_list_dict mol_list train_inds;
  '(test_target_dict, train_target_dict) ←
    fold_result (target_step mol_list target_dict train_test_mask)
      (∅, ∅) (enumerate target_list);
  Ok (train_mol_list_dict, train_target_dict,
      test_mol_list_dict, test_target_dict).
End split.

(** ** Sparse array codec *)

(** [s.endswith(suffix)] *)
Definition endswith (s suffix : string) : bool :=
  String.prefix (String.rev suffix) (String.rev s).

(** The file [np.savez(fn, ...)] writes: numpy appends the extension unless
    the name already carries it. *)
Definition npz_name (fn : string) : string :=
  if endswith fn ".npz" then fn else fn +:+ ".npz".

Section codec.
Context {M : Type}.

(** The named fields of the archive; [dtype], [ndata] and [mol_indices] are
    stored as one-element sequences. *)
Record archive : Type := mk_archive {
  f_dtype : list dtype;
  f_indices : list nat;
  f_indptr : list nat;
  f_shape : nat * nat;
  f_ndata : list nat;
  f_mol_indices : list M
}.

(** Files by name. *)
Local Abbreviation filesystem := (gmap string archive).

(** A sparse argument is a matrix in compressed-row form. *)
Definition save_fprints_arr (fs : filesystem) (fn : string) (arr : array)
    (mol_indices : M) : filesystem :=
  let arr := match arr with
             | Sparse m => m
             | Dense a => csr_of_dense a
             end in
  let kwargs := {| f_dtype := [csr_dtype arr];
                   f_indices := indices arr;
                   f_indptr := indptr arr;
                   f_shape := shape arr;
                   f_ndata := [length (data arr)];
                   f_mol_indices := [mol_indices] |} in
  <[npz_name fn := kwargs]> fs.

Definition load_fprints_arr (fs : filesystem) (fn : string) (dense : bool)
  : result (array * M) :=
  f ← of_option (fs !! fn) IOError;
  dtype ← of_option (f_dtype f !! 0) IndexError;
  ndata ← of_option (f_ndata f !! 0) IndexError;
  let indices := f_indices f in
  let indptr := f_indptr f in
  let shape := f_shape f in
  mol_indices ← of_option (f_mol_indices f !! 0) IndexError;
  let data := replicate ndata (cast dtype 1) in
  if dense then
    Ok (Dense (toarray (mk_csr dtype data indices indptr shape)),
        mol_indices)
  else
    Ok (Sparse (mk_csr dtype data indices indptr shape), mol_indices).
End codec.
Arguments archive M : clear implicits.
Abbreviation filesystem M := (gmap string (archive M)).

(** ** Metrics engine *)

(** The action of the warnings filter in force. *)
Inductive action : Type := act_default | act_ignore | act_error.

(** [warnings.simplefilter(a)] puts [a] in front of every other filter. *)
Definition simplefilter (a : action) (_ : action) : action := a.

(** [warnings.warn(w)]: an exception under the action [error]. *)
Definition warn (filt : action) (w : exn) : result unit :=
  match filt with
  | act_error => Raise w
  | _ => Ok ()
  end.

(** The numeric parts of scikit-learn the module calls: [auc], the three
    arrays of [roc_curve] (the flags say whether the false positive rate and
    the true positive rate are undefined and filled with NaN), and
    [precision_recall_curve] under a warnings filter. *)
Class Sklearn (F : Type) : Type := {
  sk_auc : list F → list F → result F;
  roc_arrays : bool → bool → list Z → list F → list F * list F * list F;
  precision_recall_curve :
    action → list Z → list F → result (list F * list F * list F)
}.

(** An operation of numpy on two one-dimensional arrays: element by element
    when the lengths agree, an array of one element being stretched to the
    length of the other, [ValueError] for any other two lengths. *)
Definition np_op {A B C : Type} (f : A → B → C) (a : list A) (b : list B)
  : result (list C) :=
  if decide (length a = length b) then Ok (zip_with f a b)
  else match a, b with
       | [x], _ => Ok (f x <$> b)
       | _, [y] => Ok ((λ x, f x y) <$> a)
       | _, _ => Raise ValueError
       end.

Section metrics.
Context {F : Type} `{!Arith F} `{!ArithTests F} `{!Sklearn F}.

(** [np.unique(y_true)] is one of [[0, 1]], [[-1, 1]], [[0]], [[-1]],
    [[1]]: the labels [roc_curve] accepts when [pos_label] is not given. *)
Definition binary_labels (y_true : list Z) : bool :=
  let classes : gset Z := list_to_set y_true in
  bool_decide (classes = {[0%Z; 1%Z]} ∨ classes = {[(-1)%Z; 1%Z]} ∨
               classes = {[0%Z]} ∨ classes = {[(-1)%Z]} ∨
               classes = {[1%Z]}).

(** [sklearn.metrics.roc_curve(y_true, y_score, drop_intermediate=True)]:
    [fps[-1]] is the number of samples whose label is not 1 and [tps[-1]]
    the number of samples whose label is 1; a count of zero is warned
    about and makes the rate undefined. *)
Definition roc_curve (filt : action) (y_true : list Z) (y_score : list F)
  : result (list F * list F * list F) :=
  if decide (length y_true = length y_score) then
    if binary_labels y_true then
      let fps_last := length (filter (λ y, y ≠ 1%Z) y_true) in
      let tps_last := length (filter (λ y, y = 1%Z) y_true) in
      _ ← (if decide (fps_last ≤ 0) then
             warn filt (UndefinedMetricWarning
               "No negative samples in y_true, false positive value should be meaningless")
           else Ok ());
      _ ← (if decide (tps_last ≤ 0) then
             warn filt (UndefinedMetricWarning
               "No positive samples in y_true, true positive value should be meaningless")
           else Ok ());
      Ok (roc_arrays (bool_decide (fps_last ≤ 0))
                     (bool_decide (tps_last ≤ 0)) y_true y_score)
    else Raise ValueError
  else Raise ValueError.

Definition get_auc (fp tp : list F) (adjusted : bool) : result F :=
  auc_val ← sk_auc fp tp;
  Ok (if adjusted then fsub auc_val (fconst (5 # 10)) else auc_val).

Definition get_roc_prc_auc (true_false : list Z) (metrics : list F)
  : result ((list F * list F * list F) * F *
            (list F * list F * list F) * F) :=
  (* with warnings.catch_warnings(): the filter is local to the call *)
  let filt := simplefilter act_error act_default in
  '(fpr, tpr, roc_thresh) ← roc_curve filt true_false metrics;
  auroc ← get_auc fpr tpr false;
  let filt := simplefilter act_error filt in
  '(precision, recall, prc_thresh) ←
    precision_recall_curve filt true_false metrics;
  auprc ← get_auc recall precision false;
  Ok ((fpr, tpr, roc_thresh), auroc,
      (recall, precision, prc_thresh), auprc).

(** The order numpy sorts and searches doubles by: NaN comes last. *)
Definition np_lt (a b : F) : bool :=
  flt a b || (fisnan b && negb (fisnan a)).

(** [np.searchsorted(a, v)] on a sorted [a]: the leftmost insertion point,
    the index of the first element that is not below [v]. *)
Fixpoint searchsorted (a : list F) (v : F) : nat :=
  match a with
  | [] => 0
  | x :: a' => if np_lt x v then S (searchsorted a' v) else 0
  end.

(** [a[1:]] and [a[:-1]] *)
Definition slice_from_1 (a : list F) : list F := drop 1 a.
Definition slice_to_last (a : list F) : list F := take (length a - 1) a.

(** The truncated curve [(x, y)] shared by [get_logroc] and [get_logauc]. *)
Definition truncate_curve (fp tp : list F) (min_fp : F)
  : result (list F * list F) :=
  let lam_index := searchsorted fp min_fp in
  let y := drop lam_index tp in
  let x := drop lam_index fp in
  if decide (lam_index ≠ 0) then
    y0 ← of_option (tp !! (lam_index - 1)) IndexError;
    Ok (min_fp :: x, y0 :: y)
  else Ok (x, y).

Definition get_logroc (fp tp : list F) (min_fp : F)
  : result (list F * list F) :=
  '(x, y) ← truncate_curve fp tp min_fp;
  Ok ((flog10 <$> x) : list F, y).

(** [1. / float(min_fp)]: a division of Python floats, which raises where
    numpy's would give an infinity. *)
Definition float_inverse (min_fp : F) : result F :=
  if fiszero min_fp then Raise ZeroDivisionError
  else Ok (fdiv (fconst 1) min_fp).

Definition get_logauc (fp tp : list F) (min_fp : F) (adjusted : bool)
  : result F :=
  '(x, y) ← truncate_curve fp tp min_fp;
  dy ← np_op fsub (slice_from_1 y) (slice_to_last y);
  dx ← np_op fsub (slice_from_1 x) (slice_to_last x);
  slope ← np_op fdiv dy dx;
  rise ← np_op fmul (slice_from_1 x) slope;
  intercept ← np_op fsub (slice_from_1 y) rise;
  let intercept :=
    (λ b, if fisinf b then fconst 0 else b) <$> intercept in
  inverse ← float_inverse min_fp;
  let norm := flog10 inverse in
  ratio ← np_op fdiv (slice_from_1 x) (slice_to_last x);
  weighted ← np_op fmul intercept (flog10 <$> ratio);
  total ← np_op fadd ((λ d, fdiv d (flog (fconst 10))) <$> dy) weighted;
  let areas := (λ a, fdiv a norm) <$> total in
  let logauc := fsum areas in
  Ok (if adjusted then fsub logauc (fconst (144620062 # 1000000000))
      else logauc).

(** [get_youden(fp, tp)] *)
Definition get_youden (fp tp : list F) : result (list F) := np_op fsub tp fp.
End metrics.

(** ** Exact arithmetic with the IEEE special values

    The instance of [Arith] on which the numeric statements are proved:
    finite values are real numbers (no rounding, zero is unsigned and counts
    as positive zero in a division), infinities and NaN propagate as in
    IEEE 754. *)

Inductive xreal : Type :=
| Fin (r : R)
| PInf
| NInf
| NaN.

Definition xneg (a : xreal) : xreal :=
  match a with
  | Fin r => Fin (- r)
  | PInf => NInf
  | NInf => PInf
  | NaN => NaN
  end.

Definition xadd (a b : xreal) : xreal :=
  match a, b with
  | NaN, _ | _, NaN => NaN
  | Fin x, Fin y => Fin (x + y)
  | PInf, NInf | NInf, PInf => NaN
  | PInf, _ | _, PInf => PInf
  | NInf, _ | _, NInf => NInf
  end.

Definition xsub (a b : xreal) : xreal := xadd a (xneg b).

(** The infinity of the sign of [r], NaN for zero. *)
Definition inf_of_sign (r : R) : xreal :=
  if Rlt_dec 0 r then PInf else if Rlt_dec r 0 then NInf else NaN.

Definition xmul (a b : xreal) : xreal :=
  match a, b with
  | NaN, _ | _, NaN => NaN
  | Fin x, Fin y => Fin (x * y)
  | Fin x, PInf | PInf, Fin x => inf_of_sign x
  | Fin x, NInf | NInf, Fin x => inf_of_sign (- x)
  | PInf, PInf | NInf, NInf => PInf
  | PInf, NInf | NInf, PInf => NInf
  end.

Definition xdiv (a b : xreal) : xreal :=
  match a, b with
  | NaN, _ | _, NaN => NaN
  | Fin x, Fin y => if Req_dec_T y 0 then inf_of_sign x else Fin (x / y)
  | Fin _, (PInf | NInf) => Fin 0
  | PInf, Fin y => if Rlt_dec y 0 then NInf else PInf
  | NInf, Fin y => if Rlt_dec y 0 then PInf else NInf
  | (PInf | NInf), (PInf | NInf) => NaN
  end.

Definition xlog (a : xreal) : xreal :=
  match a with
  | Fin x => if Rlt_dec 0 x then Fin (ln x)
             else if Rlt_dec x 0 then NaN else NInf
  | PInf => PInf
  | NInf | NaN => NaN
  end.

Definition xlog10 (a : xreal) : xreal := xdiv (xlog a) (Fin (ln 10)).

Definition xisinf (a : xreal) : bool :=
  match a with
  | PInf | NInf => true
  | _ => false
  end.

Definition xlt (a b : xreal) : bool :=
  match a, b with
  | Fin x, Fin y => if Rlt_dec x y then true else false
  | Fin _, PInf | NInf, Fin _ | NInf, PInf => true
  | _, _ => false
  end.

Global Instance xreal_arith : Arith xreal := {|
  fconst q := Fin (Q2R q);
  fadd := xadd;
  fsub := xsub;
  fmul := xmul;
  fdiv := xdiv;
  flog10 := xlog10;
  flog := xlog;
  fisinf := xisinf;
  flt := xlt;
  fsum l := foldr xadd (Fin 0) l
|}.

Definition xiszero (a : xreal) : bool :=
  match a with
  | Fin x => if Req_dec_T x 0 then true else false
  | _ => false
  end.

Definition xisnan (a : xreal) : bool :=
  match a with
  | NaN => true
  | _ => false
  end.

Global Instance xreal_tests : ArithTests xreal := {|
  fiszero := xiszero;
  fisnan := xisnan
|}.

(** ** Further functions of the module *)

(** [dict([(k, v) for k, v in targets_dict.iteritems() if len(v.cids) >= n])] *)
Definition filter_targets_by_molnum (targets_dict : gmap string SetValue)
    (n : Z) : gmap string SetValue :=
  filter (λ kv, (n ≤ Z.of_nat (length (cids kv.2)))%Z) targets_dict.

(** [{k: f(v) for k, v in d.iteritems()}] where [f] may raise: the entries are
    visited in the order the dict iterates and the first error ends the
    comprehension. *)
Definition dict_comprehension {A B : Type} (f : A → result B)
    (d : gmap string A) : result (gmap string B) :=
  kvs ← map_result (λ kv : string * A, v ← f kv.2; Ok (kv.1, v))
         (map_to_list d);
  Ok (list_to_map kvs).

Section metric_dicts.
Context {F : Type} `{!Arith F} `{!ArithTests F} `{!Sklearn F}.

(** The values are tuples whose first two components are the false and the
    true positive rates. *)
Definition auc_dict_from_fp_tp_dict (d : gmap string (list F * list F))
  : result (gmap string F) :=
  dict_comprehension (λ v, get_auc v.1 v.2 false) d.

(** [get_logauc] is called with its default cutoff, 0.001. *)
Definition logauc_dict_from_fp_tp_dict (d : gmap string (list F * list F))
  : result (gmap string F) :=
  dict_comprehension (λ v, get_logauc v.1 v.2 (fconst (1 # 1000)) false) d.
End metric_dicts.

(** The comparison [<=] of numpy's doubles, used by [np.argmax]. *)
Class ArithOrder (F : Type) : Type := {
  fle : F → F → bool
}.

Section youden.
Context {F : Type} `{!Arith F} `{!ArithTests F} `{!ArithOrder F}.

(** [np.argmax] scans from the left, keeps the first maximum and stops at
    the first NaN, which counts as the maximum. *)
Fixpoint argmax_from (mp : F) (max_ind i : nat) (ip : list F) : nat :=
  match ip with
  | [] => max_ind
  | x :: ip' =>
      if fle x mp then argmax_from mp max_ind (S i) ip'
      else if fisnan x then i
      else argmax_from x i (S i) ip'
  end.

Definition argmax (a : list F) : result nat :=
  match a with
  | [] => Raise ValueError
  | mp :: ip => Ok (if fisnan mp then 0 else argmax_from mp 0 1 ip)
  end.

Definition get_youden_index (fp tp : list F) (return_coordinate : bool)
  : result (F * option (F * F)) :=
  youden ← get_youden fp tp;
  index ← argmax youden;
  j ← of_option (youden !! index) IndexError;
  if return_coordinate then
    x ← of_option (fp !! index) IndexError;
    y ← of_option (tp !! index) IndexError;
    Ok (j, Some (x, y))
  else Ok (j, None).
End youden.

(** The comparison on the exact arithmetic: [<=] is false whenever an
    operand is NaN. *)
Definition xle (a b : xreal) : bool :=
  match a, b with
  | NaN, _ | _, NaN => false
  | Fin x, Fin y => if Rle_dec x y then true else false
  | NInf, _ | _, PInf => true
  | _, _ => false
  end.

Global Instance xreal_order : ArithOrder xreal := {|
  fle := xle
|}.

(** ** File names

    Paths and names are strings; [str(i)] and the format code [{:d}] of an
    integer are its decimal writing, [pretty i]. *)

Definition OUT_CSV_EXT_DEF : string := ".csv.gz".

(** [s.startswith(prefix)] *)
Definition startswith (s prefix : string) : bool := String.prefix prefix s.

(** [os.path.join(a, b)] on a POSIX system: an absolute [b] replaces [a],
    and no separator is added after an empty [a] or one that ends in a
    separator. *)
Definition os_path_join (a b : string) : string :=
  if startswith b "/" then b
  else if bool_decide (a = "") || endswith a "/" then a +:+ b
  else a +:+ "/" +:+ b.

(** [s.rfind(c)] for a one-character [c]: the last index of [c], -1 when
    there is none. *)
Fixpoint rfind_from (c : ascii) (s : string) (i found : Z) : Z :=
  match s with
  | "" => found
  | String a s' =>
      rfind_from c s' (i + 1) (if decide (a = c) then i else found)
  end.

Definition rfind (s : string) (c : ascii) : Z := rfind_from c s 0 (-1).

(** [s[n:]] and [s[:n]] *)
Fixpoint str_from (n : nat) (s : string) : string :=
  match n, s with
  | S n', String _ s' => str_from n' s'
  | _, _ => s
  end.

Fixpoint str_to (n : nat) (s : string) : string :=
  match n, s with
  | S n', String a s' => String a (str_to n' s')
  | _, _ => ""
  end.

(** [os.path.basename(p)] *)
Definition os_path_basename (p : string) : string :=
  let i := (rfind p "/" + 1)%Z in
  str_from (Z.to_nat i) p.

(** [os.path.splitext(p)]: the extension starts at the last dot of the last
    component, unless that component has nothing but dots before it. *)
Definition os_path_splitext (p : string) : string * string :=
  let sepIndex := rfind p "/" in
  let dotIndex := rfind p "." in
  if decide (sepIndex < dotIndex)%Z then
    (* the loop over [filenameIndex]: is there a character that is not a
       dot before the last dot *)
    if existsb (λ filenameIndex,
                  bool_decide (String.get filenameIndex p ≠ Some "."%char))
         (seq (Z.to_nat (sepIndex + 1))
              (Z.to_nat (dotIndex - (sepIndex + 1))))
    then (str_to (Z.to_nat dotIndex) p, str_from (Z.to_nat dotIndex) p)
    else (p, "")
  else (p, "").

Definition _make_cv_subdir (basedir : string) (i : Z) : string :=
  os_path_join basedir (pretty i).

(** [os.path.join(_make_cv_subdir(out_dir, i),
                  "{!s}_{!s}_{:d}{!s}".format(basename, group_type, i,
                                              out_ext))] *)
Definition _make_cv_filename (out_dir basename group_type : string) (i : Z)
    (out_ext : string) : string :=
  os_path_join (_make_cv_subdir out_dir i)
    (basename +:+ "_" +:+ group_type +:+ "_" +:+ pretty i +:+ out_ext).

Definition _make_csv_basename (filename : string) : string :=
  let basename := (os_path_splitext (os_path_basename filename)).1 in
  if endswith basename ".csv" then (os_path_splitext basename).1
  else basename.

(** * Properties *)

(** ** Dict aggregation *)

Section dicts_facts.
Context {V : Type}.
Implicit Types (merged : gmap string (list V)) (d : gmap string V).

(** The values a key has in the inputs, in the order the dicts are passed. *)
Definition values_of (k : string) (ds : list (gmap string V)) : list V :=
  omap (λ d, d !! k) ds.

Lemma foldl_setdefault_notin (l : list (string * V)) merged k :
  k ∉ l.*1 →
  foldl (λ acc kv, setdefault_append acc kv.1 kv.2) merged l !! k
  = merged !! k.
Proof.
  revert merged. induction l as [|[k' v] l IH]; intros merged Hk; [done|].
  cbn in Hk. apply not_elem_of_cons in Hk as [Hne Hk]. cbn.
  rewrite IH by done. unfold setdefault_append. cbn.
  by rewrite lookup_insert_ne.
Qed.

Lemma foldl_setdefault_in (l : list (string * V)) merged k v :
  NoDup l.*1 → (k, v) ∈ l →
  foldl (λ acc kv, setdefault_append acc kv.1 kv.2) merged l !! k
  = Some (default [] (merged !! k) ++ [v]).
Proof.
  revert merged. induction l as [|[k' v'] l IH]; intros merged Hnd Hin.
  { by apply elem_of_nil in Hin. }
  cbn in Hnd. apply NoDup_cons in Hnd as [Hk' Hnd].
  apply elem_of_cons in Hin as [Heq|Hin]; cbn.
  - injection Heq as -> ->.
    rewrite foldl_setdefault_notin by done.
    unfold setdefault_append. cbn. by rewrite lookup_insert_eq.
  - assert (k ≠ k') as Hne.
    { intros ->. apply Hk'. apply list_elem_of_fmap. by exists (k', v). }
    rewrite IH by done. unfold setdefault_append. cbn.
    by rewrite lookup_insert_ne.
Qed.

Lemma merge_one_lookup merged d k :
  merge_one merged d !! k
  = match d !! k with
    | Some v => Some (default [] (merged !! k) ++ [v])
    | None => merged !! k
    end.
Proof.
  unfold merge_one. destruct (d !! k) as [v|] eqn:Hd.
  - apply foldl_setdefault_in.
    + apply NoDup_fst_map_to_list.
    + by apply elem_of_map_to_list.
  - apply foldl_setdefault_notin.
    intros ([k' v] & Hk & Hin)%list_elem_of_fmap. cbn in Hk. subst k'.
    apply elem_of_map_to_list in Hin. congruence.
Qed.

Lemma foldl_merge_one_lookup (ds : list (gmap string V)) merged k :
  foldl merge_one merged ds !! k
  = match values_of k ds with
    | [] => merged !! k
    | vs => Some (default [] (merged !! k) ++ vs)
    end.
Proof.
  revert merged. induction ds as [|d ds IH]; intros merged; [done|].
  cbn. rewrite IH, merge_one_lookup. unfold values_of. cbn.
  fold (values_of k ds).
  destruct (d !! k) as [v|]; cbn; [|done].
  destruct (values_of k ds) as [|w vs]; [done|].
  by rewrite <- app_assoc.
Qed.

Lemma merge_dicts_lookup (ds : list (gmap string V)) k :
  merge_dicts ds !! k
  = if decide (values_of k ds = []) then None else Some (values_of k ds).
Proof.
  unfold merge_dicts. rewrite foldl_merge_one_lookup, lookup_empty.
  by destruct (values_of k ds).
Qed.
End dicts_facts.

(** C8: [merge_dicts] maps every key that occurs in some input to the list
    of its values in the order the dicts are passed, a dict without the key
    contributing nothing, and no other key; [average_dict_values] maps the
    same keys to the mean ([np.mean]: sum over count) of that list.  On the
    inputs [{a:1, b:2}] and [{a:3, c:4}] the results are
    [{a:[1,3], b:[2], c:[4]}] and [{a:2.0, b:2.0, c:4.0}]. *)
Theorem merge_average_dicts :
  (∀ (V : Type) (ds : list (gmap string V)) (k : string),
     merge_dicts ds !! k
     = if decide (values_of k ds = []) then None else Some (values_of k ds))
  ∧ (∀ (F : Type) (A : Arith F) (ds : list (gmap string F)) (k : string),
       average_dict_values ds !! k
       = if decide (values_of k ds = []) then None
         else Some (fdiv (fsum (values_of k ds))
                         (fconst (of_nat_Q (length (values_of k ds))))))
  ∧ merge_dicts [ ({[ "a" := 1%Z; "b" := 2%Z ]} : gmap string Z);
                  {[ "a" := 3%Z; "c" := 4%Z ]} ]
    = {[ "a" := [1%Z; 3%Z]; "b" := [2%Z]; "c" := [4%Z] ]}
  ∧ average_dict_values [ ({[ "a" := Fin 1; "b" := Fin 2 ]} : gmap string xreal);
                          {[ "a" := Fin 3; "c" := Fin 4 ]} ]
    = {[ "a" := Fin 2; "b" := Fin 2; "c" := Fin 4 ]}.
Proof.
  split; [|split; [|split]].
  - intros V ds k. apply merge_dicts_lookup.
  - intros F A ds k. unfold average_dict_values. cbn.
    rewrite lookup_fmap, merge_dicts_lookup.
    by destruct (decide _).
  - vm_compute. reflexivity.
  - unfold average_dict_values.
    assert (merge_dicts [ ({[ "a" := Fin 1; "b" := Fin 2 ]} : gmap string xreal);
                          {[ "a" := Fin 3; "c" := Fin 4 ]} ]
            = {[ "a" := [Fin 1; Fin 3]; "b" := [Fin 2]; "c" := [Fin 4] ]})
      as -> by (vm_compute; reflexivity).
    cbn zeta. rewrite !fmap_insert, map_fmap_singleton.
    assert (∀ r1 r2 : R, r1 = r2 → Fin r1 = Fin r2) as HFin by (by intros ?? ->).
    unfold np_mean. cbn -[Q2R]. unfold of_nat_Q, Q2R. cbn.
    change (Z.of_nat 2) with 2%Z. change (Z.of_nat 1) with 1%Z.
    repeat (destruct (Req_dec_T _ _) as [Hz|_]; [exfalso; lra|]).
    f_equal; [|f_equal; [|f_equal]]; apply HFin; lra.
Qed.

(** ** Degenerate labels *)

Section degenerate.
Context {F : Type} `{!Arith F} `{!ArithTests F} `{!Sklearn F}.

Lemma filter_replicate_true {A} (P : A → Prop) `{!∀ x, Decision (P x)}
    (n : nat) (x : A) :
  P x → filter P (replicate n x) = replicate n x.
Proof. intros HP. induction n; cbn; [done|]. rewrite decide_True by done. by f_equal. Qed.

Lemma filter_replicate_false {A} (P : A → Prop) `{!∀ x, Decision (P x)}
    (n : nat) (x : A) :
  ¬ P x → filter P (replicate n x) = [].
Proof. intros HP. induction n; cbn; [done|]. by rewrite decide_False by done. Qed.

Lemma list_to_set_replicate (n : nat) (z : Z) :
  n ≠ 0 → list_to_set (replicate n z) =@{gset Z} {[z]}.
Proof.
  intros Hn. apply set_eq. intros y.
  rewrite elem_of_list_to_set, elem_of_replicate, elem_of_singleton. tauto.
Qed.

Lemma binary_labels_replicate (n : nat) (z : Z) :
  z = 0%Z ∨ z = 1%Z → binary_labels (replicate n z) = bool_decide (n ≠ 0).
Proof.
  intros Hz. unfold binary_labels.
  destruct (decide (n = 0)) as [->|Hn].
  - cbn. apply bool_decide_eq_false_2.
    intros [H|[H|[H|[H|H]]]]; apply (f_equal (λ X : gset Z, size X)) in H;
      revert H; by vm_compute.
  - rewrite list_to_set_replicate by done.
    rewrite (bool_decide_eq_true_2 (n ≠ 0)) by done.
    apply bool_decide_eq_true_2. destruct Hz as [-> | ->]; auto.
Qed.

Lemma roc_curve_all_zero (n : nat) (y_score : list F) :
  roc_curve act_error (replicate n 0%Z) y_score
  = Raise (if decide (n = length y_score ∧ n ≠ 0)
           then UndefinedMetricWarning
                  "No positive samples in y_true, true positive value should be meaningless"
           else ValueError).
Proof.
  unfold roc_curve. rewrite length_replicate.
  rewrite binary_labels_replicate by auto.
  rewrite filter_replicate_true by done.
  rewrite filter_replicate_false by (intros ?; done).
  rewrite length_replicate.
  repeat (case_decide || case_bool_decide); cbn in *; try done; try lia;
    exfalso; tauto || lia.
Qed.

Lemma roc_curve_all_one (n : nat) (y_score : list F) :
  roc_curve act_error (replicate n 1%Z) y_score
  = Raise (if decide (n = length y_score ∧ n ≠ 0)
           then UndefinedMetricWarning
                  "No negative samples in y_true, false positive value should be meaningless"
           else ValueError).
Proof.
  unfold roc_curve. rewrite length_replicate.
  rewrite binary_labels_replicate by auto.
  rewrite filter_replicate_false by (intros ?; done).
  rewrite filter_replicate_true by done.
  rewrite length_replicate.
  repeat (case_decide || case_bool_decide); cbn in *; try done; try lia;
    exfalso; tauto || lia.
Qed.
End degenerate.

(** C2: on a label array of one class only (all zeros, or all ones) and any
    score array, [get_roc_prc_auc] raises: the warning of [roc_curve] about
    the missing class, turned into an exception by the [error] filter, when
    the arrays are non-empty and of one length, and [ValueError] otherwise.
    No value is returned. *)
Theorem get_roc_prc_auc_single_class :
  ∀ (F : Type) (A : Arith F) (S : Sklearn F) (n : nat) (y_score : list F),
    get_roc_prc_auc (replicate n 0%Z) y_score
    = Raise (if decide (n = length y_score ∧ n ≠ 0)
             then UndefinedMetricWarning
                    "No positive samples in y_true, true positive value should be meaningless"
             else ValueError)
    ∧ get_roc_prc_auc (replicate n 1%Z) y_score
      = Raise (if decide (n = length y_score ∧ n ≠ 0)
               then UndefinedMetricWarning
                      "No negative samples in y_true, false positive value should be meaningless"
               else ValueError).
Proof.
  intros F A S n y_score. unfold get_roc_prc_auc, simplefilter. split.
  - by rewrite roc_curve_all_zero.
  - by rewrite roc_curve_all_one.
Qed.

(** ** Generic facts on the loops *)

Lemma elem_of_sorted (s : gset string) (k : string) : k ∈ sorted s ↔ k ∈ s.
Proof. unfold sorted. by rewrite merge_sort_Permutation, elem_of_elements. Qed.

Lemma NoDup_sorted (s : gset string) : NoDup (sorted s).
Proof. unfold sorted. rewrite merge_sort_Permutation. apply NoDup_elements. Qed.

Lemma Sorted_sorted (s : gset string) : Sorted String.le (sorted s).
Proof. apply (Sorted_merge_sort String.le). Qed.

Lemma enumerate_lookup {A} (l : list A) (i : nat) (x : A) :
  enumerate l !! i = Some (i, x) ↔ l !! i = Some x.
Proof.
  unfold enumerate. rewrite lookup_zip_with_Some. split.
  - intros (a & b & Heq & Ha & Hb). by simplify_eq.
  - intros Hx. exists i, x. split_and!; [done| |done].
    apply lookup_seq. split; [done|]. by eapply lookup_lt_Some.
Qed.

Lemma elem_of_enumerate {A} (l : list A) (i : nat) (x : A) :
  (i, x) ∈ enumerate l ↔ l !! i = Some x.
Proof.
  rewrite list_elem_of_lookup. split.
  - intros (j & Hj). unfold enumerate in Hj.
    apply lookup_zip_with_Some in Hj as (a & b & Heq & Ha & Hb).
    apply lookup_seq in Ha as [-> _]. by simplify_eq.
  - intros Hx. exists i. by apply enumerate_lookup.
Qed.

Lemma enumerate_snoc {A} (l : list A) (x : A) :
  enumerate (l ++ [x]) = enumerate l ++ [(length l, x)].
Proof.
  unfold enumerate. rewrite length_app. cbn.
  rewrite seq_app. cbn. rewrite zip_with_app by (by rewrite length_seq). done.
Qed.

Lemma fold_result_snoc {A S} (body : S → A → result S) (s : S) (l : list A)
    (x : A) :
  fold_result body s (l ++ [x]) = (s' ← fold_result body s l; body s' x).
Proof.
  revert s. induction l as [|y l IH]; intros s; cbn.
  - by destruct (body s x).
  - destruct (body s y); cbn; [apply IH|done].
Qed.

(** A loop whose steps fail only with errors satisfying [P], and one of
    whose steps fails whatever the state, fails with such an error. *)
Lemma fold_result_raises {A S} (P : exn → Prop) (body : S → A → result S)
    (l : list A) (s : S) :
  (∀ s x e, x ∈ l → body s x = Raise e → P e) →
  (∃ x, x ∈ l ∧ ∀ s, ∃ e, body s x = Raise e) →
  ∃ e, P e ∧ fold_result body s l = Raise e.
Proof.
  revert s. induction l as [|y l IH]; intros s Hall (x & Hx & Hbad).
  { by apply elem_of_nil in Hx. }
  cbn. destruct (body s y) as [s'|e] eqn:Hy; cbn.
  - apply IH.
    + intros s0 x0 e0 Hin. apply Hall. by right.
    + apply elem_of_cons in Hx as [->|Hx].
      * destruct (Hbad s) as [e He]. congruence.
      * eauto.
  - exists e. split; [|done]. eapply Hall; [|done]. by left.
Qed.

Lemma fold_result_ok {A S} (body : S → A → result S) (l : list A) (s : S) :
  (∀ s x, x ∈ l → ∃ s', body s x = Ok s') →
  ∃ s', fold_result body s l = Ok s'.
Proof.
  revert s. induction l as [|y l IH]; intros s Hall; cbn; [by eexists|].
  destruct (Hall s y) as [s' ->]; [by left|]. cbn.
  apply IH. intros s0 x0 Hin. apply Hall. by right.
Qed.

Lemma map_result_ok {A B} (f : A → result B) (g : A → B) (l : list A) :
  (∀ x, x ∈ l → f x = Ok (g x)) → map_result f l = Ok (g <$> l).
Proof.
  induction l as [|x l IH]; intros Hall; cbn; [done|].
  rewrite Hall by (by left). cbn. rewrite IH; [done|].
  intros y Hy. apply Hall. by right.
Qed.

Lemma map_result_raises {A B} (P : exn → Prop) (f : A → result B)
    (l : list A) :
  (∀ x e, x ∈ l → f x = Raise e → P e) →
  (∃ x e, x ∈ l ∧ f x = Raise e) →
  ∃ e, P e ∧ map_result f l = Raise e.
Proof.
  induction l as [|y l IH]; intros Hall (x & e & Hx & He).
  { by apply elem_of_nil in Hx. }
  cbn. destruct (f y) as [b|e'] eqn:Hy; cbn.
  - destruct IH as (e0 & HP & ->).
    + intros x0 e0 Hin. apply Hall. by right.
    + apply elem_of_cons in Hx as [->|Hx]; [congruence|eauto].
    + by exists e0.
  - exists e'. split; [|done]. eapply Hall; [|done]. by left.
Qed.

(** ** Target array *)

Lemma foldl_index_dom (l : list (nat * string)) (acc : gmap string nat) :
  dom (foldl (λ acc ix, <[ix.2 := ix.1]> acc) acc l)
  = dom acc ∪ list_to_set l.*2.
Proof.
  revert acc. induction l as [|[i x] l IH]; intros acc; cbn.
  - set_solver.
  - rewrite IH, dom_insert_L. set_solver.
Qed.

Lemma enumerate_snd {A} (l : list A) : (enumerate l).*2 = l.
Proof. unfold enumerate. apply snd_zip. by rewrite length_seq. Qed.

Lemma index_map_None (mol_list : list string) (x : string) :
  index_map mol_list !! x = None ↔ x ∉ mol_list.
Proof.
  rewrite <- not_elem_of_dom. unfold index_map.
  rewrite foldl_index_dom, enumerate_snd, dom_empty_L.
  rewrite elem_of_union, elem_of_list_to_set. set_solver.
Qed.

(** An error that names a molecule identifier missing from the list. *)
Definition unknown_molecule (mol_list : list string) (e : exn) : Prop :=
  ∃ c, e = KeyError c ∧ c ∉ mol_list.

Section cids_lookup.
Variable mol_list : list string.

Let lookup_ind (mol_name : string) : result nat :=
  of_option (index_map mol_list !! mol_name) (KeyError mol_name).

Lemma cids_lookup_raises (cs : list string) (e : exn) :
  map_result lookup_ind cs = Raise e → unknown_molecule mol_list e.
Proof.
  induction cs as [|x l IH]; cbn; [done|].
  destruct (lookup_ind x) as [i|e'] eqn:Hx; cbn.
  - destruct (map_result lookup_ind l); cbn; [done|].
    intros [= <-]. by apply IH.
  - intros [= <-]. unfold lookup_ind in Hx.
    destruct (index_map mol_list !! x) eqn:Hi; [done|].
    injection Hx as <-. exists x. split; [done|]. by apply index_map_None.
Qed.

Lemma cids_lookup_missing (cs : list string) (c : string) :
  c ∈ cs → c ∉ mol_list → ∃ e, map_result lookup_ind cs = Raise e.
Proof.
  intros Hc Hmiss. induction cs as [|x l IH]; [by apply elem_of_nil in Hc|].
  cbn. destruct (lookup_ind x) as [i|e] eqn:Hx; cbn; [|by eexists].
  apply elem_of_cons in Hc as [->|Hc].
  - unfold lookup_ind in Hx.
    by rewrite (proj2 (index_map_None mol_list x)) in Hx.
  - destruct (IH Hc) as [e ->]. by eexists.
Qed.

Lemma cids_lookup_ok (cs : list string) :
  Forall (λ c, c ∈ mol_list) cs → ∃ inds, map_result lookup_ind cs = Ok inds.
Proof.
  induction 1 as [|x l Hx _ [inds IH]]; cbn; [by eexists|].
  destruct (lookup_ind x) as [i|e'] eqn:Hi; cbn.
  - rewrite IH. cbn. by eexists.
  - unfold lookup_ind in Hi.
    destruct (index_map mol_list !! x) eqn:Hi'; [done|].
    by apply index_map_None in Hi'.
Qed.
End cids_lookup.

(** C7: when the [cids] of some target hold a molecule identifier that is
    not in the molecule list, [targets_to_array] raises [KeyError] for such
    an identifier; nothing is returned and nothing is dropped. *)
Theorem targets_to_array_unknown_molecule
    (targets_dict : gmap string SetValue) (mol_list : list string)
    (dt : dtype) :
  (∃ k sv c, targets_dict !! k = Some sv ∧ c ∈ cids sv ∧ c ∉ mol_list) →
  ∃ c, targets_to_array targets_dict mol_list dt = Raise (KeyError c)
       ∧ c ∉ mol_list.
Proof.
  intros (k & sv & c & Hk & Hc & Hmiss). unfold targets_to_array.
  set (body := λ (arr : lil_matrix) (it : nat * string), _).
  destruct (fold_result_raises (unknown_molecule mol_list) body
              (enumerate (sorted (dom targets_dict)))
              (replicate (length (sorted (dom targets_dict))) ∅))
    as (e & (c' & -> & Hc') & Hfold).
  - intros arr [i key] e Hin Hbody.
    apply elem_of_enumerate, list_elem_of_lookup_2, elem_of_sorted in Hin.
    apply elem_of_dom in Hin as [sv' Hsv']. unfold body in Hbody.
    rewrite Hsv' in Hbody. cbn in Hbody.
    destruct (map_result _ (cids sv')) as [inds|e'] eqn:Hmap; cbn in Hbody;
      [done|]. injection Hbody as ->. by eapply cids_lookup_raises.
  - assert (k ∈ sorted (dom targets_dict)) as Hin.
    { apply elem_of_sorted, elem_of_dom. by eexists. }
    apply list_elem_of_lookup in Hin as [i Hi].
    exists (i, k). split; [by apply elem_of_enumerate|].
    intros arr. unfold body. rewrite Hk. cbn.
    destruct (cids_lookup_missing mol_list (cids sv) c Hc Hmiss) as [e ->].
    by eexists.
  - exists c'. split; [|done]. by rewrite Hfold.
Qed.

(** When every identifier is known the call returns, with the target keys in
    sorted order. *)
Lemma targets_to_array_returns (targets_dict : gmap string SetValue)
    (mol_list : list string) (dt : dtype) :
  (∀ k sv, targets_dict !! k = Some sv → Forall (λ c, c ∈ mol_list) (cids sv)) →
  ∃ m, targets_to_array targets_dict mol_list dt
       = Ok (m, sorted (dom targets_dict)).
Proof.
  intros Hall. unfold targets_to_array.
  set (body := λ (arr : lil_matrix) (it : nat * string), _).
  destruct (fold_result_ok body (enumerate (sorted (dom targets_dict)))
              (replicate (length (sorted (dom targets_dict))) ∅))
    as [arr ->]; [|by eexists].
  intros arr [i key] Hin.
  apply elem_of_enumerate, list_elem_of_lookup_2, elem_of_sorted in Hin.
  apply elem_of_dom in Hin as [sv Hsv]. unfold body. rewrite Hsv. cbn.
  destruct (cids_lookup_ok mol_list (cids sv)) as [inds ->]; [by eapply Hall|].
  by eexists.
Qed.

(** ** Sparse matrices *)

Lemma offsets_lookup {A} (rows : list (list A)) (s i : nat) :
  i ≤ length rows →
  offsets s (length <$> rows) !! i = Some (s + length (concat (take i rows))).
Proof.
  revert s i. induction rows as [|r rows IH]; intros s i Hi.
  - cbn in Hi. replace i with 0 by lia. cbn. f_equal. lia.
  - destruct i as [|i]; cbn; [f_equal; lia|].
    cbn in Hi. rewrite IH by lia. rewrite length_app. f_equal. lia.
Qed.

Lemma lookups_middle {A B} (f : option A → B) (a r b : list A) :
  (λ k, f ((a ++ r ++ b) !! k)) <$> seq (length a) (length r)
  = (λ x, f (Some x)) <$> r.
Proof.
  revert a. induction r as [|x r IH]; intros a; [done|]. cbn.
  rewrite list_lookup_middle by done. f_equal.
  specialize (IH (a ++ [x])). rewrite length_app in IH. cbn in IH.
  rewrite Nat.add_1_r in IH. rewrite <- IH.
  apply list_fmap_ext. intros _ k _. by rewrite <- app_assoc.
Qed.

Lemma row_entries_csr_of_rows (dt : dtype) (ncols : nat)
    (rows : list (list (nat * Z))) (i : nat) (r : list (nat * Z)) :
  rows !! i = Some r → row_entries (csr_of_rows dt ncols rows) i = r.
Proof.
  intros Hr. apply list_elem_of_split_length in Hr as (l1 & l2 & -> & ->).
  unfold row_entries, csr_of_rows. cbn.
  rewrite !offsets_lookup by (rewrite length_app; cbn; lia). cbn.
  rewrite take_app_length.
  replace (take (S (length l1)) (l1 ++ r :: l2)) with (l1 ++ [r]).
  2: { rewrite (take_S_r _ _ r), take_app_length; [done|].
       by rewrite list_lookup_middle. }
  rewrite !concat_app. cbn. rewrite app_nil_r, length_app.
  set (a := concat l1). set (b := concat l2).
  replace (length a + length r - length a) with (length r) by lia.
  etrans.
  { apply (list_fmap_ext _ (λ k, (λ o : option (nat * Z), (default 0 (fst <$> o), default 0%Z (snd <$> o)))
                                   ((a ++ r ++ b) !! k))).
    intros _ k _. cbn. by rewrite !list_lookup_fmap. }
  rewrite (lookups_middle (λ o : option (nat * Z), (default 0 (fst <$> o), default 0%Z (snd <$> o)))).
  cbn. rewrite <- (list_fmap_id r) at 2. apply list_fmap_ext. by intros _ [] _.
Qed.

Lemma length_offsets (s : nat) (lens : list nat) :
  length (offsets s lens) = S (length lens).
Proof. revert s. induction lens as [|n lens IH]; intros s; cbn; [done|]. by rewrite IH. Qed.

Lemma shape_csr_of_rows dt ncols rows :
  shape (csr_of_rows dt ncols rows) = (length rows, ncols).
Proof. done. Qed.

(** The value summed at column [j] of a row that holds at most one entry per
    column, the one [h] gives. *)
Lemma sum_column_omap_seq (h : nat → option (nat * Z)) (a n j : nat) :
  (∀ j' e, h j' = Some e → e.1 = j') →
  foldr Z.add 0%Z ((filter (λ e, e.1 = j) (omap h (seq a n))).*2)
  = if decide (a ≤ j < a + n) then default 0%Z (snd <$> h j) else 0%Z.
Proof.
  intros Hh. revert a. induction n as [|n IH]; intros a.
  { cbn. rewrite decide_False by lia. done. }
  cbn. destruct (h a) as [e|] eqn:Ha; cbn.
  - destruct (decide (e.1 = j)) as [He|He]; cbn.
    + rewrite IH. rewrite (Hh _ _ Ha) in He. subst j.
      rewrite decide_False by lia. rewrite decide_True by lia.
      rewrite Ha. cbn. lia.
    + rewrite IH. rewrite (Hh _ _ Ha) in He.
      destruct (decide (S a ≤ j < S a + n)); [rewrite decide_True by lia|rewrite decide_False by lia]; done.
  - rewrite IH. destruct (decide (a = j)) as [->|Hne].
    + rewrite decide_False by lia. rewrite decide_True by lia. by rewrite Ha.
    + destruct (decide (S a ≤ j < S a + n)); [rewrite decide_True by lia|rewrite decide_False by lia]; done.
Qed.

Lemma csr_from_coords_spec (dt : dtype) (row_inds col_inds : list nat)
    (shp : nat * nat) (m : csr_matrix) :
  csr_from_coords dt row_inds col_inds shp = Ok m →
  shape m = shp
  ∧ Forall (λ c, c.1 < shp.1 ∧ c.2 < shp.2) (zip row_inds col_inds)
  ∧ ∀ i j, i < shp.1 →
      csr_get m i j
      = let n := coord_count (zip row_inds col_inds) i j in
        if decide (n = 0) then 0%Z else cast dt (Z.of_nat n).
Proof.
  unfold csr_from_coords. case_decide; [|done]. case_decide as Hin; [|done].
  intros [= <-]. split_and!; [|done|].
  { cbn. rewrite length_fmap, length_seq. by destruct shp. }
  intros i j Hi. unfold csr_get.
  rewrite (row_entries_csr_of_rows _ _ _ i
             (omap (λ j, let n := coord_count (zip row_inds col_inds) i j in
                         if decide (n = 0) then None
                         else Some (j, cast dt (Z.of_nat n))) (seq 0 shp.2))).
  2: { rewrite list_lookup_fmap. by rewrite lookup_seq_lt. }
  rewrite sum_column_omap_seq.
  2: { intros j' e. cbn. case_decide; [done|]. by intros [= <-]. }
  cbn. destruct (decide (0 ≤ j < shp.2)) as [Hj|Hj].
  - by case_decide.
  - (* no coordinate lies outside the shape *)
    rewrite decide_True; [done|]. unfold coord_count.
    destruct (filter _ _) as [|c cs] eqn:Hf; [done|]. exfalso.
    assert (c ∈ filter (λ c, c = (i, j)) (zip row_inds col_inds)) as Hc
      by (rewrite Hf; by left).
    apply list_elem_of_filter in Hc as [-> Hc].
    rewrite Forall_forall in Hin. apply Hin in Hc. cbn in Hc. lia.
Qed.

Lemma dense_from_coords_spec (dt : dtype) (row_inds col_inds : list nat)
    (shp : nat * nat) (a : ndarray) :
  dense_from_coords dt row_inds col_inds shp = Ok a →
  nd_shape a = shp
  ∧ Forall (λ c, c.1 < shp.1 ∧ c.2 < shp.2) (zip row_inds col_inds)
  ∧ ∀ i j, i < shp.1 →
      nd_get a i j
      = if decide (coord_count (zip row_inds col_inds) i j = 0) then 0%Z
        else cast dt 1.
Proof.
  unfold dense_from_coords. case_decide; [|done]. case_decide as Hin; [|done].
  intros [= <-]. split_and!; [done|done|].
  intros i j Hi. unfold nd_get. cbn.
  rewrite list_lookup_fmap, lookup_seq_lt by done. cbn.
  rewrite list_lookup_fmap.
  destruct (decide (j < shp.2)) as [Hj|Hj].
  - by rewrite lookup_seq_lt.
  - rewrite lookup_seq_ge by lia. cbn.
    rewrite decide_True; [done|]. unfold coord_count.
    destruct (filter _ _) as [|c cs] eqn:Hf; [done|]. exfalso.
    assert (c ∈ filter (λ c, c = (i, j)) (zip row_inds col_inds)) as Hc
      by (rewrite Hf; by left).
    apply list_elem_of_filter in Hc as [-> Hc].
    rewrite Forall_forall in Hin. apply Hin in Hc. cbn in Hc. lia.
Qed.


(** ** Fold splitter *)

(** The molecules at mask value [v] in a row. *)
Definition mols_at (mol_list : list string) (v : Z) (row : list Z)
  : gset string :=
  list_to_set (omap (λ j, mol_list !! j) (where_eq v row)).

Definition test_target (mol_list : list string) (sv : SetValue)
    (row : list Z) : SetValue :=
  mkSetValue (name sv)
    (sorted (list_to_set (cids sv) ∩ mols_at mol_list 1 row))
    (description sv).

Definition train_target (mol_list : list string) (sv : SetValue)
    (row : list Z) : SetValue :=
  mkSetValue (name sv)
    (sorted (list_to_set (cids sv) ∖ mols_at mol_list 1 row))
    (description sv).

(** Inputs of the shapes the splitter is written for: one mask row per
    target, one mask column per molecule, every listed molecule and target
    present in its dict. *)
Definition well_formed_split {T : Type} (mol_list_dict : gmap string T)
    (mol_list : list string) (target_dict : gmap string SetValue)
    (target_list : list string) (train_test_mask : list (list Z)) : Prop :=
  length train_test_mask = length target_list
  ∧ Forall (λ row, length row = length mol_list) train_test_mask
  ∧ (∀ x, x ∈ mol_list → is_Some (mol_list_dict !! x))
  ∧ (∀ k, k ∈ target_list → is_Some (target_dict !! k)).

Lemma elem_of_where_eq (v : Z) (row : list Z) (j : nat) :
  j ∈ where_eq v row ↔ row !! j = Some v.
Proof.
  unfold where_eq. rewrite list_elem_of_fmap. split.
  - intros ([j' x] & -> & Hin). apply list_elem_of_filter in Hin as [Hx Hin].
    cbn in *. subst x. by apply (elem_of_enumerate row).
  - intros Hj. exists (j, v). split; [done|].
    apply list_elem_of_filter. split; [done|]. by apply (elem_of_enumerate row).
Qed.

Lemma elem_of_any_axis0 (v : Z) (mask : list (list Z)) (j : nat) :
  j ∈ any_axis0 v mask ↔ ∃ row, row ∈ mask ∧ row !! j = Some v.
Proof.
  unfold any_axis0. rewrite elem_of_union_list. split.
  - intros (X & HX & Hj). apply list_elem_of_fmap in HX as (row & -> & Hrow).
    exists row. split; [done|].
    apply elem_of_list_to_set in Hj. by apply elem_of_where_eq.
  - intros (row & Hrow & Hj). exists (list_to_set (where_eq v row)). split.
    + apply list_elem_of_fmap. by exists row.
    + apply elem_of_list_to_set. by apply elem_of_where_eq.
Qed.

Lemma map_result_lookups {A} (l : list A) (e : exn) (js : list nat) :
  Forall (λ j, j < length l) js →
  map_result (λ j, of_option (l !! j) e) js = Ok (omap (λ j, l !! j) js).
Proof.
  induction 1 as [|j js Hj _ IH]; cbn; [done|].
  destruct (lookup_lt_is_Some_2 l j Hj) as [x Hx]. rewrite Hx. cbn.
  by rewrite IH.
Qed.

Section split_facts.
Context {T : Type}.
Implicit Types (mol_list_dict : gmap string T) (mol_list : list string).

Lemma select_mols_spec mol_list_dict mol_list (inds : gset nat) :
  (∀ x, x ∈ mol_list → is_Some (mol_list_dict !! x)) →
  ∃ m, select_mols mol_list_dict mol_list inds = Ok m
       ∧ ∀ x v, m !! x = Some v ↔
                ∃ i, i ∈ inds ∧ mol_list !! i = Some x
                     ∧ mol_list_dict !! x = Some v.
Proof.
  unfold select_mols.
  induction mol_list as [|y l IH] using rev_ind; intros Hdict.
  { exists ∅. split; [done|]. intros x v. rewrite lookup_empty. split; [done|].
    by intros (i & _ & Hi & _). }
  destruct IH as (m & Hm & Hspec).
  { intros x Hx. apply Hdict, elem_of_app. by left. }
  rewrite enumerate_snoc, fold_result_snoc, Hm. cbn.
  destruct (decide (length l ∈ inds)) as [Hin|Hin].
  - destruct (Hdict y) as [w Hw]; [apply elem_of_app; right; by left|].
    rewrite Hw. cbn. eexists. split; [done|]. intros x v.
    destruct (decide (x = y)) as [->|Hne].
    + rewrite lookup_insert_eq. split.
      * intros [= <-]. exists (length l). split_and!; [done| |done].
        by rewrite lookup_app_r, Nat.sub_diag.
      * intros (_ & _ & _ & Hv). congruence.
    + rewrite lookup_insert_ne by done. rewrite Hspec.
      split; intros (i & Hi & Hl & Hv); exists i; split_and!; try done.
      * by apply lookup_app_l_Some.
      * apply lookup_app_Some in Hl as [Hl|[_ Hl]]; [done|].
        apply list_lookup_singleton_Some in Hl as [_ ->]. done.
  - eexists. split; [done|]. intros x v. rewrite Hspec.
    split; intros (i & Hi & Hl & Hv); exists i; split_and!; try done.
    + by apply lookup_app_l_Some.
    + apply lookup_app_Some in Hl as [Hl|[Hge Hl]]; [done|].
      apply list_lookup_singleton_Some in Hl as [Hi0 ->].
      replace i with (length l) in Hi by lia. done.
Qed.

Lemma target_step_ok mol_list (target_dict : gmap string SetValue)
    (mask : list (list Z)) (st : gmap string SetValue * gmap string SetValue)
    (i : nat) (key : string) (row : list Z) (sv : SetValue) :
  mask !! i = Some row → length row ≤ length mol_list →
  target_dict !! key = Some sv →
  target_step mol_list target_dict mask st (i, key)
  = Ok (<[key := test_target mol_list sv row]> st.1,
        <[key := train_target mol_list sv row]> st.2).
Proof.
  intros Hrow Hlen Hsv. destruct st as [t r]. unfold target_step.
  rewrite Hrow. cbn. rewrite map_result_lookups.
  - cbn. rewrite Hsv. cbn. done.
  - apply Forall_forall. intros j Hj. apply elem_of_where_eq in Hj.
    apply lookup_lt_Some in Hj. lia.
Qed.

(** What the target loop leaves at a key: nothing for a key that is not
    listed, the split of the key's last row otherwise. *)
Definition target_loop_post mol_list (target_dict : gmap string SetValue)
    (mask : list (list Z)) (target_list : list string)
    (st : gmap string SetValue * gmap string SetValue) : Prop :=
  ∀ key,
    (key ∉ target_list → st.1 !! key = None ∧ st.2 !! key = None)
    ∧ (key ∈ target_list →
       ∃ i row sv,
         target_list !! i = Some key
         ∧ (∀ i', i < i' → target_list !! i' ≠ Some key)
         ∧ mask !! i = Some row ∧ target_dict !! key = Some sv
         ∧ st.1 !! key = Some (test_target mol_list sv row)
         ∧ st.2 !! key = Some (train_target mol_list sv row)).

Lemma target_loop_spec mol_list (target_dict : gmap string SetValue)
    (mask : list (list Z)) (target_list : list string) :
  length target_list ≤ length mask →
  Forall (λ row, length row = length mol_list) mask →
  (∀ k, k ∈ target_list → is_Some (target_dict !! k)) →
  ∃ st, fold_result (target_step mol_list target_dict mask) (∅, ∅)
          (enumerate target_list) = Ok st
        ∧ target_loop_post mol_list target_dict mask target_list st.
Proof.
  intros Hlen Hrows.
  induction target_list as [|k l IH] using rev_ind; intros Hkeys.
  { exists (∅, ∅). split; [done|]. intros key. split; [done|].
    by intros ?%elem_of_nil. }
  rewrite length_app in Hlen. cbn in Hlen.
  destruct IH as (st & Hst & Hpost); [lia| |].
  { intros k' Hk'. apply Hkeys, elem_of_app. by left. }
  destruct (lookup_lt_is_Some_2 mask (length l)) as [row Hrow]; [lia|].
  destruct (Hkeys k) as [sv Hsv]; [apply elem_of_app; right; by left|].
  rewrite enumerate_snoc, fold_result_snoc, Hst. cbn.
  rewrite (target_step_ok _ _ _ _ _ _ row sv); [|done| |done].
  2: { rewrite Forall_forall in Hrows.
       rewrite (Hrows row) by (by eapply list_elem_of_lookup_2). done. }
  eexists. split; [done|]. intros key. cbn.
  destruct (decide (key = k)) as [->|Hne].
  - rewrite !lookup_insert_eq. split.
    + intros Hnot. exfalso. apply Hnot, elem_of_app. right. by left.
    + intros _. exists (length l), row, sv. split_and!; try done.
      * by rewrite lookup_app_r, Nat.sub_diag.
      * intros i' Hi'. rewrite lookup_ge_None_2; [done|].
        rewrite length_app. cbn. lia.
  - rewrite !lookup_insert_ne by done. destruct (Hpost key) as [Hout Hin].
    split.
    + intros Hnot. apply Hout. intros Hkey. apply Hnot, elem_of_app. by left.
    + intros Hkey. apply elem_of_app in Hkey as [Hkey|Hkey].
      2: { apply list_elem_of_singleton in Hkey. done. }
      destruct (Hin Hkey) as (i & row' & sv' & Hi & Hlast & Hr & Hs & Ht & Htr).
      exists i, row', sv'. split_and!; try done.
      * by apply lookup_app_l_Some.
      * intros i' Hi' Hl'.
        apply lookup_app_Some in Hl' as [Hl'|[_ Hl']]; [by eapply Hlast|].
        apply list_lookup_singleton_Some in Hl' as [_ ->]. done.
Qed.
End split_facts.

Lemma elem_of_mols_at (mol_list : list string) (v : Z) (row : list Z)
    (x : string) :
  x ∈ mols_at mol_list v row
  ↔ ∃ j, row !! j = Some v ∧ mol_list !! j = Some x.
Proof.
  unfold mols_at. rewrite elem_of_list_to_set, list_elem_of_omap.
  split; intros (j & Hj & Hx); exists j; split; try done;
    by apply elem_of_where_eq.
Qed.

Lemma train_test_dicts_spec {T : Type} (mol_list_dict : gmap string T)
    (mol_list : list string) (target_dict : gmap string SetValue)
    (target_list : list string) (mask : list (list Z)) :
  well_formed_split mol_list_dict mol_list target_dict target_list mask →
  ∃ train_fp train_t test_fp test_t,
    train_test_dicts_from_mask mol_list_dict mol_list target_dict
      target_list mask = Ok (train_fp, train_t, test_fp, test_t)
    ∧ (∀ x v, test_fp !! x = Some v ↔
              ∃ i, i ∈ any_axis0 1 mask ∧ mol_list !! i = Some x
                   ∧ mol_list_dict !! x = Some v)
    ∧ (∀ x v, train_fp !! x = Some v ↔
              ∃ i, i ∈ any_axis0 (-1) mask ∧ mol_list !! i = Some x
                   ∧ mol_list_dict !! x = Some v)
    ∧ target_loop_post mol_list target_dict mask target_list
        (test_t, train_t).
Proof.
  intros (Hlen & Hrows & Hmols & Hkeys). unfold train_test_dicts_from_mask.
  destruct (select_mols_spec mol_list_dict mol_list (any_axis0 1 mask) Hmols)
    as (test_fp & -> & Htest).
  destruct (select_mols_spec mol_list_dict mol_list (any_axis0 (-1) mask) Hmols)
    as (train_fp & -> & Htrain).
  destruct (target_loop_spec mol_list target_dict mask target_list)
    as ([test_t train_t] & Hloop & Hpost); [lia|done|done|].
  cbn. rewrite Hloop. cbn.
  exists train_fp, train_t, test_fp, test_t. done.
Qed.

(** C3: on well-formed inputs with distinct target keys the call returns
    and, for the target listed at position [i], the test target has the
    sorted intersection of the original [cids] with the molecules at mask
    value 1 in row [i], the train target the sorted difference of the
    original [cids] and those molecules (whatever their mask value), both
    under the original name and description.  With the mask row [1,-1,0,1]
    and the [cids] mol0, mol1, mol3 the test target holds mol0 and mol3 and
    the train target mol1. *)
Theorem train_test_targets_split :
  (∀ (T : Type) (mol_list_dict : gmap string T) (mol_list : list string)
     (target_dict : gmap string SetValue) (target_list : list string)
     (mask : list (list Z)),
     well_formed_split mol_list_dict mol_list target_dict target_list mask →
     NoDup target_list →
     ∃ train_fp train_t test_fp test_t,
       train_test_dicts_from_mask mol_list_dict mol_list target_dict
         target_list mask = Ok (train_fp, train_t, test_fp, test_t)
       ∧ ∀ i key row sv,
           target_list !! i = Some key → mask !! i = Some row →
           target_dict !! key = Some sv →
           test_t !! key
           = Some (mkSetValue (name sv)
                     (sorted (list_to_set (cids sv) ∩ mols_at mol_list 1 row))
                     (description sv))
           ∧ train_t !! key
             = Some (mkSetValue (name sv)
                       (sorted (list_to_set (cids sv) ∖ mols_at mol_list 1 row))
                       (description sv)))
  ∧ (let mol_list := ["mol0"; "mol1"; "mol2"; "mol3"] in
     let sv := mkSetValue "T" ["mol0"; "mol1"; "mol3"] "a target" in
     ∃ train_fp test_fp,
       train_test_dicts_from_mask
         (list_to_map ((λ x, (x, [0])) <$> mol_list) : gmap string (list nat))
         mol_list {[ "T" := sv ]} ["T"] [[1; -1; 0; 1]%Z]
       = Ok (train_fp, {[ "T" := mkSetValue "T" ["mol1"] "a target" ]},
             test_fp, {[ "T" := mkSetValue "T" ["mol0"; "mol3"] "a target" ]})).
Proof.
  split.
  - intros T mol_list_dict mol_list target_dict target_list mask Hwf Hnd.
    destruct (train_test_dicts_spec _ _ _ _ _ Hwf)
      as (train_fp & train_t & test_fp & test_t & Hres & _ & _ & Hpost).
    exists train_fp, train_t, test_fp, test_t. split; [done|].
    intros i key row sv Hi Hrow Hsv.
    destruct (Hpost key) as [_ Hin].
    destruct Hin as (i' & row' & sv' & Hi' & _ & Hrow' & Hsv' & Ht & Htr).
    { by eapply list_elem_of_lookup_2. }
    assert (i' = i) as -> by (by eapply NoDup_lookup).
    cbn in Ht, Htr. by simplify_eq.
  - cbn zeta. eexists _, _. vm_compute. reflexivity.
Qed.

(** C10: on well-formed inputs with distinct molecules the call returns; a
    molecule whose mask column holds neither 1 nor -1 is a key of neither
    fingerprint map, while every listed target key is a key of both target
    dicts. *)
Theorem unused_molecule_absent {T : Type} (mol_list_dict : gmap string T)
    (mol_list : list string) (target_dict : gmap string SetValue)
    (target_list : list string) (mask : list (list Z)) :
  well_formed_split mol_list_dict mol_list target_dict target_list mask →
  NoDup mol_list →
  ∃ train_fp train_t test_fp test_t,
    train_test_dicts_from_mask mol_list_dict mol_list target_dict
      target_list mask = Ok (train_fp, train_t, test_fp, test_t)
    ∧ (∀ j x, mol_list !! j = Some x →
              (∀ row, row ∈ mask →
                      row !! j ≠ Some 1%Z ∧ row !! j ≠ Some (-1)%Z) →
              train_fp !! x = None ∧ test_fp !! x = None)
    ∧ (∀ key, key ∈ target_list →
              is_Some (train_t !! key) ∧ is_Some (test_t !! key)).
Proof.
  intros Hwf Hnd.
  destruct (train_test_dicts_spec _ _ _ _ _ Hwf)
    as (train_fp & train_t & test_fp & test_t & Hres & Htest & Htrain & Hpost).
  exists train_fp, train_t, test_fp, test_t. split_and!; [done| |].
  - intros j x Hj Hcol. split; apply eq_None_not_Some; intros [v Hv].
    + apply Htrain in Hv as (i & Hi & Hx & _).
      assert (i = j) as -> by (by eapply NoDup_lookup).
      apply elem_of_any_axis0 in Hi as (row & Hrow & Hval).
      by destruct (Hcol row Hrow).
    + apply Htest in Hv as (i & Hi & Hx & _).
      assert (i = j) as -> by (by eapply NoDup_lookup).
      apply elem_of_any_axis0 in Hi as (row & Hrow & Hval).
      by destruct (Hcol row Hrow).
  - intros key Hkey. destruct (Hpost key) as [_ Hin].
    destruct (Hin Hkey) as (i & row & sv & _ & _ & _ & _ & Ht & Htr).
    cbn in Ht, Htr. by rewrite Ht, Htr.
Qed.

(** ** Fingerprint array *)

Section molecules_facts.
Context {T : Type} `{!NativeTuple T}.
Implicit Types (d : list (string * list T)) (l : list string).

(** The fingerprint records of a molecule, and those of a list of molecules
    in list order: one matrix row each. *)
Definition records d (mol_name : string) : list T :=
  default [] (getitem d mol_name).
Definition all_records d l : list T := l ≫= records d.

(** The first row of the molecule at position [k]. *)
Definition row_start d l (k : nat) : nat := length (all_records d (take k l)).

Lemma all_records_snoc d l x :
  all_records d (l ++ [x]) = all_records d l ++ records d x.
Proof.
  unfold all_records. rewrite bind_app. cbn. by rewrite app_nil_r.
Qed.

Lemma bit_coords_app (r1 r2 : list nat) (t1 t2 : list T) :
  length r1 = length t1 →
  bit_coords (r1 ++ r2) (t1 ++ t2) = bit_coords r1 t1 ++ bit_coords r2 t2.
Proof.
  intros Hlen. unfold bit_coords.
  rewrite zip_with_app by done. by rewrite bind_app.
Qed.

Lemma mol_loop_spec d l (st : mol_state) :
  fold_result (mol_step d) (mk_mol_state ∅ [] [] 0) (enumerate l) = Ok st →
  max_ind st = length (all_records d l)
  ∧ length (all_row_inds st) = length (all_col_inds st)
  ∧ zip (all_row_inds st) (all_col_inds st)
    = bit_coords (seq 0 (length (all_records d l))) (all_records d l)
  ∧ (∀ k, mol_indices_dict st !! k
          = (mol_name ← l !! k;
             Some (seq (row_start d l k) (length (records d mol_name)))))
  ∧ Forall (λ x, is_Some (getitem d x)) l.
Proof.
  revert st. induction l as [|x l IH] using rev_ind; intros st Hfold.
  { cbn in Hfold. injection Hfold as <-. cbn. split_and!; try done. }
  rewrite enumerate_snoc, fold_result_snoc in Hfold.
  destruct (fold_result _ _ (enumerate l)) as [st0|] eqn:Hst0; [|done].
  destruct (IH st0 eq_refl) as (Hmax & Hlen & Hzip & Hidx & Hall).
  cbn in Hfold. unfold mol_step in Hfold.
  destruct (getitem d x) as [nts|] eqn:Hx; cbn in Hfold; [|done].
  case_decide; [done|]. injection Hfold as <-. cbn.
  assert (records d x = nts) as Hrec by (unfold records; by rewrite Hx).
  rewrite all_records_snoc, Hrec, length_app.
  split_and!.
  - by rewrite Hmax.
  - by rewrite !length_app, !length_fmap, Hlen.
  - rewrite zip_with_app by done. fold (zip (all_row_inds st0) (all_col_inds st0)).
    rewrite Hzip, seq_app, bit_coords_app by (by rewrite length_seq).
    f_equal. rewrite Hmax. apply zip_fst_snd.
  - intros k. destruct (decide (k = length l)) as [->|Hne].
    + rewrite lookup_insert_eq, list_lookup_middle by done. cbn.
      unfold row_start. by rewrite take_app_length, Hrec, Hmax.
    + rewrite lookup_insert_ne by done. rewrite Hidx.
      destruct (decide (k < length l)) as [Hlt|Hge].
      * rewrite lookup_app_l by done. unfold row_start.
        by rewrite take_app_le by lia.
      * rewrite !lookup_ge_None_2; [done| |lia].
        rewrite length_app. cbn. lia.
  - apply Forall_app. split; [done|]. apply Forall_singleton. by eexists.
Qed.
End molecules_facts.

Lemma count_NoDup {A} `{EqDecision A} (l : list A) (x : A) :
  NoDup l → length (filter (λ y, y = x) l) = if decide (x ∈ l) then 1 else 0.
Proof.
  induction 1 as [|y l Hy _ IH].
  { rewrite decide_False; [done|]. by intros ?%elem_of_nil. }
  rewrite filter_cons. destruct (decide (y = x)) as [->|Hne]; cbn [length].
  - rewrite IH. rewrite decide_False by done.
    rewrite decide_True; [done|by left].
  - rewrite IH. destruct (decide (x ∈ l)) as [Hx|Hx].
    + rewrite decide_True; [done|by right].
    + rewrite decide_False; [done|]. intros [->|?]%elem_of_cons; done.
Qed.

Lemma filter_none {A} (P : A → Prop) `{!∀ x, Decision (P x)} (l : list A) :
  (∀ x, x ∈ l → ¬ P x) → filter P l = [].
Proof.
  induction l as [|x l IH]; intros Hl; [done|]. rewrite filter_cons.
  rewrite decide_False by (apply Hl; by left).
  apply IH. intros y Hy. apply Hl. by right.
Qed.

Lemma cast_1 (dt : dtype) : cast dt 1 = 1%Z.
Proof. by destruct dt. Qed.

Lemma getitem_is_Some {V} (d : list (string * V)) (x : string) :
  is_Some (getitem d x) ↔ x ∈ (d.*1).
Proof.
  induction d as [|[k v] d IH]; cbn.
  - split; [by intros [? ?]|by intros ?%elem_of_nil].
  - destruct (decide (k = x)) as [->|Hne].
    + split; [intros _; by left|by eexists].
    + rewrite IH. split; [by right|]. by intros [?|?]%elem_of_cons.
Qed.

Section molecules_more.
Context {T : Type} `{!NativeTuple T}.
Implicit Types (d : list (string * list T)) (l : list string).

(** The width the matrix is given: that of the first record of the first
    entry of the dict. *)
Definition bit_width d : option nat :=
  first ← head (d.*2); nt ← head first; Some (native_tuple_bits nt).

Lemma bit_coords_cons (a : nat) (rs : list nat) (nt : T) (recs : list T) :
  bit_coords (a :: rs) (nt :: recs)
  = ((λ j, (a, j)) <$> native_tuple_to_indices nt) ++ bit_coords rs recs.
Proof. done. Qed.

Lemma elem_of_bit_coords (a : nat) (recs : list T) (i j : nat) :
  (i, j) ∈ bit_coords (seq a (length recs)) recs
  ↔ ∃ nt, a ≤ i ∧ recs !! (i - a) = Some nt
          ∧ j ∈ native_tuple_to_indices nt.
Proof.
  revert a. induction recs as [|nt recs IH]; intros a.
  { cbn. split; [by intros ?%elem_of_nil|]. by intros (? & _ & ? & _). }
  cbn [length seq]. rewrite bit_coords_cons, elem_of_app, IH, list_elem_of_fmap.
  split.
  - intros [(j' & [= -> ->] & Hj)|(nt' & Ha & Hnt & Hj)].
    + exists nt. split_and!; [lia| |done]. by rewrite Nat.sub_diag.
    + exists nt'. split_and!; [lia| |done].
      replace (i - a) with (S (i - S a)) by lia. done.
  - intros (nt' & Ha & Hnt & Hj).
    destruct (decide (i = a)) as [->|Hne].
    + left. rewrite Nat.sub_diag in Hnt. cbn in Hnt. injection Hnt as ->.
      by exists j.
    + right. exists nt'. split_and!; [lia| |done].
      replace (i - a) with (S (i - S a)) in Hnt by lia. done.
Qed.

Lemma coord_count_bit_coords (a : nat) (recs : list T) (i j : nat) (nt : T) :
  a ≤ i → recs !! (i - a) = Some nt →
  coord_count (bit_coords (seq a (length recs)) recs) i j
  = length (filter (λ x, x = j) (native_tuple_to_indices nt)).
Proof.
  revert a. induction recs as [|nt' recs IH]; intros a Ha Hnt.
  { by rewrite lookup_nil in Hnt. }
  cbn [length seq]. rewrite bit_coords_cons. unfold coord_count.
  rewrite filter_app, length_app.
  destruct (decide (i = a)) as [->|Hne].
  - rewrite Nat.sub_diag in Hnt. cbn in Hnt. injection Hnt as ->.
    rewrite (filter_none _ (bit_coords _ recs)).
    2: { intros c Hc ->. apply elem_of_bit_coords in Hc as (? & ? & _). lia. }
    cbn. rewrite Nat.add_0_r. clear.
    induction (native_tuple_to_indices nt) as [|x xs IHx]; [done|].
    rewrite fmap_cons, !filter_cons.
    destruct (decide (x = j)) as [->|Hx].
    + rewrite decide_True by done. cbn. by rewrite IHx.
    + rewrite decide_False by congruence. done.
  - rewrite (filter_none _ (_ <$> _)).
    2: { intros c Hc ->. apply list_elem_of_fmap in Hc as (? & [= ? ?] & _). lia. }
    cbn. apply (IH (S a)); [lia|].
    replace (i - a) with (S (i - S a)) in Hnt by lia. done.
Qed.

Lemma length_all_records d l :
  length (all_records d l) = sum_list ((λ m, length (records d m)) <$> l).
Proof.
  unfold all_records. induction l as [|x l IH]; [done|].
  cbn. by rewrite length_app, IH.
Qed.

(** What a successful call went through. *)
Lemma molecules_to_array_inv d l (dt : dtype) (dense : bool)
    (arr : array) (idx : gmap nat (list nat)) :
  molecules_to_array d l dt dense = Ok (arr, idx) →
  list_to_set (d.*1) =@{gset string} list_to_set l
  ∧ ∃ w st,
      bit_width d = Some w
      ∧ fold_result (mol_step d) (mk_mol_state ∅ [] [] 0) (enumerate l) = Ok st
      ∧ idx = mol_indices_dict st
      ∧ if dense then
          ∃ a, dense_from_coords dt (all_row_inds st) (all_col_inds st)
                 (max_ind st, w) = Ok a ∧ arr = Dense a
        else
          ∃ m, csr_from_coords dt (all_row_inds st) (all_col_inds st)
                 (max_ind st, w) = Ok m ∧ arr = Sparse m.
Proof.
  unfold molecules_to_array, bit_width. case_decide as Hset; [|done].
  intros Hres. split; [done|].
  destruct (head (d.*2)) as [first|]; cbn in *; [|done].
  destruct (head first) as [nt|]; cbn in *; [|done].
  destruct (fold_result _ _ _) as [st|]; cbn in *; [|done].
  exists (native_tuple_bits nt), st. split_and!; try done.
  - destruct dense.
    + destruct (dense_from_coords _ _ _ _); cbn in *; by simplify_eq.
    + destruct (csr_from_coords _ _ _ _); cbn in *; by simplify_eq.
  - destruct dense.
    + destruct (dense_from_coords _ _ _ _) as [a|]; cbn in *; [|done].
      exists a. by simplify_eq.
    + destruct (csr_from_coords _ _ _ _) as [m|]; cbn in *; [|done].
      exists m. by simplify_eq.
Qed.
End molecules_more.

Section molecules_claims.
Context {T : Type} `{!NativeTuple T}.
Implicit Types (d : list (string * list T)) (l : list string).

(** Inputs on which nothing but the assertion can stop the call: the first
    entry of the dict has a record, every listed molecule has a record
    with a set bit, and no set bit lies beyond the width. *)
Definition encodable d l : Prop :=
  (∃ w, bit_width d = Some w
        ∧ ∀ nt j, nt ∈ all_records d l →
                  j ∈ native_tuple_to_indices nt → j < w)
  ∧ (∀ x, x ∈ l → ∃ nt, nt ∈ records d x ∧ native_tuple_to_indices nt ≠ []).

Lemma mol_step_ok d (st : mol_state) (k : nat) (x : string) :
  (∃ nt, nt ∈ records d x ∧ native_tuple_to_indices nt ≠ []) →
  ∃ st', mol_step d st (k, x) = Ok st'.
Proof.
  intros (nt & Hnt & Hbits). unfold mol_step, records in *.
  destruct (getitem d x) as [nts|]; cbn in *; [|by apply elem_of_nil in Hnt].
  case_decide as Hnil; [|by eexists]. exfalso.
  apply list_elem_of_lookup in Hnt as [p Hp].
  destruct (native_tuple_to_indices nt) as [|j js] eqn:Hj; [done|].
  assert ((max_ind st + p, j) ∈ bit_coords (seq (max_ind st) (length nts)) nts)
    as Hin.
  { apply elem_of_bit_coords. exists nt. split_and!; [lia| |].
    - by replace (max_ind st + p - max_ind st) with p by lia.
    - rewrite Hj. by left. }
  rewrite Hnil in Hin. by apply elem_of_nil in Hin.
Qed.

Lemma molecules_to_array_returns d l (dt : dtype) (dense : bool) :
  list_to_set (d.*1) =@{gset string} list_to_set l → encodable d l →
  ∃ arr idx, molecules_to_array d l dt dense = Ok (arr, idx).
Proof.
  intros Hset ((w & Hw & Hbound) & Hbits). unfold molecules_to_array.
  rewrite decide_True by done. unfold bit_width in Hw.
  destruct (head (d.*2)) as [first|]; cbn in *; [|done].
  destruct (head first) as [nt0|]; cbn in *; [|done]. injection Hw as <-.
  destruct (fold_result_ok (mol_step d) (enumerate l) (mk_mol_state ∅ [] [] 0))
    as [st Hst].
  { intros st [k x] Hin. apply mol_step_ok, Hbits.
    apply elem_of_enumerate in Hin. by eapply list_elem_of_lookup_2. }
  rewrite Hst. cbn.
  destruct (mol_loop_spec d l st Hst) as (Hmax & Hlen & Hzip & _ & _).
  assert (Forall (λ c, c.1 < max_ind st ∧ c.2 < native_tuple_bits nt0)
            (zip (all_row_inds st) (all_col_inds st))) as Hin.
  { rewrite Hzip, Hmax. apply Forall_forall. intros [i j] Hc.
    apply elem_of_bit_coords in Hc as (nt & _ & Hnt & Hj). cbn.
    rewrite Nat.sub_0_r in Hnt. split.
    - by eapply lookup_lt_Some.
    - eapply Hbound; [|done]. by eapply list_elem_of_lookup_2. }
  destruct dense.
  - unfold dense_from_coords. rewrite decide_True by done.
    rewrite decide_True by done. cbn. by eexists _, _.
  - unfold csr_from_coords. rewrite decide_True by done.
    rewrite decide_True by done. cbn. by eexists _, _.
Qed.

Lemma molecules_to_array_entries d l (dt : dtype) (dense : bool)
    (arr : array) (idx : gmap nat (list nat)) :
  molecules_to_array d l dt dense = Ok (arr, idx) →
  ∃ w, bit_width d = Some w
       ∧ array_shape arr = (length (all_records d l), w)
       ∧ ∀ i nt j, all_records d l !! i = Some nt →
                   NoDup (native_tuple_to_indices nt) →
                   array_get arr i j
                   = if decide (j ∈ native_tuple_to_indices nt)
                     then 1%Z else 0%Z.
Proof.
  intros (_ & w & st & Hw & Hst & _ & Harr)%molecules_to_array_inv.
  destruct (mol_loop_spec d l st Hst) as (Hmax & Hlen & Hzip & _ & _).
  exists w. split; [done|].
  assert (∀ i nt j, all_records d l !! i = Some nt →
                    NoDup (native_tuple_to_indices nt) →
                    coord_count (zip (all_row_inds st) (all_col_inds st)) i j
                    = if decide (j ∈ native_tuple_to_indices nt) then 1 else 0)
    as Hcount.
  { intros i nt j Hnt Hnd. rewrite Hzip.
    rewrite (coord_count_bit_coords 0 _ i j nt); [|lia|by rewrite Nat.sub_0_r].
    by apply count_NoDup. }
  destruct dense.
  - destruct Harr as (a & Ha & ->).
    apply dense_from_coords_spec in Ha as (Hshape & _ & Hget). cbn.
    split; [by rewrite Hshape, Hmax|].
    intros i nt j Hnt Hnd. rewrite Hget.
    2: { cbn. rewrite Hmax. by eapply lookup_lt_Some. }
    rewrite (Hcount i nt j Hnt Hnd), cast_1. by repeat case_decide.
  - destruct Harr as (m & Hm & ->).
    apply csr_from_coords_spec in Hm as (Hshape & _ & Hget). cbn.
    split; [by rewrite Hshape, Hmax|].
    intros i nt j Hnt Hnd. rewrite Hget.
    2: { cbn. rewrite Hmax. by eapply lookup_lt_Some. }
    cbn zeta. rewrite (Hcount i nt j Hnt Hnd).
    destruct (decide (j ∈ native_tuple_to_indices nt)).
    + rewrite decide_False by done. change (Z.of_nat 1) with 1%Z. apply cast_1.
    + by rewrite decide_True.
Qed.
End molecules_claims.

Section molecules_theorems.
Context {T : Type} `{!NativeTuple T}.
Implicit Types (d : list (string * list T)) (l : list string).

Lemma row_start_S d l (k : nat) (x : string) :
  l !! k = Some x →
  row_start d l (S k) = row_start d l k + length (records d x).
Proof.
  intros Hx. unfold row_start.
  by rewrite (take_S_r _ _ _ Hx), all_records_snoc, length_app.
Qed.

Lemma row_start_all d l : row_start d l (length l) = length (all_records d l).
Proof. unfold row_start. by rewrite firstn_all. Qed.

Lemma ranges_concat d l (idx : gmap nat (list nat)) (m : nat) :
  (∀ k x, l !! k = Some x →
          idx !! k = Some (seq (row_start d l k) (length (records d x)))) →
  m ≤ length l →
  concat ((λ k, default [] (idx !! k)) <$> seq 0 m) = seq 0 (row_start d l m).
Proof.
  intros Hidx. induction m as [|m IH]; intros Hm; [done|].
  destruct (lookup_lt_is_Some_2 l m) as [x Hx]; [lia|].
  rewrite seq_S, fmap_app, concat_app, IH by lia. cbn.
  rewrite (Hidx m x Hx), app_nil_r. cbn.
  by rewrite (row_start_S d l m x Hx), seq_app.
Qed.

(** C6: the call fails on the assertion whenever the molecule identifiers
    of the dict and those of [mol_list] differ as sets.  When they agree,
    the call returns on every encodable input, and whatever it returns has
    one row per fingerprint record (the sum over the listed molecules of
    their numbers of records) and as many columns as the first record of
    the first dict entry has bits; in the row of a record (with its set
    bits listed once each) exactly the set bits hold 1. *)
Theorem molecules_to_array_shape d l (dt : dtype) (dense : bool) :
  (list_to_set (d.*1) ≠@{gset string} list_to_set l →
   molecules_to_array d l dt dense = Raise AssertionError)
  ∧ (list_to_set (d.*1) =@{gset string} list_to_set l →
     (encodable d l →
      ∃ arr idx, molecules_to_array d l dt dense = Ok (arr, idx))
     ∧ ∀ arr idx,
         molecules_to_array d l dt dense = Ok (arr, idx) →
         ∃ w, bit_width d = Some w
              ∧ array_shape arr
                = (sum_list ((λ m, length (records d m)) <$> l), w)
              ∧ ∀ i nt j, all_records d l !! i = Some nt →
                          NoDup (native_tuple_to_indices nt) →
                          array_get arr i j
                          = if decide (j ∈ native_tuple_to_indices nt)
                            then 1%Z else 0%Z).
Proof.
  split.
  - intros Hne. unfold molecules_to_array. by rewrite decide_False.
  - intros Hset. split; [by apply molecules_to_array_returns|].
    intros arr idx Hres.
    destruct (molecules_to_array_entries d l dt dense arr idx Hres)
      as (w & Hw & Hshape & Hget).
    exists w. by rewrite <- length_all_records.
Qed.

(** C9: whatever the call returns, the row index map gives the molecule at
    position [k] the consecutive rows that start where the range of
    position [k - 1] ends (at 0 for position 0) and nothing to positions
    beyond the list; the ranges taken in list order make up [0, num_rows)
    and their sizes add up to the number of rows. *)
Theorem row_index_map_partition d l (dt : dtype) (dense : bool) :
  (list_to_set (d.*1) =@{gset string} list_to_set l → encodable d l →
   ∃ arr idx, molecules_to_array d l dt dense = Ok (arr, idx))
  ∧ ∀ arr idx,
      molecules_to_array d l dt dense = Ok (arr, idx) →
      (∀ k x, l !! k = Some x →
              idx !! k = Some (seq (row_start d l k) (length (records d x))))
      ∧ (∀ k, length l ≤ k → idx !! k = None)
      ∧ row_start d l 0 = 0
      ∧ (∀ k x, l !! k = Some x →
                row_start d l (S k) = row_start d l k + length (records d x))
      ∧ concat ((λ k, default [] (idx !! k)) <$> seq 0 (length l))
        = seq 0 (array_shape arr).1
      ∧ sum_list ((λ k, length (default [] (idx !! k))) <$> seq 0 (length l))
        = (array_shape arr).1.
Proof.
  split; [apply molecules_to_array_returns|].
  intros arr idx Hres.
  destruct (molecules_to_array_entries d l dt dense arr idx Hres)
    as (w & _ & Hshape & _).
  apply molecules_to_array_inv in Hres as (_ & w' & st & _ & Hst & -> & _).
  destruct (mol_loop_spec d l st Hst) as (_ & _ & _ & Hidx & _).
  assert (∀ k x, l !! k = Some x →
            mol_indices_dict st !! k
            = Some (seq (row_start d l k) (length (records d x)))) as Hrange.
  { intros k x Hx. by rewrite Hidx, Hx. }
  assert (concat ((λ k, default [] (mol_indices_dict st !! k))
                    <$> seq 0 (length l)) = seq 0 (array_shape arr).1) as Hcat.
  { rewrite (ranges_concat d l _ (length l) Hrange) by done.
    by rewrite row_start_all, Hshape. }
  split_and!; try done.
  - intros k Hk. rewrite Hidx, lookup_ge_None_2 by done. done.
  - apply row_start_S.
  - apply (f_equal length) in Hcat. rewrite length_seq in Hcat.
    rewrite <- Hcat, length_concat, <- list_fmap_compose. done.
Qed.
End molecules_theorems.

(** ** Sparse array codec *)

(** The matrix [load_fprints_arr] rebuilds from the fields saved for [m]:
    every stored value becomes one. *)
Definition rebuilt (m : csr_matrix) : csr_matrix :=
  mk_csr (csr_dtype m) (replicate (length (data m)) (cast (csr_dtype m) 1))
    (indices m) (indptr m) (shape m).

Lemma load_save_sparse {M : Type} (fs : filesystem M) (fn : string)
    (m : csr_matrix) (mol_indices : M) :
  load_fprints_arr (save_fprints_arr fs fn (Sparse m) mol_indices)
    (npz_name fn) false
  = Ok (Sparse (rebuilt m), mol_indices).
Proof.
  unfold load_fprints_arr, save_fprints_arr. by rewrite lookup_insert_eq.
Qed.





(** A dense input is converted first, and the conversion stores no zero. *)
Lemma csr_of_dense_stored_nonzero (a : ndarray) :
  Forall (λ v, v ≠ 0%Z) (data (csr_of_dense a)).
Proof.
  unfold csr_of_dense, csr_of_rows. cbn.
  apply Forall_fmap, Forall_concat, Forall_fmap, Forall_forall.
  intros r _. apply Forall_forall. intros e He.
  by apply list_elem_of_filter in He as [He _].
Qed.

(** ** logAUC *)

Section logauc_segments.
Context {F : Type} `{!Arith F} `{!ArithTests F}.

(** An array in non-decreasing order. *)
Definition non_decreasing (a : list F) : Prop :=
  ∀ i j x y, i ≤ j → a !! i = Some x → a !! j = Some y → flt y x = false.

(** The y-intercept of the straight line through two points of the curve,
    [y1 - x1 * (y1 - y0) / (x1 - x0)]. *)
Definition linear_intercept (p0 p1 : F * F) : F :=
  fsub p1.2 (fmul p1.1 (fdiv (fsub p1.2 p0.2) (fsub p1.1 p0.1))).

(** The y-intercept of the line through the two points in the plane whose
    x-axis is logarithmic,
    [y1 - log10 x1 * (y1 - y0) / (log10 x1 - log10 x0)]. *)
Definition log_intercept (p0 p1 : F * F) : F :=
  fsub p1.2 (fmul (flog10 p1.1)
               (fdiv (fsub p1.2 p0.2) (fsub (flog10 p1.1) (flog10 p0.1)))).

(** [(dy / ln 10 + intercept * log10 (x1 / x0)) / norm], the intercept
    replaced by zero when infinite. *)
Definition segment_area (intercept : F * F → F * F → F) (norm : F)
    (p0 p1 : F * F) : F :=
  let b := intercept p0 p1 in
  let b := if fisinf b then fconst 0 else b in
  fdiv (fadd (fdiv (fsub p1.2 p0.2) (flog (fconst 10)))
             (fmul b (flog10 (fdiv p1.1 p0.1))))
       norm.

(** The areas of the segments between consecutive points. *)
Fixpoint segment_areas (intercept : F * F → F * F → F) (norm : F)
    (pts : list (F * F)) : list F :=
  match pts with
  | p0 :: (p1 :: _) as rest =>
      segment_area intercept norm p0 p1 :: segment_areas intercept norm rest
  | _ => []
  end.

(** The points from index [searchsorted fp min_fp] on, behind the point
    [(min_fp, tp[index - 1])] when the index is positive. *)
Definition truncated_points (fp tp : list F) (min_fp : F) : list (F * F) :=
  let index := searchsorted fp min_fp in
  let pts := drop index (zip fp tp) in
  match index with
  | 0 => pts
  | S i => match tp !! i with
           | Some y => (min_fp, y) :: pts
           | None => pts
           end
  end.

(** The sum of the segment areas of the truncated curve. *)
Definition logauc_by_segments (intercept : F * F → F * F → F)
    (fp tp : list F) (min_fp : F) : F :=
  fsum (segment_areas intercept (flog10 (fdiv (fconst 1) min_fp))
          (truncated_points fp tp min_fp)).

Lemma searchsorted_le (a : list F) (v : F) : searchsorted a v ≤ length a.
Proof. induction a as [|x a IH]; cbn; [lia|]. destruct (np_lt x v); lia. Qed.

Lemma truncate_curve_points (fp tp : list F) (min_fp : F) :
  length fp = length tp →
  ∃ x y, truncate_curve fp tp min_fp = Ok (x, y)
         ∧ length x = length y
         ∧ zip x y = truncated_points fp tp min_fp.
Proof.
  intros Hlen. unfold truncate_curve, truncated_points.
  pose proof (searchsorted_le fp min_fp) as Hle.
  destruct (searchsorted fp min_fp) as [|i] eqn:Hidx.
  - rewrite decide_False by lia. eexists _, _. split; [done|].
    rewrite !drop_0. done.
  - rewrite decide_True by lia.
    replace (S i - 1) with i by lia.
    destruct (lookup_lt_is_Some_2 tp i) as [y0 Hy0]; [lia|].
    rewrite Hy0. cbn. eexists _, _. split; [done|]. split.
    + cbn. rewrite !length_drop. lia.
    + cbn. by rewrite zip_with_drop.
Qed.

(** The array [areas] of [get_logauc] for a truncated curve [(x, y)]. *)
Definition areas_of (norm : F) (x y : list F) : list F :=
  let dy := zip_with fsub (slice_from_1 y) (slice_to_last y) in
  let intercept :=
    zip_with fsub (slice_from_1 y)
      (zip_with fmul (slice_from_1 x)
         (zip_with fdiv dy
            (zip_with fsub (slice_from_1 x) (slice_to_last x)))) in
  let intercept :=
    (λ b, if fisinf b then fconst 0 else b) <$> intercept in
  (λ a, fdiv a norm)
    <$> zip_with fadd ((λ d, fdiv d (flog (fconst 10))) <$> dy)
          (zip_with fmul intercept
             (flog10 <$> zip_with fdiv (slice_from_1 x)
                                       (slice_to_last x))).

Lemma areas_of_cons (norm x0 x1 y0 y1 : F) (x y : list F) :
  areas_of norm (x0 :: x1 :: x) (y0 :: y1 :: y)
  = segment_area linear_intercept norm (x0, y0) (x1, y1)
    :: areas_of norm (x1 :: x) (y1 :: y).
Proof.
  unfold areas_of, slice_from_1, slice_to_last. cbn.
  rewrite !Nat.sub_0_r. done.
Qed.

Lemma areas_by_segments (norm : F) (x y : list F) :
  length x = length y →
  areas_of norm x y = segment_areas linear_intercept norm (zip x y).
Proof.
  revert y. induction x as [|x0 x IH]; intros [|y0 y] Hlen; try done.
  destruct x as [|x1 x], y as [|y1 y]; try done.
  rewrite areas_of_cons, (IH (y1 :: y)) by (cbn in *; lia). done.
Qed.

(** Arrays of one length are combined element by element. *)
Lemma np_op_same_length {A B C : Type} (f : A → B → C) (a : list A)
    (b : list B) :
  length a = length b → np_op f a b = Ok (zip_with f a b).
Proof. intros Hlen. unfold np_op. by rewrite decide_True. Qed.

Lemma length_slices (a b : list F) :
  length a = length b →
  length (slice_from_1 a) = length (slice_to_last b).
Proof.
  intros Hlen. unfold slice_from_1, slice_to_last.
  rewrite length_drop, length_take. lia.
Qed.

(** On a truncated curve whose two arrays have one length no operation of
    [get_logauc] raises but the division by the cutoff. *)
Lemma get_logauc_areas (fp tp x y : list F) (min_fp : F) (adjusted : bool) :
  truncate_curve fp tp min_fp = Ok (x, y) →
  length x = length y →
  get_logauc fp tp min_fp adjusted
  = inverse ← float_inverse min_fp;
    Ok (let logauc := fsum (areas_of (flog10 inverse) x y) in
        if adjusted then fsub logauc (fconst (144620062 # 1000000000))
        else logauc).
Proof.
  intros Htrunc Hxy. unfold get_logauc. rewrite Htrunc. cbn.
  pose proof (length_slices x y Hxy) as Hx1y0.
  pose proof (length_slices y x (eq_sym Hxy)) as Hy1x0.
  pose proof (length_slices x x eq_refl) as Hx1x0.
  pose proof (length_slices y y eq_refl) as Hy1y0.
  destruct (float_inverse min_fp) as [inverse|e];
    repeat (rewrite np_op_same_length
              by (repeat first [rewrite length_fmap|rewrite length_zip_with];
                  lia);
            cbn);
    done.
Qed.

Lemma get_logauc_by_segments (fp tp : list F) (min_fp : F) (adjusted : bool) :
  length fp = length tp →
  fiszero min_fp = false →
  get_logauc fp tp min_fp adjusted
  = Ok (let logauc := logauc_by_segments linear_intercept fp tp min_fp in
        if adjusted then fsub logauc (fconst (144620062 # 1000000000))
        else logauc).
Proof.
  intros Hlen Hnz. unfold logauc_by_segments.
  destruct (truncate_curve_points fp tp min_fp Hlen)
    as (x & y & Htrunc & Hxy & <-).
  rewrite (get_logauc_areas fp tp x y) by done.
  unfold float_inverse. rewrite Hnz. cbn.
  by rewrite areas_by_segments.
Qed.

(** At a cutoff of zero [1. / float(min_fp)] raises. *)
Lemma get_logauc_zero_cutoff (fp tp : list F) (min_fp : F)
    (adjusted : bool) :
  length fp = length tp →
  fiszero min_fp = true →
  get_logauc fp tp min_fp adjusted = Raise ZeroDivisionError.
Proof.
  intros Hlen Hz.
  destruct (truncate_curve_points fp tp min_fp Hlen)
    as (x & y & Htrunc & Hxy & _).
  rewrite (get_logauc_areas fp tp x y) by done.
  unfold float_inverse. by rewrite Hz.
Qed.
End logauc_segments.

(** ** Bounds on [ln 10] *)

Section ln_10.
Local Open Scope R_scope.

(** [x ^ (2 ^ n)] by repeated squaring. *)
Fixpoint sq_iter (n : nat) (x : R) : R :=
match n with
| O => x
| S n' => sq_iter n' x * sq_iter n' x
end.

Lemma sq_iter_pos (n : nat) (x : R) : 0 < x -> 0 < sq_iter n x.
Proof. intros Hx. induction n as [|n IH]; simpl; [assumption|nra]. Qed.

Lemma ln_sq_iter (n : nat) (x : R) : 0 < x -> ln (sq_iter n x) = 2 ^ n * ln x.
Proof.
intros Hx. induction n as [|n IH]; simpl; [lra|].
pose proof (sq_iter_pos n x Hx) as Hpos.
rewrite ln_mult by assumption. rewrite IH. lra.
Qed.

Lemma sq_iter_le (n : nat) (x y : R) :
0 <= x -> x <= y -> sq_iter n x <= sq_iter n y /\ 0 <= sq_iter n x.
Proof.
intros Hx Hxy. induction n as [|n [IH1 IH2]]; simpl; [lra|]. split; nra.
Qed.

(** Fixed-point squaring with 64 fractional bits, rounded down and up. *)
Definition scale : Z := (2 ^ 64)%Z.
Definition sq_down (m : Z) : Z := (m * m / scale)%Z.
Definition sq_up (m : Z) : Z := (m * m / scale + 1)%Z.

Lemma scale_pos : 0 < IZR scale.
Proof. apply IZR_lt. reflexivity. Qed.

Lemma sq_down_bound (m : Z) :
(0 <= m)%Z ->
(0 <= sq_down m)%Z /\
IZR (sq_down m) / IZR scale <= (IZR m / IZR scale) * (IZR m / IZR scale).
Proof.
intros Hm. unfold sq_down.
assert (0 < scale)%Z as Hs by reflexivity.
pose proof (Z.mul_div_le (m * m) scale Hs) as Hle.
split; [apply Z.div_pos; nia|].
apply IZR_le in Hle. rewrite !mult_IZR in Hle.
pose proof scale_pos as Hsp.
apply (Rmult_le_reg_r (IZR scale * IZR scale)); [nra|].
field_simplify; [|lra|lra]. nra.
Qed.

Lemma sq_up_bound (m : Z) :
(0 <= m)%Z ->
(0 <= sq_up m)%Z /\
(IZR m / IZR scale) * (IZR m / IZR scale) <= IZR (sq_up m) / IZR scale.
Proof.
intros Hm. unfold sq_up.
assert (0 < scale)%Z as Hs by reflexivity.
pose proof (Z.mul_succ_div_gt (m * m) scale Hs) as Hlt.
split; [pose proof (Z.div_pos (m * m) scale); nia|].
apply Z.lt_le_incl, IZR_le in Hlt.
unfold Z.succ in Hlt. rewrite !mult_IZR in Hlt.
pose proof scale_pos as Hsp.
apply (Rmult_le_reg_r (IZR scale * IZR scale)); [nra|].
field_simplify; [|lra|lra]. nra.
Qed.

Lemma iter_sq_down (n : nat) (m : Z) :
(0 <= m)%Z ->
(0 <= Nat.iter n sq_down m)%Z /\
IZR (Nat.iter n sq_down m) / IZR scale <= sq_iter n (IZR m / IZR scale).
Proof.
intros Hm. induction n as [|n [IH1 IH2]]; simpl; [split; [assumption|lra]|].
destruct (sq_down_bound _ IH1) as [H1 H2]. split; [assumption|].
assert (0 <= IZR (Nat.iter n sq_down m) / IZR scale) as Hnn.
{ apply Rmult_le_pos; [apply IZR_le; assumption|].
  apply Rlt_le, Rinv_0_lt_compat, scale_pos. }
nra.
Qed.

Lemma iter_sq_up (n : nat) (m : Z) :
(0 <= m)%Z ->
(0 <= Nat.iter n sq_up m)%Z /\
sq_iter n (IZR m / IZR scale) <= IZR (Nat.iter n sq_up m) / IZR scale /\
0 <= sq_iter n (IZR m / IZR scale).
Proof.
intros Hm.
assert (0 <= IZR m / IZR scale) as Hnn.
{ apply Rmult_le_pos; [apply IZR_le; assumption|].
  apply Rlt_le, Rinv_0_lt_compat, scale_pos. }
induction n as [|n (IH1 & IH2 & IH3)]; simpl; [repeat split; [assumption|lra|lra]|].
destruct (sq_up_bound _ IH1) as [H1 H2]. repeat split; [assumption|nra|nra].
Qed.

Lemma ln_le_minus_1 (x : R) : 0 < x -> ln x <= x - 1.
Proof.
intros Hx. pose proof (exp_ineq1_le (ln x)) as H.
rewrite exp_ln in H by assumption. lra.
Qed.

Lemma ln_ge_1_minus_inv (x : R) : 0 < x -> 1 - / x <= ln x.
Proof.
intros Hx. pose proof (ln_le_minus_1 (/ x) (Rinv_0_lt_compat _ Hx)) as H.
rewrite ln_Rinv in H by assumption. lra.
Qed.

Lemma ln_mono (x y : R) : 0 < x -> x <= y -> ln x <= ln y.
Proof.
intros Hx [Hlt| ->]; [|lra]. left. apply ln_increasing; assumption.
Qed.

Lemma ln_10_upper : ln 10 < 230263 / 100000.
Proof.
set (m := 18447392205180849264%Z).
assert (0 <= m)%Z as Hm by (unfold m; lia).
destruct (iter_sq_down 16 m Hm) as [_ Hlo].
assert (10 <= IZR (Nat.iter 16 sq_down m) / IZR scale) as H10.
{ pose proof scale_pos.
  apply (Rmult_le_reg_r (IZR scale)); [assumption|].
  unfold Rdiv. rewrite Rmult_assoc, Rinv_l, Rmult_1_r by lra.
  rewrite <- mult_IZR. apply IZR_le. vm_compute. discriminate. }
assert (0 < IZR m / IZR scale) as Hpos.
{ apply Rmult_lt_0_compat; [apply IZR_lt; reflexivity|].
  apply Rinv_0_lt_compat, scale_pos. }
assert (ln 10 <= 2 ^ 16 * ln (IZR m / IZR scale)) as H.
{ rewrite <- ln_sq_iter by assumption. apply ln_mono; lra. }
pose proof (ln_le_minus_1 _ Hpos) as Hln.
assert (2 ^ 16 * (IZR m / IZR scale - 1) < 230263 / 100000) as Hnum.
{ unfold m, scale. change (2 ^ 64)%Z with 18446744073709551616%Z. lra. }
nra.
Qed.

Lemma ln_10_lower : 230254 / 100000 < ln 10.
Proof.
set (m := 18447392205180849256%Z).
assert (0 <= m)%Z as Hm by (unfold m; lia).
destruct (iter_sq_up 16 m Hm) as (_ & Hhi & Hnn).
assert (IZR (Nat.iter 16 sq_up m) / IZR scale <= 10) as H10.
{ pose proof scale_pos.
  apply (Rmult_le_reg_r (IZR scale)); [assumption|].
  unfold Rdiv. rewrite Rmult_assoc, Rinv_l, Rmult_1_r by lra.
  rewrite <- mult_IZR. apply IZR_le. vm_compute. discriminate. }
assert (0 < IZR m / IZR scale) as Hpos.
{ apply Rmult_lt_0_compat; [apply IZR_lt; reflexivity|].
  apply Rinv_0_lt_compat, scale_pos. }
assert (2 ^ 16 * ln (IZR m / IZR scale) <= ln 10) as H.
{ rewrite <- ln_sq_iter by assumption.
  apply ln_mono; [apply sq_iter_pos; assumption|lra]. }
pose proof (ln_ge_1_minus_inv _ Hpos) as Hln.
assert (230254 / 100000 < 2 ^ 16 * (1 - / (IZR m / IZR scale))) as Hnum.
{ unfold m, scale. change (2 ^ 64)%Z with 18446744073709551616%Z.
  rewrite Rinv_div. lra. }
nra.
Qed.
End ln_10.

(** ** Arithmetic on finite values *)

Global Arguments xneg : simpl never.
Global Arguments xadd : simpl never.
Global Arguments xsub : simpl never.
Global Arguments xmul : simpl never.
Global Arguments xdiv : simpl never.
Global Arguments xlog : simpl never.
Global Arguments xlog10 : simpl never.
Global Arguments xisinf : simpl never.
Global Arguments xlt : simpl never.

Lemma ln_10_pos : (0 < ln 10)%R.
Proof. pose proof ln_10_lower. lra. Qed.

Lemma Q2R_0 : Q2R 0 = 0%R.
Proof. unfold Q2R. cbn. lra. Qed.

Lemma Q2R_1 : Q2R 1 = 1%R.
Proof. unfold Q2R. cbn. lra. Qed.

Lemma Q2R_10 : Q2R 10 = 10%R.
Proof. unfold Q2R. cbn. lra. Qed.

Lemma Fin_eq (x y : R) : x = y → Fin x = Fin y.
Proof. by intros ->. Qed.

Lemma xadd_fin (x y : R) : xadd (Fin x) (Fin y) = Fin (x + y).
Proof. done. Qed.

Lemma xsub_fin (x y : R) : xsub (Fin x) (Fin y) = Fin (x - y).
Proof. done. Qed.

Lemma xmul_fin (x y : R) : xmul (Fin x) (Fin y) = Fin (x * y).
Proof. done. Qed.

Lemma xisinf_fin (x : R) : xisinf (Fin x) = false.
Proof. done. Qed.

Lemma xdiv_fin (x y : R) : y ≠ 0%R → xdiv (Fin x) (Fin y) = Fin (x / y).
Proof. intros Hy. unfold xdiv. by destruct (Req_dec_T y 0). Qed.

Lemma xdiv_fin_zero (x : R) : (0 < x)%R → xdiv (Fin x) (Fin 0) = PInf.
Proof.
  intros Hx. unfold xdiv, inf_of_sign.
  destruct (Req_dec_T 0 0); [|done]. by destruct (Rlt_dec 0 x).
Qed.

Lemma xmul_fin_pinf (x : R) : (0 < x)%R → xmul (Fin x) PInf = PInf.
Proof. intros Hx. unfold xmul, inf_of_sign. by destruct (Rlt_dec 0 x). Qed.

Lemma xsub_fin_pinf (x : R) : xsub (Fin x) PInf = NInf.
Proof. done. Qed.

Lemma xisinf_ninf : xisinf NInf = true.
Proof. done. Qed.

Lemma xlog_fin (x : R) : (0 < x)%R → xlog (Fin x) = Fin (ln x).
Proof. intros Hx. unfold xlog. by destruct (Rlt_dec 0 x). Qed.

Lemma xlog10_fin (x : R) : (0 < x)%R → xlog10 (Fin x) = Fin (ln x / ln 10).
Proof.
  intros Hx. unfold xlog10. rewrite xlog_fin by done.
  apply xdiv_fin. pose proof ln_10_pos. lra.
Qed.

Lemma xlt_fin_true (x y : R) : (x < y)%R → xlt (Fin x) (Fin y) = true.
Proof. intros H. unfold xlt. by destruct (Rlt_dec x y). Qed.

Lemma xlt_fin_false (x y : R) : (y <= x)%R → xlt (Fin x) (Fin y) = false.
Proof. intros H. unfold xlt. destruct (Rlt_dec x y); [lra|done]. Qed.

(** Against a cutoff that is a number the order of [np.searchsorted] is
    the comparison [<]. *)
Lemma np_lt_fin (a : xreal) (m : R) : np_lt a (Fin m) = xlt a (Fin m).
Proof. unfold np_lt. cbn. by rewrite orb_false_r. Qed.

Lemma xiszero_fin (x : R) : x ≠ 0%R → fiszero (Fin x) = false.
Proof. intros Hx. cbn. by destruct (Req_dec_T x 0). Qed.

Lemma xiszero_zero : fiszero (Fin 0) = true.
Proof. cbn. by destruct (Req_dec_T 0 0). Qed.

(** Unfolds the interface at the instance and computes on finite values. *)
Ltac xreal_unfold :=
  cbn [fst snd fsum fdiv fsub fadd fmul flog flog10 fconst fisinf flt
       xreal_arith foldr];
  rewrite ?Q2R_0, ?Q2R_1, ?Q2R_10.
Ltac xreal_fin :=
  repeat (first [rewrite xsub_fin | rewrite xadd_fin | rewrite xmul_fin
                | rewrite xisinf_fin]);
  cbv iota.

(** A curve on which the two readings of the intercept differ: with the
    intercept of the straight segment the area is [0.8 / ln 10 + 1/9], with
    the intercept taken in the plane of [log10 x] it would be
    [0.8 / ln 10 + 1]. *)
Lemma get_logauc_not_log_intercept :
  let fp := [Fin (1 / 10); Fin 1] in
  let tp := [Fin (2 / 10); Fin 1] in
  let min_fp := Fin (1 / 10) in
  get_logauc fp tp min_fp false = Ok (Fin (8 / 10 / ln 10 + 1 / 9))
  ∧ logauc_by_segments log_intercept fp tp min_fp
    = Fin (8 / 10 / ln 10 + 1)
  ∧ (8 / 10 / ln 10 + 1 / 9 ≠ 8 / 10 / ln 10 + 1)%R.
Proof.
  cbn zeta. pose proof ln_10_pos as HL.
  assert (ln (1 / (1 / 10)) / ln 10 = 1)%R as Hnorm.
  { replace (1 / (1 / 10))%R with 10%R by lra. field. lra. }
  assert (xlt (Fin (1 / 10)) (Fin (1 / 10)) = false) as Hlt
    by (apply xlt_fin_false; lra).
  split; [|split].
  - rewrite get_logauc_by_segments by (try apply xiszero_fin; done || lra).
    unfold logauc_by_segments, truncated_points. cbn [searchsorted]. rewrite ?np_lt_fin.
    rewrite Hlt. cbn [drop zip zip_with segment_areas].
    unfold segment_area, linear_intercept. xreal_unfold. xreal_fin.
    rewrite (xdiv_fin _ (1 - 1 / 10)) by lra. xreal_fin.
    rewrite xlog_fin by lra. rewrite (xdiv_fin _ (ln 10)) by lra.
    rewrite !(xdiv_fin 1 (1 / 10)) by lra. rewrite !xlog10_fin by lra.
    xreal_fin. rewrite Hnorm. rewrite xdiv_fin by lra. xreal_fin.
    f_equal. apply Fin_eq. field. lra.
  - unfold logauc_by_segments, truncated_points. cbn [searchsorted]. rewrite ?np_lt_fin.
    rewrite Hlt. cbn [drop zip zip_with segment_areas].
    unfold segment_area, log_intercept. xreal_unfold.
    rewrite !(xdiv_fin 1 (1 / 10)) by lra. rewrite !xlog10_fin by lra.
    rewrite xlog_fin by lra. xreal_fin.
    assert (ln 1 / ln 10 - ln (1 / 10) / ln 10 = 1)%R as Hd.
    { rewrite ln_1. replace (1 / 10)%R with (/ 10)%R by lra.
      rewrite ln_Rinv by lra. field. lra. }
    rewrite Hd, (xdiv_fin _ 1) by lra. xreal_fin.
    rewrite (xdiv_fin _ (ln 10)) by lra. xreal_fin. rewrite Hnorm.
    rewrite xdiv_fin by lra. xreal_fin.
    apply Fin_eq. rewrite ln_1. field. lra.
  - lra.
Qed.

(** ** The diagonal curve *)

Section diagonal.
Local Open Scope R_scope.

Lemma div_nonneg (a b : R) : 0 <= a → 0 < b → 0 <= a / b.
Proof.
  intros Ha Hb. apply Rmult_le_pos; [done|].
  by apply Rlt_le, Rinv_0_lt_compat.
Qed.

(** A segment of the diagonal. *)
Lemma diagonal_segment (N x0 x1 : R) :
  0 < x0 → x0 < x1 → N ≠ 0 →
  segment_area linear_intercept (Fin N) (Fin x0, Fin x0) (Fin x1, Fin x1)
  = Fin ((x1 - x0) / ln 10 / N).
Proof.
  intros H0 H1 HN. pose proof ln_10_pos as HL.
  unfold segment_area, linear_intercept. xreal_unfold. xreal_fin.
  rewrite (xdiv_fin _ (x1 - x0)) by lra. xreal_fin.
  rewrite xlog_fin by lra. rewrite (xdiv_fin _ (ln 10)) by lra.
  rewrite (xdiv_fin x1 x0) by lra.
  rewrite xlog10_fin by (apply Rdiv_lt_0_compat; lra).
  xreal_fin. rewrite xdiv_fin by done. apply Fin_eq. field. lra.
Qed.

Lemma sorted_le_last (q : R) (rest : list R) (z : R) :
  Sorted Rlt (q :: rest) → last (q :: rest) = Some z → q <= z.
Proof.
  revert q. induction rest as [|x rest IH]; intros q Hs Hl.
  - cbn in Hl. injection Hl as ->. lra.
  - apply Sorted_inv in Hs as [Hs Hhd]. apply HdRel_inv in Hhd.
    rewrite last_cons_cons in Hl. specialize (IH x Hs Hl). lra.
Qed.

(** The areas under a sampled diagonal add up to its extent. *)
Lemma diagonal_areas (N q : R) (rest : list R) (z : R) :
  0 < q → N ≠ 0 → Sorted Rlt (q :: rest) → last (q :: rest) = Some z →
  fsum (segment_areas linear_intercept (Fin N)
          (zip (Fin <$> q :: rest) (Fin <$> q :: rest)))
  = Fin ((z - q) / ln 10 / N).
Proof.
  intros Hq HN. pose proof ln_10_pos as HL.
  revert q Hq. induction rest as [|x rest IH]; intros q Hq Hs Hl.
  - cbn in Hl. injection Hl as ->. cbn. apply Fin_eq. field. lra.
  - apply Sorted_inv in Hs as [Hs Hhd]. apply HdRel_inv in Hhd.
    rewrite last_cons_cons in Hl.
    specialize (IH x ltac:(lra) Hs Hl).
    change (fsum (segment_areas linear_intercept (Fin N)
              (zip (Fin <$> q :: x :: rest) (Fin <$> q :: x :: rest))))
      with (xadd (segment_area linear_intercept (Fin N) (Fin q, Fin q)
                    (Fin x, Fin x))
              (fsum (segment_areas linear_intercept (Fin N)
                       (zip (Fin <$> x :: rest) (Fin <$> x :: rest))))).
    rewrite IH, diagonal_segment by (done || lra). xreal_fin.
    apply Fin_eq. field. lra.
Qed.

(** The segment from the prepended point to the first point kept. *)
Lemma first_segment (m p q : R) :
  0 <= p → p < m → m <= q → q <= 1 → m < 1 →
  let N := ln (1 / m) / ln 10 in
  ∃ a, segment_area linear_intercept (Fin N) (Fin m, Fin p) (Fin q, Fin q)
       = Fin a
       ∧ (q - m) / ln 10 - (m - p) * N <= a * N
       ∧ a * N <= (q - p) / ln 10.
Proof.
  intros Hp Hpm Hmq Hq Hm N. pose proof ln_10_pos as HL.
  assert (0 < ln (1 / m)) as HlnN.
  { rewrite <- ln_1. apply ln_increasing; [lra|].
    apply (Rmult_lt_reg_r m); [lra|]. field_simplify; lra. }
  assert (0 < N) as HN by (apply Rdiv_lt_0_compat; lra).
  unfold segment_area, linear_intercept. xreal_unfold. xreal_fin.
  rewrite xlog_fin by lra. rewrite (xdiv_fin _ (ln 10)) by lra.
  rewrite (xdiv_fin q m) by lra.
  rewrite xlog10_fin by (apply Rdiv_lt_0_compat; lra).
  destruct (Req_dec_T q m) as [->|Hne].
  - (* a vertical segment: the slope is infinite, the intercept is dropped *)
    rewrite Rminus_diag, xdiv_fin_zero by lra.
    rewrite xmul_fin_pinf, xsub_fin_pinf, xisinf_ninf by lra. xreal_fin.
    rewrite xdiv_fin by lra. eexists. split; [done|].
    replace (m / m) with 1 by (field; lra). rewrite ln_1.
    replace (((m - p) / ln 10 + 0 * (0 / ln 10)) / N * N)
      with ((m - p) / ln 10) by (field; lra).
    assert (0 <= (m - p) / ln 10) by (apply div_nonneg; lra).
    assert (0 <= (m - p) * N) by nra.
    replace (0 / ln 10) with 0 by (field; lra). lra.
  - rewrite (xdiv_fin _ (q - m)) by lra. xreal_fin.
    rewrite xdiv_fin by lra. eexists. split; [done|].
    set (u := ln (q / m)).
    assert (0 < q / m) as Ht by (apply Rdiv_lt_0_compat; lra).
    assert (1 <= q / m) as Ht1.
    { apply (Rmult_le_reg_r m); [lra|]. field_simplify; lra. }
    assert (0 <= u) as Hu0.
    { unfold u. rewrite <- ln_1. apply ln_mono; lra. }
    assert (u <= q / m - 1) as Hu1 by (apply ln_le_minus_1; lra).
    assert (u <= ln (1 / m)) as Hu2.
    { apply ln_mono; [lra|]. apply (Rmult_le_reg_r m); [lra|].
      field_simplify; lra. }
    assert (m * (1 + u) <= q) as Hmu.
    { apply (Rmult_le_compat_l m) in Hu1; [|lra].
      replace (m * (q / m - 1)) with (q - m) in Hu1 by (field; lra). lra. }
    set (b := q - q * ((q - p) / (q - m))).
    assert (b = - (q * (m - p) / (q - m))) as Hb by (unfold b; field; lra).
    replace (((q - p) / ln 10 + b * (u / ln 10)) / N * N)
      with ((q - p) / ln 10 + b * u / ln 10) by (field; lra).
    assert (0 <= q * (m - p) / (q - m) * u) as Hnn.
    { apply Rmult_le_pos; [|done]. apply div_nonneg; nra. }
    assert (q * (m - p) / (q - m) * u <= (m - p) * (1 + u)) as Hup.
    { replace (q * (m - p) / (q - m) * u)
        with ((m - p) * (q * u / (q - m))) by (field; lra).
      apply Rmult_le_compat_l; [lra|].
      apply (Rmult_le_reg_r (q - m)); [lra|].
      replace (q * u / (q - m) * (q - m)) with (q * u) by (field; lra).
      nra. }
    assert (N * ln 10 = ln (1 / m)) as HNL by (unfold N; field; lra).
    split.
    + apply (Rmult_le_reg_r (ln 10)); [lra|].
      replace (((q - m) / ln 10 - (m - p) * N) * ln 10)
        with ((q - m) - (m - p) * (N * ln 10)) by (field; lra).
      replace (((q - p) / ln 10 + b * u / ln 10) * ln 10)
        with ((q - p) + b * u) by (field; lra).
      rewrite HNL, Hb. nra.
    + apply (Rmult_le_reg_r (ln 10)); [lra|].
      replace (((q - p) / ln 10 + b * u / ln 10) * ln 10)
        with ((q - p) + b * u) by (field; lra).
      replace ((q - p) / ln 10 * ln 10) with (q - p) by (field; lra).
      rewrite Hb. nra.
Qed.
End diagonal.

Section diagonal_curve.
Local Open Scope R_scope.

Lemma truncated_diagonal (m z : R) (xs : list R) (p : R) :
  Sorted Rlt (p :: xs) → 0 <= p → p < m → last (p :: xs) = Some z →
  m <= z →
  ∃ p' q rest,
    0 <= p' ∧ p' < m ∧ m <= q ∧ Sorted Rlt (q :: rest)
    ∧ last (q :: rest) = Some z
    ∧ truncated_points (Fin <$> p :: xs) (Fin <$> p :: xs) (Fin m)
      = (Fin m, Fin p') :: zip (Fin <$> q :: rest) (Fin <$> q :: rest).
Proof.
  revert p. induction xs as [|x xs IH]; intros p Hs Hp Hpm Hl Hz.
  { cbn in Hl. injection Hl as ->. lra. }
  apply Sorted_inv in Hs as [Hs Hhd]. apply HdRel_inv in Hhd.
  rewrite last_cons_cons in Hl.
  assert (xlt (Fin p) (Fin m) = true) as Hltp by (apply xlt_fin_true; lra).
  destruct (Rlt_dec x m) as [Hx|Hx].
  - destruct (IH x Hs ltac:(lra) Hx Hl Hz)
      as (p' & q & rest & H1 & H2 & H3 & H4 & H5 & H6).
    exists p', q, rest. split_and!; try done. rewrite <- H6.
    unfold truncated_points. cbn [fmap list_fmap searchsorted]. rewrite ?np_lt_fin.
    rewrite Hltp, (xlt_fin_true x m) by lra. done.
  - exists p, x, xs. split_and!; try done; [lra|].
    unfold truncated_points. cbn [fmap list_fmap searchsorted]. rewrite ?np_lt_fin.
    rewrite Hltp, (xlt_fin_false x m) by lra. done.
Qed.

Lemma ln_1000 : ln (1 / (1 / 1000)) / ln 10 = 3.
Proof.
  pose proof ln_10_pos.
  replace (1 / (1 / 1000)) with (10 * (10 * 10)) by lra.
  rewrite !ln_mult by lra. field. lra.
Qed.

Lemma Q2R_cutoff : Q2R (1 # 1000) = 1 / 1000.
Proof. unfold Q2R. cbn. lra. Qed.

Lemma xiszero_cutoff : fiszero (fconst (1 # 1000) : xreal) = false.
Proof.
  cbn [fconst xreal_arith]. rewrite Q2R_cutoff. apply xiszero_fin. lra.
Qed.

Lemma inv_ln_10_bounds : 434285 / 1000000 < 1 / ln 10 < 434304 / 1000000.
Proof.
  pose proof ln_10_lower. pose proof ln_10_upper. pose proof ln_10_pos.
  split.
  - apply (Rmult_lt_reg_r (ln 10)); [lra|].
    replace (1 / ln 10 * ln 10) with 1 by (field; lra). lra.
  - apply (Rmult_lt_reg_r (ln 10)); [lra|].
    replace (1 / ln 10 * ln 10) with 1 by (field; lra). lra.
Qed.

Lemma logauc_diagonal (xs : list R) :
  Sorted Rlt xs → head xs = Some 0 → last xs = Some 1 →
  ∃ v, get_logauc (Fin <$> xs) (Fin <$> xs) (fconst (1 # 1000)) true
       = Ok (Fin v)
       ∧ - (101 / 100000) < v < 15 / 100000.
Proof.
  intros Hs Hhd Hl. apply head_Some in Hhd as [xs' ->].
  rewrite get_logauc_by_segments by (done || apply xiszero_cutoff).
  cbn zeta.
  unfold logauc_by_segments. cbn [fconst xreal_arith].
  rewrite Q2R_cutoff, Q2R_1.
  destruct (truncated_diagonal (1 / 1000) 1 xs' 0 Hs) as
    (p & q & rest & Hp & Hpm & Hmq & Hsq & Hlq & ->); [lra..|done|lra|].
  pose proof (sorted_le_last q rest 1 Hsq Hlq) as Hq1.
  pose proof ln_10_pos as HL.
  cbn [flog10 fdiv xreal_arith]. rewrite (xdiv_fin 1 (1 / 1000)) by lra.
  rewrite xlog10_fin by lra.
  change (segment_areas linear_intercept ?N
            ((Fin (1 / 1000), Fin p)
             :: zip (Fin <$> q :: rest) (Fin <$> q :: rest)))
    with (segment_area linear_intercept N (Fin (1 / 1000), Fin p)
            (Fin q, Fin q)
          :: segment_areas linear_intercept N
               (zip (Fin <$> q :: rest) (Fin <$> q :: rest))).
  change (fsum (?a :: ?l)) with (xadd a (fsum l)).
  destruct (first_segment (1 / 1000) p q) as (a & -> & Hlo & Hhi); [lra..|].
  rewrite (diagonal_areas _ q rest 1) by (done || lra || (rewrite ln_1000; lra)).
  cbn [fsub xreal_arith]. xreal_fin.
  eexists. split; [done|].
  rewrite ln_1000 in *.
  assert (Q2R (144620062 # 1000000000) = 144620062 / 1000000000) as ->
    by (unfold Q2R; cbn; lra).
  pose proof inv_ln_10_bounds as [Hi1 Hi2].
  replace ((q - 1 / 1000) / ln 10) with ((q - 1 / 1000) * (1 / ln 10)) in Hlo
    by (field; lra).
  replace ((q - p) / ln 10) with ((q - p) * (1 / ln 10)) in Hhi
    by (field; lra).
  replace ((1 - q) / ln 10 / 3) with ((1 - q) * (1 / ln 10) / 3)
    by (field; lra).
  set (r := 1 / ln 10) in *. split; nra.
Qed.
End diagonal_curve.

(** ** The logAUC claims *)

(** C4, amended: for a non-decreasing [fp] and a [tp] of the same length,
    the curve is cut at index [searchsorted fp min_fp], the point
    [(min_fp, tp[index - 1])] is put in front when the index is positive, and
    [get_logauc] returns the sum over consecutive points of
    [(dy / ln 10 + intercept * log10 (x1 / x0)) / norm] with
    [norm = log10 (1 / min_fp)], where the intercept is that of the straight
    line through the two points, [y1 - x1 * dy / (x1 - x0)], replaced by zero
    when infinite; at a cutoff of zero [1. / float(min_fp)] raises
    [ZeroDivisionError] instead.  This holds for every interpretation of the
    arithmetic. *)
Theorem get_logauc_segments {F : Type} `{!Arith F} `{!ArithTests F}
    (fp tp : list F) (min_fp : F) :
  non_decreasing fp → length fp = length tp →
  (∃ x y, truncate_curve fp tp min_fp = Ok (x, y)
          ∧ length x = length y
          ∧ zip x y = truncated_points fp tp min_fp)
  ∧ get_logauc fp tp min_fp false
    = if fiszero min_fp then Raise ZeroDivisionError
      else Ok (logauc_by_segments linear_intercept fp tp min_fp).
Proof.
  intros _ Hlen. split.
  - by apply truncate_curve_points.
  - destruct (fiszero min_fp) eqn:Hz.
    + by apply get_logauc_zero_cutoff.
    + by rewrite get_logauc_by_segments.
Qed.

(** The logAUC of the diagonal between [m] and 1: the area
    [(1 - m) / ln 10] under [tpr = fpr] against [log10 fpr], over
    [log10 (1 / m)]. *)
Definition random_logauc (m : R) : R :=
  ((1 - m) / ln 10 / (ln (1 / m) / ln 10))%R.

Lemma random_logauc_cutoff :
  (Rabs (Q2R (144620062 # 1000000000) - random_logauc (1 / 1000))
   < 1 / 100000)%R.
Proof.
  unfold random_logauc. rewrite ln_1000.
  pose proof inv_ln_10_bounds as [H1 H2]. pose proof ln_10_pos.
  replace ((1 - 1 / 1000) / ln 10 / 3)%R
    with ((1 - 1 / 1000) / 3 * (1 / ln 10))%R by (field; lra).
  replace (Q2R (144620062 # 1000000000))
    with (144620062 / 1000000000)%R by (unfold Q2R; cbn; lra).
  apply Rabs_def1; lra.
Qed.

Lemma random_logauc_other_cutoff :
  (7 / 100 < random_logauc (1 / 100) - Q2R (144620062 # 1000000000))%R.
Proof.
  unfold random_logauc.
  pose proof inv_ln_10_bounds as [H1 H2]. pose proof ln_10_pos.
  assert (ln (1 / (1 / 100)) / ln 10 = 2)%R as ->.
  { replace (1 / (1 / 100))%R with (10 * 10)%R by lra.
    rewrite ln_mult by lra. field. lra. }
  replace ((1 - 1 / 100) / ln 10 / 2)%R
    with ((1 - 1 / 100) / 2 * (1 / ln 10))%R by (field; lra).
  replace (Q2R (144620062 # 1000000000))
    with (144620062 / 1000000000)%R by (unfold Q2R; cbn; lra).
  lra.
Qed.

(** C5: with [adjusted=True], [get_logauc] returns the unadjusted value
    minus 0.144620062, whatever the cutoff.  In exact arithmetic the constant
    is within 1e-5 of the logAUC of the diagonal for the cutoff 0.001 (and
    more than 0.07 below that for the cutoff 0.01), and on every strictly
    increasing sampling of the diagonal from 0 to 1 the adjusted logAUC at
    the cutoff 0.001 is below 0.0011 in absolute value. *)
Theorem get_logauc_adjusted :
  (∀ (F : Type) (A : Arith F) (T : ArithTests F) (fp tp : list F)
     (min_fp : F),
     get_logauc fp tp min_fp true
     = (logauc ← get_logauc fp tp min_fp false;
        Ok (fsub logauc (fconst (144620062 # 1000000000)))))
  ∧ (Rabs (Q2R (144620062 # 1000000000) - random_logauc (1 / 1000))
     < 1 / 100000)%R
  ∧ (7 / 100 < random_logauc (1 / 100) - Q2R (144620062 # 1000000000))%R
  ∧ (∀ xs : list R,
       Sorted Rlt xs → head xs = Some 0%R → last xs = Some 1%R →
       ∃ v, get_logauc (Fin <$> xs) (Fin <$> xs) (fconst (1 # 1000)) true
            = Ok (Fin v)
            ∧ (Rabs v < 11 / 10000)%R).
Proof.
  split_and!.
  - intros F A T fp tp min_fp. unfold get_logauc.
    destruct (truncate_curve fp tp min_fp) as [[x y]|]; cbn; [|done].
    repeat match goal with
           | |- (?m ≫= _) = _ => destruct m as [?|?]; cbn; [|done]
           end.
    done.
  - apply random_logauc_cutoff.
  - apply random_logauc_other_cutoff.
  - intros xs Hs Hhd Hl.
    destruct (logauc_diagonal xs Hs Hhd Hl) as (v & Hv & Hlo & Hhi).
    exists v. split; [done|]. apply Rabs_def1; lra.
Qed.

(** ** Instances of the statements *)

(** Two molecules, three fingerprint records of eight bits. *)
Definition example_molecules : list (string * list native_tuple) :=
  [("mol0", [mk_native_tuple 8 [0; 3]; mk_native_tuple 8 [1]]);
   ("mol1", [mk_native_tuple 8 [2; 7]])].

Definition example_mol_list : list string := ["mol1"; "mol0"].

Lemma example_molecules_encodable :
  encodable example_molecules example_mol_list.
Proof.
  split.
  - exists 8. split; [done|]. intros nt j Hnt Hj.
    assert (Forall (λ nt, Forall (λ j, j < 8) (native_tuple_to_indices nt))
              (all_records example_molecules example_mol_list)) as Hall.
    { apply (bool_decide_unpack _). by vm_compute. }
    rewrite Forall_forall in Hall. specialize (Hall nt Hnt).
    rewrite Forall_forall in Hall. by apply Hall.
  - intros x Hx.
    assert (Forall (λ x, Exists (λ nt, native_tuple_to_indices nt ≠ [])
                           (records example_molecules x)) example_mol_list)
      as Hall.
    { apply (bool_decide_unpack _). by vm_compute. }
    rewrite Forall_forall in Hall. specialize (Hall x Hx).
    apply Exists_exists in Hall. done.
Qed.

Lemma molecules_to_array_shape_witness :
  ∃ arr idx,
    molecules_to_array example_molecules example_mol_list np_int8 false
    = Ok (arr, idx)
    ∧ array_shape arr = (3, 8).
Proof.
  assert (list_to_set (example_molecules.*1) =@{gset string}
          list_to_set example_mol_list) as Hset by (by vm_compute).
  destruct (molecules_to_array_shape example_molecules example_mol_list
              np_int8 false) as [_ Heq].
  destruct (Heq Hset) as [Hret Hprops].
  destruct (Hret example_molecules_encodable) as (arr & idx & Hres).
  exists arr, idx. split; [done|].
  destruct (Hprops arr idx Hres) as (w & Hw & Hshape & _).
  rewrite Hshape. vm_compute in Hw. injection Hw as <-. reflexivity.
Defined.

Lemma row_index_map_partition_witness :
  ∃ arr idx,
    molecules_to_array example_molecules example_mol_list np_int8 true
    = Ok (arr, idx)
    ∧ idx !! 0 = Some [0] ∧ idx !! 1 = Some [1; 2].
Proof.
  assert (list_to_set (example_molecules.*1) =@{gset string}
          list_to_set example_mol_list) as Hset by (by vm_compute).
  destruct (row_index_map_partition example_molecules example_mol_list
              np_int8 true) as [Hret Hprops].
  destruct (Hret Hset example_molecules_encodable) as (arr & idx & Hres).
  exists arr, idx. split; [done|].
  destruct (Hprops arr idx Hres) as (Hidx & _).
  split.
  - by rewrite (Hidx 0 "mol1").
  - by rewrite (Hidx 1 "mol0").
Defined.

Lemma targets_to_array_unknown_molecule_witness :
  ∃ c, targets_to_array
         {[ "T" := mkSetValue "T" ["mol0"; "mol9"] "a target" ]}
         ["mol0"; "mol1"] np_int8
       = Raise (KeyError c)
       ∧ c ∉ ["mol0"; "mol1"].
Proof.
  apply targets_to_array_unknown_molecule.
  exists "T", (mkSetValue "T" ["mol0"; "mol9"] "a target"), "mol9".
  split_and!.
  - by vm_compute.
  - cbn. apply elem_of_cons. right. apply elem_of_cons. by left.
  - apply (bool_decide_unpack _). by vm_compute.
Defined.


(** The inputs of the example of the fold splitter. *)
Definition example_split_mols : list string :=
  ["mol0"; "mol1"; "mol2"; "mol3"].
Definition example_split_dict : gmap string (list nat) :=
  list_to_map ((λ x, (x, [0])) <$> example_split_mols).
Definition example_target : SetValue :=
  mkSetValue "T" ["mol0"; "mol1"; "mol3"] "a target".

Lemma example_split_well_formed :
  well_formed_split example_split_dict example_split_mols
    {[ "T" := example_target ]} ["T"] [[1; -1; 0; 1]%Z].
Proof.
  split_and!.
  - done.
  - by repeat constructor.
  - intros x Hx.
    assert (Forall (λ x, is_Some (example_split_dict !! x)) example_split_mols)
      as Hall.
    { apply (bool_decide_unpack _). by vm_compute. }
    rewrite Forall_forall in Hall. by apply Hall.
  - intros k Hk. apply list_elem_of_singleton in Hk as ->.
    rewrite lookup_singleton_eq. by eexists.
Qed.

Lemma train_test_targets_split_witness :
  ∃ train_fp train_t test_fp test_t,
    train_test_dicts_from_mask example_split_dict example_split_mols
      {[ "T" := example_target ]} ["T"] [[1; -1; 0; 1]%Z]
    = Ok (train_fp, train_t, test_fp, test_t)
    ∧ cids <$> test_t !! "T" = Some ["mol0"; "mol3"]
    ∧ cids <$> train_t !! "T" = Some ["mol1"].
Proof.
  destruct (proj1 train_test_targets_split _ example_split_dict
              example_split_mols {[ "T" := example_target ]} ["T"]
              [[1; -1; 0; 1]%Z] example_split_well_formed)
    as (train_fp & train_t & test_fp & test_t & Hres & Hsplit).
  { apply NoDup_singleton. }
  exists train_fp, train_t, test_fp, test_t. split; [done|].
  destruct (Hsplit 0 "T" [1; -1; 0; 1]%Z example_target) as [-> ->];
    [done|done|by vm_compute|].
  split; by vm_compute.
Defined.

Lemma unused_molecule_absent_witness :
  ∃ train_fp train_t test_fp test_t,
    train_test_dicts_from_mask example_split_dict example_split_mols
      {[ "T" := example_target ]} ["T"] [[1; -1; 0; 1]%Z]
    = Ok (train_fp, train_t, test_fp, test_t)
    ∧ train_fp !! "mol2" = None ∧ test_fp !! "mol2" = None
    ∧ is_Some (train_t !! "T") ∧ is_Some (test_t !! "T").
Proof.
  destruct (unused_molecule_absent example_split_dict example_split_mols
              {[ "T" := example_target ]} ["T"] [[1; -1; 0; 1]%Z]
              example_split_well_formed)
    as (train_fp & train_t & test_fp & test_t & Hres & Hmol & Hkeys).
  { apply (bool_decide_unpack _). by vm_compute. }
  exists train_fp, train_t, test_fp, test_t. split; [done|].
  destruct (Hmol 2 "mol2") as [-> ->]; [done| |].
  { intros row Hrow. apply list_elem_of_singleton in Hrow as ->. by cbn. }
  destruct (Hkeys "T") as [? ?]; [by left|]. done.
Defined.

Lemma example_curve_non_decreasing :
  non_decreasing [Fin 0; Fin (1 / 2); Fin 1].
Proof.
  intros i j x y Hij Hi Hj.
  destruct i as [|[|[|i]]], j as [|[|[|j]]]; simplify_eq/=; try lia;
    apply xlt_fin_false; lra.
Qed.

Lemma get_logauc_segments_witness :
  let fp := [Fin 0; Fin (1 / 2); Fin 1] in
  let tp := [Fin 0; Fin (3 / 4); Fin 1] in
  let min_fp := Fin (1 / 10) in
  (∃ x y, truncate_curve fp tp min_fp = Ok (x, y)
          ∧ length x = length y
          ∧ zip x y = truncated_points fp tp min_fp)
  ∧ searchsorted fp min_fp = 1
  ∧ truncated_points fp tp min_fp
    = [(Fin (1 / 10), Fin 0); (Fin (1 / 2), Fin (3 / 4)); (Fin 1, Fin 1)]
  ∧ get_logauc fp tp min_fp false
    = Ok (logauc_by_segments linear_intercept fp tp min_fp)
  ∧ get_logauc fp tp (Fin 0) false = Raise ZeroDivisionError.
Proof.
  cbn zeta.
  assert (searchsorted [Fin 0; Fin (1 / 2); Fin 1] (Fin (1 / 10)) = 1)
    as Hidx.
  { cbn [searchsorted]. rewrite !np_lt_fin.
    rewrite xlt_fin_true, xlt_fin_false by lra. done. }
  pose proof (get_logauc_segments [Fin 0; Fin (1 / 2); Fin 1]
                [Fin 0; Fin (3 / 4); Fin 1] (Fin (1 / 10))
                example_curve_non_decreasing eq_refl) as [Hcut Hval].
  pose proof (get_logauc_segments [Fin 0; Fin (1 / 2); Fin 1]
                [Fin 0; Fin (3 / 4); Fin 1] (Fin 0)
                example_curve_non_decreasing eq_refl) as [_ Hzero].
  rewrite xiszero_fin in Hval by lra. rewrite xiszero_zero in Hzero.
  split_and!; try done.
  unfold truncated_points. by rewrite Hidx.
Defined.

Lemma get_logauc_adjusted_witness :
  ∃ v, get_logauc (Fin <$> [0; 1]%R) (Fin <$> [0; 1]%R) (fconst (1 # 1000))
         true
       = Ok (Fin v)
       ∧ (Rabs v < 11 / 10000)%R.
Proof.
  destruct get_logauc_adjusted as (_ & _ & _ & Hdiag).
  apply Hdiag; [|reflexivity|reflexivity].
  repeat constructor. lra.
Defined.

(** * Further properties *)

(** ** Dict aggregation *)

(** X1: Merging the dicts of two batches at once is merging each batch and
    joining the lists key by key, the first batch in front. *)
Theorem merge_dicts_app {V : Type} (ds1 ds2 : list (gmap string V)) :
  merge_dicts (ds1 ++ ds2)
  = union_with (λ vs1 vs2, Some (vs1 ++ vs2)) (merge_dicts ds1)
      (merge_dicts ds2).
Proof.
  apply map_eq. intros k.
  rewrite lookup_union_with, !merge_dicts_lookup.
  unfold values_of. rewrite omap_app.
  fold (values_of k ds1). fold (values_of k ds2).
  destruct (values_of k ds1) as [|v1 vs1], (values_of k ds2) as [|v2 vs2];
    cbn; try done.
  by rewrite app_nil_r.
Qed.

(** X2: The merged dict has the keys of the inputs and no others, and the list
    at a key has one value per input that holds the key. *)
Theorem merge_dicts_keys {V : Type} (ds : list (gmap string V)) :
  dom (merge_dicts ds) = ⋃ (dom <$> ds)
  ∧ ∀ k, length (default [] (merge_dicts ds !! k))
         = length (filter (λ d, is_Some (d !! k)) ds).
Proof.
  split.
  - apply set_eq. intros k. rewrite elem_of_dom, merge_dicts_lookup.
    rewrite elem_of_union_list. split.
    + case_decide as Hv; [by intros [? ?]|]. intros _.
      destruct (values_of k ds) as [|v vs] eqn:Hvs; [done|].
      assert (v ∈ values_of k ds) as Hin by (rewrite Hvs; by left).
      unfold values_of in Hin. apply list_elem_of_omap in Hin as (d & Hd & Hk).
      exists (dom d). split; [|apply elem_of_dom; by eexists].
      apply list_elem_of_fmap. by exists d.
    + intros (X & HX & Hk). apply list_elem_of_fmap in HX as (d & -> & Hd).
      apply elem_of_dom in Hk as [v Hv].
      rewrite decide_False; [by eexists|].
      intros Hnil. assert (v ∈ values_of k ds) as Hin.
      { unfold values_of. apply list_elem_of_omap. by exists d. }
      rewrite Hnil in Hin. by apply elem_of_nil in Hin.
  - intros k. rewrite merge_dicts_lookup.
    assert (default [] (if decide (values_of k ds = []) then None
                        else Some (values_of k ds)) = values_of k ds) as ->.
    { case_decide as Hv; [by rewrite Hv|done]. }
    unfold values_of. induction ds as [|d ds IH]; [done|].
    rewrite filter_cons. cbn [omap list_omap].
    destruct (d !! k) as [v|] eqn:Hd.
    + rewrite decide_True by (by eexists). cbn. by rewrite IH.
    + rewrite decide_False by (by intros [? ?]). done.
Qed.

(** ** Filtering targets *)

(** X3: Filtering twice is filtering once by the larger threshold, and a
    threshold of zero or below keeps every target. *)
Theorem filter_targets_by_molnum_compose (targets_dict : gmap string SetValue)
    (n m : Z) :
  filter_targets_by_molnum (filter_targets_by_molnum targets_dict n) m
  = filter_targets_by_molnum targets_dict (Z.max n m)
  ∧ ((n ≤ 0)%Z → filter_targets_by_molnum targets_dict n = targets_dict).
Proof.
  unfold filter_targets_by_molnum. split.
  - rewrite map_filter_filter. apply map_filter_ext. intros k sv _. cbn. lia.
  - intros Hn. apply map_filter_id. intros k sv _. cbn. lia.
Qed.

Lemma filter_targets_by_molnum_compose_witness :
  filter_targets_by_molnum {[ "T" := example_target ]} 0
  = {[ "T" := example_target ]}.
Proof.
  apply (filter_targets_by_molnum_compose {[ "T" := example_target ]} 0 0).
  reflexivity.
Defined.

(** ** Target array: the matrix *)

Lemma index_map_snoc (l : list string) (y : string) :
  index_map (l ++ [y]) = <[y := length l]> (index_map l).
Proof. unfold index_map. by rewrite enumerate_snoc, foldl_app. Qed.

(** A name is mapped to the last position it has in the list. *)
Lemma index_map_Some (l : list string) (x : string) (j : nat) :
  index_map l !! x = Some j
  ↔ l !! j = Some x ∧ x ∉ drop (S j) l.
Proof.
  revert j. induction l as [|y l IH] using rev_ind; intros j.
  { unfold index_map. cbn. rewrite lookup_empty. split; [done|].
    by intros [? _]. }
  rewrite index_map_snoc. destruct (decide (x = y)) as [->|Hne].
  - rewrite lookup_insert_eq. split.
    + intros [= <-]. split; [by rewrite list_lookup_middle|].
      rewrite drop_ge; [by intros ?%elem_of_nil|].
      rewrite length_app. cbn. lia.
    + intros [Hj Hlast]. f_equal.
      destruct (decide (j = length l)) as [->|Hjl]; [done|]. exfalso.
      apply lookup_lt_Some in Hj as Hlt. rewrite length_app in Hlt. cbn in Hlt.
      apply Hlast. rewrite drop_app_le by lia.
      apply elem_of_app. right. by left.
  - rewrite lookup_insert_ne by done. rewrite IH. split.
    + intros [Hj Hlast]. split; [by apply lookup_app_l_Some|].
      apply lookup_lt_Some in Hj as Hlt.
      rewrite drop_app_le by lia. intros [?|Hy]%elem_of_app; [done|].
      apply list_elem_of_singleton in Hy. done.
    + intros [Hj Hlast].
      apply lookup_app_Some in Hj as [Hj|[_ Hj]].
      2: { apply list_lookup_singleton_Some in Hj as [_ ?]. done. }
      split; [done|]. apply lookup_lt_Some in Hj as Hlt.
      rewrite drop_app_le in Hlast by lia.
      intros Hx. apply Hlast, elem_of_app. by left.
Qed.

Lemma cids_lookup_elem_of (mol_list cs : list string) (inds : list nat)
    (j : nat) :
  map_result (λ mol_name, of_option (index_map mol_list !! mol_name)
                                    (KeyError mol_name)) cs = Ok inds →
  j ∈ inds ↔ ∃ c, c ∈ cs ∧ index_map mol_list !! c = Some j.
Proof.
  revert inds. induction cs as [|c cs IH]; intros inds; cbn.
  { intros [= <-]. split; [by intros ?%elem_of_nil|].
    by intros (? & ?%elem_of_nil & _). }
  destruct (index_map mol_list !! c) as [i|] eqn:Hc; cbn; [|done].
  destruct (map_result _ cs) as [inds'|] eqn:Hcs; cbn; [|done].
  intros [= <-]. rewrite elem_of_cons, (IH inds' eq_refl). split.
  - intros [->|(c' & Hc' & Hj)].
    + exists c. split; [by left|done].
    + exists c'. split; [by right|done].
  - intros (c' & [->|Hc']%elem_of_cons & Hj).
    + left. congruence.
    + right. by exists c'.
Qed.

Lemma cids_lookup_known (mol_list cs : list string) (inds : list nat) :
  map_result (λ mol_name, of_option (index_map mol_list !! mol_name)
                                    (KeyError mol_name)) cs = Ok inds →
  Forall (λ c, c ∈ mol_list) cs.
Proof.
  revert inds. induction cs as [|c cs IH]; intros inds; cbn; [done|].
  destruct (index_map mol_list !! c) as [i|] eqn:Hc; cbn; [|done].
  destruct (map_result _ cs) as [inds'|] eqn:Hcs; cbn; [|done].
  intros _. constructor; [|by eapply IH].
  destruct (decide (c ∈ mol_list)) as [|Hno]; [done|].
  apply index_map_None in Hno. congruence.
Qed.

(** What the loop over the targets leaves in the rows. *)
Lemma target_rows_spec (targets_dict : gmap string SetValue)
    (mol_list keys : list string) (n : nat) (arr : lil_matrix) :
  length keys ≤ n →
  fold_result (λ (arr : lil_matrix) (it : nat * string),
      let '(i, target_key) := it in
      sv ← of_option (targets_dict !! target_key) (KeyError target_key);
      inds ← map_result (λ mol_name,
                of_option (index_map mol_list !! mol_name) (KeyError mol_name))
              (cids sv);
      Ok (lil_set_row arr i inds))
    (replicate n ∅) (enumerate keys) = Ok arr →
  length arr = n
  ∧ (∀ i, length keys ≤ i → i < n → arr !! i = Some ∅)
  ∧ ∀ i key, keys !! i = Some key →
      ∃ sv row, targets_dict !! key = Some sv ∧ arr !! i = Some row
                ∧ Forall (λ c, c ∈ mol_list) (cids sv)
                ∧ ∀ j, j ∈ row ↔ ∃ c, c ∈ cids sv
                                      ∧ index_map mol_list !! c = Some j.
Proof.
  revert arr. induction keys as [|key keys IH] using rev_ind; intros arr Hn.
  { cbn. intros [= <-]. split_and!.
    - by rewrite length_replicate.
    - intros i _ Hi. by apply lookup_replicate_2.
    - intros i key Hk. destruct i; discriminate Hk. }
  rewrite length_app in Hn. cbn in Hn.
  rewrite enumerate_snoc, fold_result_snoc.
  destruct (fold_result _ _ (enumerate keys)) as [arr0|] eqn:Harr0; [|done].
  destruct (IH arr0 ltac:(lia) eq_refl) as (Hlen & Hempty & Hrows).
  cbn. destruct (targets_dict !! key) as [sv|] eqn:Hsv; cbn; [|done].
  destruct (map_result _ (cids sv)) as [inds|] eqn:Hinds; cbn; [|done].
  intros [= <-]. unfold lil_set_row. unfold lil_matrix in *.
  rewrite (Hempty (length keys)) by lia. cbn [default]. split_and!.
  - by rewrite length_insert.
  - intros i Hi Hin. rewrite length_app in Hi. cbn in Hi.
    rewrite list_lookup_insert_ne by lia. apply Hempty; lia.
  - intros i key' Hk. apply lookup_app_Some in Hk as [Hk|[Hge Hk]].
    + apply lookup_lt_Some in Hk as Hlt.
      rewrite list_lookup_insert_ne by lia. by apply Hrows.
    + apply list_lookup_singleton_Some in Hk as [Hi ->].
      replace i with (length keys) by lia.
      exists sv, (∅ ∪ list_to_set inds). split_and!; [done| | |].
      * apply list_lookup_insert_eq. lia.
      * by eapply cids_lookup_known.
      * intros j. rewrite elem_of_union, elem_of_list_to_set.
        rewrite (cids_lookup_elem_of _ _ _ j Hinds). set_solver.
Qed.

Lemma fmap_filter_seq_omap {B} (P : nat → Prop) `{!∀ j, Decision (P j)}
    (f : nat → B) (a n : nat) :
  f <$> filter P (seq a n)
  = omap (λ j, if decide (P j) then Some (f j) else None) (seq a n).
Proof.
  revert a. induction n as [|n IH]; intros a; [done|].
  cbn [seq]. rewrite filter_cons. cbn [omap list_omap].
  destruct (decide (P a)); cbn; by rewrite IH.
Qed.

Lemma csr_get_tocsr (dt : dtype) (ncols : nat) (arr : lil_matrix)
    (i j : nat) (row : gset nat) :
  arr !! i = Some row →
  csr_get (tocsr dt ncols arr) i j
  = if decide (j ∈ row ∧ j < ncols) then 1%Z else 0%Z.
Proof.
  intros Hrow. unfold csr_get, tocsr. unfold lil_matrix in *.
  rewrite (row_entries_csr_of_rows _ _ _ i
             ((λ j, (j, cast dt 1)) <$> filter (λ j, j ∈ row) (seq 0 ncols))).
  2: { by rewrite list_lookup_fmap, Hrow. }
  rewrite fmap_filter_seq_omap, sum_column_omap_seq.
  2: { intros j' e. case_decide; [|done]. by intros [= <-]. }
  rewrite cast_1. repeat case_decide; try done; try lia; tauto.
Qed.

(** X4: The call returns exactly when every identifier among the [cids] is in
    the molecule list.  Each row of the returned matrix marks the molecules
    of one target: the entry for the target at position [i] of the sorted
    keys and the molecule at position [j] of the list is 1 when that
    molecule is among the target's [cids] and does not occur again further
    down the list, and 0 otherwise. *)
Theorem targets_to_array_entries (targets_dict : gmap string SetValue)
    (mol_list : list string) (dt : dtype) :
  ((∃ r, targets_to_array targets_dict mol_list dt = Ok r)
   ↔ ∀ k sv, targets_dict !! k = Some sv →
             Forall (λ c, c ∈ mol_list) (cids sv))
  ∧ ∀ m target_list,
      targets_to_array targets_dict mol_list dt = Ok (m, target_list) →
      target_list = sorted (dom targets_dict)
      ∧ shape m = (size targets_dict, length mol_list)
      ∧ ∀ i key sv j name,
          target_list !! i = Some key → targets_dict !! key = Some sv →
          mol_list !! j = Some name →
          csr_get m i j
          = if decide (name ∈ cids sv ∧ name ∉ drop (S j) mol_list)
            then 1%Z else 0%Z.
Proof.
  assert (∀ m target_list,
            targets_to_array targets_dict mol_list dt = Ok (m, target_list) →
            target_list = sorted (dom targets_dict)
            ∧ ∃ arr, length arr = length target_list
                ∧ m = tocsr dt (length mol_list) arr
                ∧ ∀ i key, target_list !! i = Some key →
                    ∃ sv row, targets_dict !! key = Some sv
                      ∧ arr !! i = Some row
                      ∧ Forall (λ c, c ∈ mol_list) (cids sv)
                      ∧ ∀ j, j ∈ row
                             ↔ ∃ c, c ∈ cids sv
                                    ∧ index_map mol_list !! c = Some j)
    as Hinv.
  { intros m target_list. unfold targets_to_array. cbn zeta.
    destruct (fold_result _ _ _) as [arr|] eqn:Harr; cbn; [|done].
    intros [= <- <-].
    destruct (target_rows_spec _ _ _ _ _ (Nat.le_refl _) Harr)
      as (Hlen & _ & Hrows).
    split; [done|]. by exists arr. }
  split; [split|].
  - intros [[m target_list] Hres] k sv Hk.
    destruct (Hinv m target_list Hres) as (-> & arr & _ & _ & Hrows).
    assert (k ∈ sorted (dom targets_dict)) as Hin.
    { apply elem_of_sorted, elem_of_dom. by eexists. }
    apply list_elem_of_lookup in Hin as [i Hi].
    destruct (Hrows i k Hi) as (sv' & row & Hsv' & _ & Hall & _).
    congruence.
  - intros Hall.
    destruct (targets_to_array_returns targets_dict mol_list dt Hall)
      as [m Hm].
    by eexists.
  - intros m target_list Hres.
    destruct (Hinv m target_list Hres) as (-> & arr & Hlen & -> & Hrows).
    split_and!; [done| |].
    + unfold tocsr, csr_of_rows. cbn. rewrite length_fmap, Hlen. f_equal.
      unfold sorted. rewrite merge_sort_Permutation.
      by rewrite <- size_dom.
    + intros i key sv j name Hi Hsv Hj.
      destruct (Hrows i key Hi) as (sv' & row & Hsv' & Hrow & _ & Hin).
      assert (sv' = sv) as -> by congruence.
      rewrite (csr_get_tocsr _ _ _ _ _ row Hrow).
      apply lookup_lt_Some in Hj as Hlt.
      destruct (decide (name ∈ cids sv ∧ name ∉ drop (S j) mol_list))
        as [[Hc Hlast]|Hno].
      * rewrite decide_True; [done|]. split; [|done]. apply Hin.
        exists name. split; [done|]. by apply index_map_Some.
      * rewrite decide_False; [done|]. intros [(c & Hc & Hcj)%Hin _].
        apply index_map_Some in Hcj as [Hcj Hlast].
        assert (c = name) as -> by congruence. tauto.
Qed.

Lemma targets_to_array_entries_witness :
  ∃ m, targets_to_array {[ "T" := example_target ]} example_split_mols np_int8
       = Ok (m, ["T"])
       ∧ csr_get m 0 1 = 1%Z ∧ csr_get m 0 2 = 0%Z.
Proof.
  destruct (targets_to_array_entries {[ "T" := example_target ]}
              example_split_mols np_int8) as [[_ Hret] Hget].
  destruct Hret as [[m target_list] Hres].
  { intros k sv [<- <-]%lookup_singleton_Some.
    apply (bool_decide_unpack _). by vm_compute. }
  destruct (Hget m target_list Hres) as (-> & _ & Hentries).
  exists m. split; [by rewrite Hres|].
  split.
  - by rewrite (Hentries 0 "T" example_target 1 "mol1").
  - by rewrite (Hentries 0 "T" example_target 2 "mol2").
Defined.

(** ** Fingerprint array: the ways the call fails *)

Section molecules_failures.
Context {T : Type} `{!NativeTuple T}.
Implicit Types (d : list (string * list T)) (l : list string).

Lemma listed_getitem d l (x : string) :
  list_to_set (d.*1) =@{gset string} list_to_set l → x ∈ l →
  is_Some (getitem d x).
Proof.
  intros Hset Hx. apply getitem_is_Some.
  apply (elem_of_list_to_set (C := gset string)). rewrite Hset.
  by apply elem_of_list_to_set.
Qed.

(** With every listed molecule in the dict, a step of the loop fails with
    [ValueError] or not at all. *)
Lemma mol_step_raises d l (st : mol_state) (k : nat) (x : string) (e : exn) :
  list_to_set (d.*1) =@{gset string} list_to_set l → x ∈ l →
  mol_step d st (k, x) = Raise e → e = ValueError.
Proof.
  intros Hset Hx. destruct (listed_getitem d l x Hset Hx) as [nts Hnts].
  unfold mol_step. rewrite Hnts. cbn. case_decide; [|done]. by intros [= <-].
Qed.

Lemma bit_coords_nil (rs : list nat) (recs : list T) :
  (∀ nt, nt ∈ recs → native_tuple_to_indices nt = []) →
  bit_coords rs recs = [].
Proof.
  revert rs. induction recs as [|nt recs IH]; intros rs Hall.
  { unfold bit_coords. by destruct rs. }
  destruct rs as [|r rs]; [done|]. rewrite bit_coords_cons.
  rewrite (Hall nt) by (by left). cbn. apply IH.
  intros nt' Hnt'. apply Hall. by right.
Qed.

Lemma mol_loop_no_set_bit d l (x : string) :
  list_to_set (d.*1) =@{gset string} list_to_set l →
  x ∈ l → (∀ nt, nt ∈ records d x → native_tuple_to_indices nt = []) →
  fold_result (mol_step d) (mk_mol_state ∅ [] [] 0) (enumerate l)
  = Raise ValueError.
Proof.
  intros Hset Hx Hnone.
  destruct (fold_result_raises (λ e, e = ValueError) (mol_step d)
              (enumerate l) (mk_mol_state ∅ [] [] 0)) as (e & -> & Hfold);
    [| |done].
  - intros st [k y] e Hin%elem_of_enumerate%list_elem_of_lookup_2.
    by apply (mol_step_raises d l).
  - apply list_elem_of_lookup in Hx as [k Hk].
    exists (k, x). split; [by apply elem_of_enumerate|].
    intros st. exists ValueError. unfold mol_step.
    unfold records in Hnone. destruct (getitem d x) as [nts|] eqn:Hnts.
    + cbn. rewrite decide_True; [done|]. by apply bit_coords_nil.
    + exfalso. destruct (listed_getitem d l x Hset) as [? ?]; [|congruence].
      by eapply list_elem_of_lookup_2.
Qed.

(** X5: The ways a call whose two sets of molecule identifiers agree fails: on an
    empty dict with [StopIteration]; on a first dict entry without records
    with [IndexError]; on a listed molecule none of whose records has a set
    bit (or which has no record at all) with [ValueError]; and, when every
    listed molecule has a set bit, on a set bit at or beyond the width of the
    first record with [ValueError] from the sparse constructor and
    [IndexError] from the dense assignment.  Whatever returns was
    encodable. *)
Theorem molecules_to_array_failures d l (dt : dtype) (dense : bool) :
  list_to_set (d.*1) =@{gset string} list_to_set l →
  (d = [] → molecules_to_array d l dt dense = Raise StopIteration)
  ∧ (∀ x d', d = (x, []) :: d' →
             molecules_to_array d l dt dense = Raise IndexError)
  ∧ (∀ w x, bit_width d = Some w → x ∈ l →
            (∀ nt, nt ∈ records d x → native_tuple_to_indices nt = []) →
            molecules_to_array d l dt dense = Raise ValueError)
  ∧ (∀ w nt j, bit_width d = Some w →
               (∀ x, x ∈ l → ∃ nt, nt ∈ records d x
                                   ∧ native_tuple_to_indices nt ≠ []) →
               nt ∈ all_records d l → j ∈ native_tuple_to_indices nt →
               w ≤ j →
               molecules_to_array d l dt dense
               = Raise (if dense then IndexError else ValueError))
  ∧ ((∃ r, molecules_to_array d l dt dense = Ok r) → encodable d l).
Proof.
  intros Hset. split_and!.
  - intros ->. unfold molecules_to_array. by rewrite decide_True.
  - intros x d' ->. unfold molecules_to_array. by rewrite decide_True.
  - intros w x Hw Hx Hnone. unfold molecules_to_array, bit_width in *.
    rewrite decide_True by done.
    destruct (head (d.*2)) as [first|]; cbn in *; [|done].
    destruct (head first) as [nt0|]; cbn in *; [|done].
    by rewrite (mol_loop_no_set_bit d l x).
  - intros w nt j Hw Hbits Hnt Hj Hwj.
    unfold molecules_to_array, bit_width in *. rewrite decide_True by done.
    destruct (head (d.*2)) as [first|]; cbn in *; [|done].
    destruct (head first) as [nt0|]; cbn in *; [|done]. injection Hw as <-.
    destruct (fold_result_ok (mol_step d) (enumerate l)
                (mk_mol_state ∅ [] [] 0)) as [st Hst].
    { intros st [k x] Hin. apply mol_step_ok, Hbits.
      apply elem_of_enumerate in Hin. by eapply list_elem_of_lookup_2. }
    rewrite Hst. cbn.
    destruct (mol_loop_spec d l st Hst) as (Hmax & Hlen & Hzip & _ & _).
    assert (¬ Forall (λ c, c.1 < max_ind st ∧ c.2 < native_tuple_bits nt0)
                (zip (all_row_inds st) (all_col_inds st))) as Hout.
    { rewrite Forall_forall. intros Hall.
      apply list_elem_of_lookup in Hnt as [i Hi].
      assert ((i, j) ∈ zip (all_row_inds st) (all_col_inds st)) as Hin.
      { rewrite Hzip. apply elem_of_bit_coords. exists nt.
        split_and!; [lia| |done]. by rewrite Nat.sub_0_r. }
      apply Hall in Hin. cbn in Hin. lia. }
    destruct dense.
    + unfold dense_from_coords. rewrite decide_True by done.
      by rewrite decide_False.
    + unfold csr_from_coords. rewrite decide_True by done.
      by rewrite decide_False.
  - intros [[arr idx] Hres].
    apply molecules_to_array_inv in Hres
      as (_ & w & st & Hw & Hst & _ & Harr).
    destruct (mol_loop_spec d l st Hst) as (Hmax & Hlen & Hzip & _ & _).
    assert (Forall (λ c, c.1 < max_ind st ∧ c.2 < w)
              (zip (all_row_inds st) (all_col_inds st))) as Hin.
    { destruct dense.
      - destruct Harr as (a & Ha & _).
        by apply dense_from_coords_spec in Ha as (_ & Hin & _).
      - destruct Harr as (m & Hm & _).
        by apply csr_from_coords_spec in Hm as (_ & Hin & _). }
    split.
    + exists w. split; [done|]. intros nt j Hnt Hj.
      apply list_elem_of_lookup in Hnt as [i Hi].
      rewrite Forall_forall in Hin. specialize (Hin (i, j)). cbn in Hin.
      apply Hin. rewrite Hzip. apply elem_of_bit_coords. exists nt.
      split_and!; [lia| |done]. by rewrite Nat.sub_0_r.
    + intros x Hx.
      destruct (decide (Exists (λ nt, native_tuple_to_indices nt ≠ [])
                          (records d x))) as [Hex|Hno].
      { apply Exists_exists in Hex. done. }
      rewrite (mol_loop_no_set_bit d l x) in Hst; [done|done|done|].
      intros nt Hnt.
      destruct (decide (native_tuple_to_indices nt = [])) as [|Hne];
        [done|].
      exfalso. apply Hno, Exists_exists. by exists nt.
Qed.
End molecules_failures.

Lemma molecules_to_array_failures_witness :
  molecules_to_array [("mol0", [mk_native_tuple 2 [5]])] ["mol0"] np_int8 true
  = Raise IndexError.
Proof.
  assert (list_to_set ([("mol0", [mk_native_tuple 2 [5]])].*1)
          =@{gset string} list_to_set ["mol0"]) as Hset by (by vm_compute).
  destruct (molecules_to_array_failures _ _ np_int8 true Hset)
    as (_ & _ & _ & Hout & _).
  apply (Hout 2 (mk_native_tuple 2 [5]) 5).
  - reflexivity.
  - intros x Hx. apply list_elem_of_singleton in Hx as ->.
    exists (mk_native_tuple 2 [5]). split; [|done]. cbn. by left.
  - cbn. by left.
  - cbn. by left.
  - lia.
Defined.

(** ** Fingerprint array: dense against sparse *)

Section molecules_dense_sparse.
Context {T : Type} `{!NativeTuple T}.
Implicit Types (d : list (string * list T)) (l : list string).

(** Number of times the record lists the bit. *)
Definition bit_count (nt : T) (j : nat) : nat :=
  length (filter (λ x, x = j) (native_tuple_to_indices nt)).

Lemma bit_count_NoDup (nt : T) (j : nat) :
  NoDup (native_tuple_to_indices nt) → bit_count nt j ≤ 1.
Proof.
  intros Hnd. unfold bit_count. rewrite (count_NoDup _ _ Hnd).
  case_decide; lia.
Qed.

Lemma cast_bool_pos (n : nat) : n ≠ 0 → cast np_bool (Z.of_nat n) = 1%Z.
Proof. intros Hn. cbn. rewrite decide_False; [done|lia]. Qed.

End molecules_dense_sparse.


(** ** Sparse array codec: the name of the file *)

Lemma rev_app_append (s1 s2 : string) :
  String.rev_app s1 s2 = String.rev s1 +:+ s2.
Proof.
  unfold String.rev. revert s2. induction s1 as [|a s1 IH]; intros s2; [done|].
  cbn. rewrite (IH (String a s2)), (IH (String a "")).
  clear IH. induction (String.rev_app s1 "") as [|b r IHr]; [done|].
  cbn. unfold String.app in *. cbn. by rewrite IHr.
Qed.

Lemma rev_app_app (s1 s2 acc : string) :
  String.rev_app (s1 +:+ s2) acc = String.rev_app s2 (String.rev_app s1 acc).
Proof.
  revert acc. induction s1 as [|a s1 IH]; intros acc; [done|].
  unfold String.app in *. cbn. apply IH.
Qed.

Lemma rev_append (s1 s2 : string) :
  String.rev (s1 +:+ s2) = String.rev s2 +:+ String.rev s1.
Proof.
  unfold String.rev at 1. rewrite rev_app_app. apply rev_app_append.
Qed.

Lemma prefix_append (p s : string) : String.prefix p (p +:+ s) = true.
Proof.
  induction p as [|a p IH]; [by destruct s|]. unfold String.app in *. cbn.
  by destruct (Ascii.ascii_dec a a).
Qed.

Lemma endswith_append (s suffix : string) : endswith (s +:+ suffix) suffix = true.
Proof. unfold endswith. rewrite rev_append. apply prefix_append. Qed.

Lemma length_append (s1 s2 : string) :
  String.length (s1 +:+ s2) = String.length s1 + String.length s2.
Proof.
  induction s1 as [|a s1 IH]; [done|]. unfold String.app in *. cbn.
  by rewrite IH.
Qed.

(** X7: The file is written under the name numpy derives and read under the
    name given.  Saving under a name without the extension and loading under
    that same name fails with [IOError] (unless a file of that name was
    there before); loading under the derived name always finds the archive,
    and so does loading under the name given when it ends in [.npz]. *)
Theorem load_fprints_arr_name {M : Type} (fs : filesystem M) (fn : string)
    (arr : array) (mol_indices : M) (dense : bool) :
  (endswith fn ".npz" = false → fs !! fn = None →
   load_fprints_arr (save_fprints_arr fs fn arr mol_indices) fn dense
   = Raise IOError)
  ∧ (endswith fn ".npz" = true →
     ∃ a, load_fprints_arr (save_fprints_arr fs fn arr mol_indices) fn dense
          = Ok (a, mol_indices))
  ∧ (∃ a, load_fprints_arr (save_fprints_arr fs fn arr mol_indices)
            (npz_name fn) dense
          = Ok (a, mol_indices))
  ∧ npz_name (npz_name fn) = npz_name fn.
Proof.
  assert (∃ a, load_fprints_arr (save_fprints_arr fs fn arr mol_indices)
                 (npz_name fn) dense = Ok (a, mol_indices)) as Hload.
  { unfold load_fprints_arr, save_fprints_arr. rewrite lookup_insert_eq.
    cbn. destruct dense; by eexists. }
  split_and!; [| |done|].
  - intros Hend Hnone. unfold load_fprints_arr, save_fprints_arr, npz_name.
    rewrite Hend. rewrite lookup_insert_ne, Hnone; [done|].
    intros Heq. apply (f_equal String.length) in Heq.
    rewrite length_append in Heq. cbn in Heq. lia.
  - intros Hend. unfold npz_name in Hload. by rewrite Hend in Hload.
  - unfold npz_name. destruct (endswith fn ".npz") eqn:Hend.
    + by rewrite Hend.
    + by rewrite endswith_append.
Qed.

Lemma load_fprints_arr_name_witness :
  load_fprints_arr
    (save_fprints_arr (∅ : filesystem nat) "fprints"
       (Sparse (mk_csr np_bool [1]%Z [0] [0; 1] (1, 1))) 7)
    "fprints" false
  = Raise IOError.
Proof.
  apply (load_fprints_arr_name (∅ : filesystem nat) "fprints"
           (Sparse (mk_csr np_bool [1]%Z [0] [0; 1] (1, 1))) 7 false).
  - reflexivity.
  - reflexivity.
Defined.

(** ** Sparse array codec: dense arrays *)

Lemma concat_fmap_fmap {A B} (g : A → B) (rows : list (list A)) :
  concat (fmap (M := list) g <$> rows) = g <$> concat rows.
Proof.
  induction rows as [|r rows IH]; [done|]. cbn. by rewrite fmap_app, IH.
Qed.

Lemma rebuilt_csr_of_rows (dt : dtype) (ncols : nat)
    (rows : list (list (nat * Z))) :
  rebuilt (csr_of_rows dt ncols rows)
  = csr_of_rows dt ncols
      (fmap (M := list) (λ e : nat * Z, (e.1, cast dt 1)) <$> rows).
Proof.
  unfold rebuilt, csr_of_rows. cbn. rewrite concat_fmap_fmap. f_equal.
  - rewrite length_fmap. induction (concat rows) as [|e es IH]; [done|].
    cbn. by rewrite IH.
  - rewrite <- list_fmap_compose. by apply list_fmap_ext.
  - f_equal. rewrite <- list_fmap_compose. apply list_fmap_ext.
    intros _ r _. cbn. by rewrite length_fmap.
  - by rewrite length_fmap.
Qed.

Lemma toarray_get (m : csr_matrix) (i j : nat) :
  i < (shape m).1 → j < (shape m).2 →
  nd_get (toarray m) i j = cast (csr_dtype m) (csr_get m i j).
Proof.
  intros Hi Hj. unfold nd_get, toarray. cbn.
  rewrite list_lookup_fmap, lookup_seq_lt by done. cbn.
  by rewrite list_lookup_fmap, lookup_seq_lt by done.
Qed.

(** The value summed at column [j] of the stored entries of a dense row,
    each taken as [c]. *)
Lemma sum_column_stored (c : Z) (r : list Z) (a j : nat) :
  foldr Z.add 0%Z
    ((filter (λ e, e.1 = j)
        ((λ e : nat * Z, (e.1, c))
           <$> filter (λ e, e.2 ≠ 0%Z) (zip (seq a (length r)) r))).*2)
  = if decide (a ≤ j ∧ default 0%Z (r !! (j - a)) ≠ 0%Z) then c else 0%Z.
Proof.
  revert a. induction r as [|v r IH]; intros a.
  { cbn. rewrite decide_False; [done|]. intros [_ Hv]. by apply Hv. }
  cbn [length seq zip zip_with]. rewrite filter_cons. cbn [snd].
  destruct (decide (v ≠ 0%Z)) as [Hv|Hv].
  - rewrite fmap_cons, filter_cons. cbn [fst].
    destruct (decide (a = j)) as [->|Hne].
    + rewrite fmap_cons. cbn [foldr snd]. rewrite IH.
      rewrite decide_False by lia. rewrite Nat.sub_diag. cbn.
      rewrite decide_True by done. lia.
    + rewrite IH. destruct (decide (a ≤ j)) as [Hle|Hgt].
      * replace (j - a) with (S (j - S a)) by lia. cbn.
        apply decide_ext. intuition lia.
      * rewrite !decide_False; [done|lia|lia].
  - rewrite IH. destruct (decide (a = j)) as [->|Hne].
    + rewrite Nat.sub_diag. cbn. rewrite !decide_False; [done|tauto|lia].
    + destruct (decide (a ≤ j)) as [Hle|Hgt].
      * replace (j - a) with (S (j - S a)) by lia. cbn.
        apply decide_ext. intuition lia.
      * rewrite !decide_False; [done|lia|lia].
Qed.

(** An array that has the rows and columns its shape announces. *)
Definition well_formed_ndarray (a : ndarray) : Prop :=
  length (nd_rows a) = (nd_shape a).1
  ∧ Forall (λ r, length r = (nd_shape a).2) (nd_rows a).

Lemma csr_get_rebuilt_dense (a : ndarray) (i j : nat) :
  well_formed_ndarray a → i < (nd_shape a).1 →
  csr_get (rebuilt (csr_of_dense a)) i j
  = if decide (nd_get a i j = 0%Z) then 0%Z else 1%Z.
Proof.
  intros [Hrows Hcols] Hi. unfold csr_of_dense.
  rewrite rebuilt_csr_of_rows. unfold csr_get.
  rewrite <- Hrows in Hi.
  destruct (lookup_lt_is_Some_2 _ _ Hi) as [r Hr].
  rewrite (row_entries_csr_of_rows _ _ _ i
             ((λ e : nat * Z, (e.1, cast (nd_dtype a) 1))
                <$> filter (λ e, e.2 ≠ 0%Z) (zip (seq 0 (length r)) r))).
  2: { by rewrite !list_lookup_fmap, Hr. }
  rewrite sum_column_stored, cast_1, Nat.sub_0_r.
  unfold nd_get. rewrite Hr. cbn.
  destruct (decide (default 0%Z (r !! j) = 0%Z)) as [Hz|Hz].
  - rewrite decide_False by tauto. done.
  - rewrite decide_True; [done|]. split; [lia|done].
Qed.

Lemma nd_rows_canonical (a : ndarray) :
  well_formed_ndarray a →
  nd_rows a = (λ i, (λ j, nd_get a i j) <$> seq 0 (nd_shape a).2)
                <$> seq 0 (nd_shape a).1.
Proof.
  intros [Hrows Hcols]. apply list_eq. intros i.
  rewrite list_lookup_fmap.
  destruct (decide (i < (nd_shape a).1)) as [Hi|Hi].
  - rewrite lookup_seq_lt by done. cbn. rewrite <- Hrows in Hi.
    destruct (lookup_lt_is_Some_2 _ _ Hi) as [r Hr]. rewrite Hr. f_equal.
    rewrite Forall_forall in Hcols.
    pose proof (Hcols r (list_elem_of_lookup_2 _ _ _ Hr)) as Hlen.
    apply list_eq. intros j. rewrite list_lookup_fmap.
    destruct (decide (j < (nd_shape a).2)) as [Hj|Hj].
    + rewrite lookup_seq_lt by done. cbn. unfold nd_get. rewrite Hr. cbn.
      rewrite <- Hlen in Hj.
      by destruct (lookup_lt_is_Some_2 _ _ Hj) as [v ->].
    + rewrite lookup_seq_ge by lia. cbn. apply lookup_ge_None_2. lia.
  - rewrite lookup_seq_ge by lia. cbn. apply lookup_ge_None_2. lia.
Qed.

Lemma shape_rebuilt_dense (a : ndarray) :
  well_formed_ndarray a → shape (rebuilt (csr_of_dense a)) = nd_shape a.
Proof.
  intros [Hrows _]. unfold rebuilt, csr_of_dense. cbn.
  rewrite length_fmap, Hrows. by destruct (nd_shape a).
Qed.

Lemma nd_get_rebuilt_dense (a : ndarray) (i j : nat) :
  well_formed_ndarray a → i < (nd_shape a).1 → j < (nd_shape a).2 →
  nd_get (toarray (rebuilt (csr_of_dense a))) i j
  = if decide (nd_get a i j = 0%Z) then 0%Z else 1%Z.
Proof.
  intros Hwf Hi Hj.
  rewrite toarray_get by (by rewrite shape_rebuilt_dense).
  rewrite csr_get_rebuilt_dense by done.
  cbn [csr_dtype rebuilt csr_of_dense csr_of_rows].
  case_decide; [by destruct (nd_dtype a)|apply cast_1].
Qed.

(** An array of zeros and ones is rebuilt as it was. *)
Lemma toarray_rebuilt_dense (a : ndarray) :
  well_formed_ndarray a →
  (∀ i j, nd_get a i j = 0%Z ∨ nd_get a i j = 1%Z) →
  toarray (rebuilt (csr_of_dense a)) = a.
Proof.
  intros Hwf Hbits. pose proof (nd_rows_canonical a Hwf) as Hcan.
  pose proof (shape_rebuilt_dense a Hwf) as Hshape.
  pose proof (nd_get_rebuilt_dense a) as Hget.
  destruct a as [dt shp rows]. unfold toarray. rewrite Hshape.
  f_equal. etrans; [|symmetry; apply Hcan]. cbn in Hget |- *.
  apply list_fmap_ext. intros _ i Hi%list_elem_of_lookup_2%elem_of_seq.
  apply list_fmap_ext. intros _ j Hj%list_elem_of_lookup_2%elem_of_seq.
  pose proof (toarray_get (rebuilt (csr_of_dense (mk_ndarray dt shp rows)))
                i j) as Hta.
  rewrite Hshape in Hta. cbn in Hi, Hj.
  specialize (Hta ltac:(cbn; lia) ltac:(cbn; lia)).
  etrans; [symmetry; exact Hta|].
  rewrite Hget by (done || lia).
  destruct (Hbits i j) as [-> | ->]; done.
Qed.

Lemma load_save_dense_rebuilt {M : Type} (fs : filesystem M) (fn : string)
    (a : ndarray) (mol_indices : M) :
  load_fprints_arr (save_fprints_arr fs fn (Dense a) mol_indices)
    (npz_name fn) true
  = Ok (Dense (toarray (rebuilt (csr_of_dense a))), mol_indices).
Proof.
  unfold load_fprints_arr, save_fprints_arr. by rewrite lookup_insert_eq.
Qed.

(** X8: Saving a dense array and loading it back dense gives an array of the
    same element type and shape whose entry is 1 where the saved entry was
    not zero and 0 where it was zero: the values are not kept.  An array of
    zeros and ones comes back as it was. *)
Theorem load_save_dense {M : Type} (fs : filesystem M) (fn : string)
    (a : ndarray) (mol_indices : M) :
  well_formed_ndarray a →
  ∃ a', load_fprints_arr (save_fprints_arr fs fn (Dense a) mol_indices)
          (npz_name fn) true
        = Ok (Dense a', mol_indices)
        ∧ nd_dtype a' = nd_dtype a
        ∧ nd_shape a' = nd_shape a
        ∧ (∀ i j, i < (nd_shape a).1 → j < (nd_shape a).2 →
                  nd_get a' i j
                  = if decide (nd_get a i j = 0%Z) then 0%Z else 1%Z)
        ∧ ((∀ i j, nd_get a i j = 0%Z ∨ nd_get a i j = 1%Z) → a' = a).
Proof.
  intros Hwf. exists (toarray (rebuilt (csr_of_dense a))).
  split_and!.
  - apply load_save_dense_rebuilt.
  - done.
  - by apply shape_rebuilt_dense.
  - intros i j Hi Hj. by apply nd_get_rebuilt_dense.
  - by apply toarray_rebuilt_dense.
Qed.

Lemma load_save_dense_witness :
  ∃ a', load_fprints_arr
          (save_fprints_arr (∅ : filesystem nat) "fprints"
             (Dense (mk_ndarray np_int8 (1, 2) [[5; 0]%Z])) 7)
          (npz_name "fprints") true
        = Ok (Dense a', 7)
        ∧ nd_get a' 0 0 = 1%Z ∧ nd_get a' 0 1 = 0%Z.
Proof.
  destruct (load_save_dense (∅ : filesystem nat) "fprints"
              (mk_ndarray np_int8 (1, 2) [[5; 0]%Z]) 7)
    as (a' & Hload & _ & _ & Hget & _).
  { split; [done|]. by repeat constructor. }
  exists a'. split; [done|]. split.
  - rewrite Hget; cbn; [done|lia|lia].
  - rewrite Hget; cbn; [done|lia|lia].
Defined.

(** ** Fingerprint array through the codec *)

Section molecules_codec.
Context {T : Type} `{!NativeTuple T}.
Implicit Types (d : list (string * list T)) (l : list string).

Lemma dense_from_coords_well_formed (dt : dtype) (row_inds col_inds : list nat)
    (shp : nat * nat) (a : ndarray) :
  dense_from_coords dt row_inds col_inds shp = Ok a →
  well_formed_ndarray a ∧ ∀ i j, nd_get a i j = 0%Z ∨ nd_get a i j = 1%Z.
Proof.
  intros Ha. apply dense_from_coords_spec in Ha as Hspec.
  destruct Hspec as (Hshape & _ & Hget).
  unfold dense_from_coords in Ha. case_decide; [|done]. case_decide; [|done].
  injection Ha as <-. split; [split|].
  - cbn. by rewrite length_fmap, length_seq.
  - cbn. apply Forall_fmap, Forall_forall. intros i _. cbn.
    by rewrite length_fmap, length_seq.
  - intros i j. destruct (decide (i < shp.1)) as [Hi|Hi].
    + rewrite (Hget i j Hi), cast_1. case_decide; tauto.
    + left. unfold nd_get. cbn. rewrite list_lookup_fmap.
      by rewrite lookup_seq_ge by lia.
Qed.

(** X9: What [molecules_to_array] returns survives the codec unchanged: saving
    the array with its row index map and loading the file back, dense for a
    dense array and sparse for a sparse one, returns the very same array and
    map.  For the sparse matrix this needs every stored value to be one,
    which holds when the element type is boolean or no record lists a bit
    twice. *)
Theorem molecules_save_load_roundtrip d l (dt : dtype) (dense : bool)
    (arr : array) (idx : gmap nat (list nat))
    (fs : filesystem (gmap nat (list nat))) (fn : string) :
  molecules_to_array d l dt dense = Ok (arr, idx) →
  dense = true ∨ dt = np_bool
  ∨ Forall (λ nt, NoDup (native_tuple_to_indices nt)) (all_records d l) →
  load_fprints_arr (save_fprints_arr fs fn arr idx) (npz_name fn) dense
  = Ok (arr, idx).
Proof.
  intros Hres Hones.
  apply molecules_to_array_inv in Hres
    as (_ & w & st & _ & Hst & _ & Harr).
  destruct (mol_loop_spec d l st Hst) as (Hmax & Hlen & Hzip & _ & _).
  destruct dense.
  - destruct Harr as (a & Ha & ->).
    apply dense_from_coords_well_formed in Ha as [Hwf Hbits].
    rewrite load_save_dense_rebuilt.
    by rewrite toarray_rebuilt_dense.
  - destruct Harr as (m & Hm & ->). rewrite load_save_sparse.
    destruct Hones as [?|Hones]; [done|].
    replace (rebuilt m) with m; [done|]. symmetry.
    unfold csr_from_coords in Hm. case_decide; [|done].
    case_decide; [|done]. injection Hm as <-.
    rewrite rebuilt_csr_of_rows. f_equal.
    rewrite <- list_fmap_compose. apply list_fmap_ext.
    intros _ i Hi%list_elem_of_lookup_2%elem_of_seq. cbn.
    rewrite <- (list_fmap_id (omap _ _)) at 2. apply list_fmap_ext.
    intros _ [j v] He%list_elem_of_lookup_2. cbn. f_equal.
    apply list_elem_of_omap in He as (j' & _ & He). cbn zeta in He.
    case_decide as Hn; [done|]. injection He as -> <-.
    rewrite cast_1. symmetry.
    destruct Hones as [->|Hnd]; [by apply cast_bool_pos|].
    rewrite Hmax in Hi.
    destruct (lookup_lt_is_Some_2 (all_records d l) i) as [nt Hnt]; [lia|].
    rewrite Hzip in Hn |- *.
    rewrite (coord_count_bit_coords 0 _ i j nt) in Hn |- *;
      [|lia|by rewrite Nat.sub_0_r|lia|by rewrite Nat.sub_0_r].
    rewrite Forall_forall in Hnd.
    pose proof (bit_count_NoDup nt j
                  (Hnd nt (list_elem_of_lookup_2 _ _ _ Hnt))) as Hle.
    unfold bit_count in Hle.
    replace (length (filter _ _)) with 1 by lia. apply cast_1.
Qed.
End molecules_codec.

Lemma molecules_save_load_roundtrip_witness :
  ∃ arr idx,
    molecules_to_array example_molecules example_mol_list np_int8 false
    = Ok (arr, idx)
    ∧ load_fprints_arr (save_fprints_arr ∅ "fprints" arr idx)
        (npz_name "fprints") false
      = Ok (arr, idx).
Proof.
  destruct (molecules_to_array example_molecules example_mol_list np_int8
              false) as [[arr idx]|e] eqn:Hres; [|by vm_compute in Hres].
  exists arr, idx. split; [done|].
  apply (molecules_save_load_roundtrip example_molecules example_mol_list
           np_int8 false arr idx ∅ "fprints" Hres).
  right. right. apply (bool_decide_unpack _). by vm_compute.
Defined.

(** ** Fold splitter: what the two target dicts hold *)

(** X10: On well-formed inputs the two target dicts have the listed target keys
    and no others (a target that is not listed is dropped), and at each key
    the test and the train [cids] split the original ones: each original
    identifier is in exactly one of the two, no other identifier is in
    either, and both lists are sorted and free of repetitions. *)
Theorem train_test_cids_partition {T : Type} (mol_list_dict : gmap string T)
    (mol_list : list string) (target_dict : gmap string SetValue)
    (target_list : list string) (mask : list (list Z)) :
  well_formed_split mol_list_dict mol_list target_dict target_list mask →
  ∃ train_fp train_t test_fp test_t,
    train_test_dicts_from_mask mol_list_dict mol_list target_dict
      target_list mask = Ok (train_fp, train_t, test_fp, test_t)
    ∧ dom test_t = list_to_set target_list
    ∧ dom train_t = list_to_set target_list
    ∧ ∀ key, key ∈ target_list →
        ∃ sv tsv rsv,
          target_dict !! key = Some sv
          ∧ test_t !! key = Some tsv ∧ train_t !! key = Some rsv
          ∧ (∀ c, c ∈ cids sv ↔ c ∈ cids tsv ∨ c ∈ cids rsv)
          ∧ (∀ c, c ∈ cids tsv → c ∉ cids rsv)
          ∧ NoDup (cids tsv) ∧ NoDup (cids rsv)
          ∧ Sorted String.le (cids tsv) ∧ Sorted String.le (cids rsv).
Proof.
  intros Hwf.
  destruct (train_test_dicts_spec _ _ _ _ _ Hwf)
    as (train_fp & train_t & test_fp & test_t & Hres & _ & _ & Hpost).
  exists train_fp, train_t, test_fp, test_t.
  assert (∀ key, key ∈ target_list →
            is_Some (test_t !! key) ∧ is_Some (train_t !! key)) as Hin.
  { intros key Hkey. destruct (Hpost key) as [_ Hk].
    destruct (Hk Hkey) as (i & row & sv & _ & _ & _ & _ & Ht & Htr).
    cbn in Ht, Htr. by rewrite Ht, Htr. }
  assert (∀ key, key ∉ target_list →
            test_t !! key = None ∧ train_t !! key = None) as Hout.
  { intros key Hkey. destruct (Hpost key) as [Hk _]. by apply Hk. }
  split_and!; [done| | |].
  - apply set_eq. intros key. rewrite elem_of_dom, elem_of_list_to_set.
    split.
    + intros Hsome. destruct (decide (key ∈ target_list)) as [|Hno]; [done|].
      destruct (Hout key Hno) as [Hnone _]. rewrite Hnone in Hsome.
      by destruct Hsome.
    + intros Hkey. by destruct (Hin key Hkey).
  - apply set_eq. intros key. rewrite elem_of_dom, elem_of_list_to_set.
    split.
    + intros Hsome. destruct (decide (key ∈ target_list)) as [|Hno]; [done|].
      destruct (Hout key Hno) as [_ Hnone]. rewrite Hnone in Hsome.
      by destruct Hsome.
    + intros Hkey. by destruct (Hin key Hkey).
  - intros key Hkey. destruct (Hpost key) as [_ Hk].
    destruct (Hk Hkey) as (i & row & sv & _ & _ & _ & Hsv & Ht & Htr).
    cbn in Ht, Htr.
    exists sv, (test_target mol_list sv row), (train_target mol_list sv row).
    split_and!; try done; cbn.
    + intros c. rewrite !elem_of_sorted, elem_of_intersection,
        elem_of_difference, elem_of_list_to_set.
      destruct (decide (c ∈ mols_at mol_list 1 row)); tauto.
    + intros c. rewrite !elem_of_sorted, elem_of_intersection,
        elem_of_difference. tauto.
    + apply NoDup_sorted.
    + apply NoDup_sorted.
    + apply Sorted_sorted.
    + apply Sorted_sorted.
Qed.

Lemma train_test_cids_partition_witness :
  ∃ train_fp train_t test_fp test_t,
    train_test_dicts_from_mask example_split_dict example_split_mols
      {[ "T" := example_target ]} ["T"] [[1; -1; 0; 1]%Z]
    = Ok (train_fp, train_t, test_fp, test_t)
    ∧ dom test_t = {[ "T" ]} ∧ dom train_t = {[ "T" ]}.
Proof.
  destruct (train_test_cids_partition example_split_dict example_split_mols
              {[ "T" := example_target ]} ["T"] [[1; -1; 0; 1]%Z]
              example_split_well_formed)
    as (train_fp & train_t & test_fp & test_t & Hres & Ht & Htr & _).
  exists train_fp, train_t, test_fp, test_t.
  split_and!; [done| |].
  - rewrite Ht. cbn. by rewrite union_empty_r_L.
  - rewrite Htr. cbn. by rewrite union_empty_r_L.
Defined.

(** ** Fold splitter: the two fingerprint maps *)

(** X11: On well-formed inputs with distinct target keys, the test fingerprint
    map holds the listed molecules whose mask column has a 1 in some row, the
    train fingerprint map those whose column has a -1 in some row, each with
    the fingerprints the input gives it.  The train targets are cut
    differently: an identifier of a target that is not marked 1 in the
    target's row stays among the train [cids], and when no row marks it -1
    it has no entry in the train fingerprint map. *)
Theorem train_test_fingerprint_maps {T : Type} (mol_list_dict : gmap string T)
    (mol_list : list string) (target_dict : gmap string SetValue)
    (target_list : list string) (mask : list (list Z)) :
  well_formed_split mol_list_dict mol_list target_dict target_list mask →
  NoDup target_list →
  ∃ train_fp train_t test_fp test_t,
    train_test_dicts_from_mask mol_list_dict mol_list target_dict
      target_list mask = Ok (train_fp, train_t, test_fp, test_t)
    ∧ test_fp ⊆ mol_list_dict ∧ train_fp ⊆ mol_list_dict
    ∧ (∀ x, x ∈ dom test_fp
            ↔ ∃ j row, mol_list !! j = Some x ∧ row ∈ mask
                       ∧ row !! j = Some 1%Z)
    ∧ (∀ x, x ∈ dom train_fp
            ↔ ∃ j row, mol_list !! j = Some x ∧ row ∈ mask
                       ∧ row !! j = Some (-1)%Z)
    ∧ ∀ i key row sv c,
        target_list !! i = Some key → mask !! i = Some row →
        target_dict !! key = Some sv → c ∈ cids sv →
        (∀ j, mol_list !! j = Some c →
              row !! j ≠ Some 1%Z
              ∧ ∀ r, r ∈ mask → r !! j ≠ Some (-1)%Z) →
        (∃ rsv, train_t !! key = Some rsv ∧ c ∈ cids rsv)
        ∧ train_fp !! c = None.
Proof.
  intros Hwf Hnd. pose proof Hwf as (_ & _ & Hmols & _).
  destruct (train_test_dicts_spec _ _ _ _ _ Hwf)
    as (train_fp & train_t & test_fp & test_t & Hres & Htest & Htrain & Hpost).
  exists train_fp, train_t, test_fp, test_t.
  assert (∀ (fp : gmap string T) v,
            (∀ x w, fp !! x = Some w ↔
                    ∃ i, i ∈ any_axis0 v mask ∧ mol_list !! i = Some x
                         ∧ mol_list_dict !! x = Some w) →
            fp ⊆ mol_list_dict
            ∧ ∀ x, x ∈ dom fp
                   ↔ ∃ j row, mol_list !! j = Some x ∧ row ∈ mask
                              ∧ row !! j = Some v) as Hmap.
  { intros fp v Hfp. split.
    - apply map_subseteq_spec. intros x w Hx.
      by apply Hfp in Hx as (_ & _ & _ & Hw).
    - intros x. rewrite elem_of_dom. split.
      + intros [w (j & Hj & Hx & _)%Hfp].
        apply elem_of_any_axis0 in Hj as (row & Hrow & Hv). by exists j, row.
      + intros (j & row & Hx & Hrow & Hv).
        destruct (Hmols x) as [w Hw]; [by eapply list_elem_of_lookup_2|].
        exists w. apply Hfp. exists j. split_and!; [|done|done].
        apply elem_of_any_axis0. by exists row. }
  destruct (Hmap test_fp 1%Z Htest) as [Hsub1 Hdom1].
  destruct (Hmap train_fp (-1)%Z Htrain) as [Hsub2 Hdom2].
  split_and!; try done.
  intros i key row sv c Hi Hrow Hsv Hc Hcol. split.
  - destruct (Hpost key) as [_ Hk].
    destruct Hk as (i' & row' & sv' & Hi' & _ & Hrow' & Hsv' & _ & Htr).
    { by eapply list_elem_of_lookup_2. }
    assert (i' = i) as -> by (by eapply NoDup_lookup).
    simplify_eq. cbn in Htr. eexists. split; [done|]. cbn.
    apply elem_of_sorted, elem_of_difference. split.
    + by apply elem_of_list_to_set.
    + intros (j & Hv & Hj)%elem_of_mols_at. by destruct (Hcol j Hj).
  - apply eq_None_not_Some. intros [w (j & Hj & Hx & _)%Htrain].
    apply elem_of_any_axis0 in Hj as (r & Hr & Hv).
    destruct (Hcol j Hx) as [_ Hno]. by apply (Hno r).
Qed.

Lemma train_test_fingerprint_maps_witness :
  ∃ train_fp train_t test_fp test_t,
    train_test_dicts_from_mask example_split_dict example_split_mols
      {[ "T" := mkSetValue "T" ["mol1"; "mol2"] "a target" ]} ["T"]
      [[1; -1; 0; 1]%Z]
    = Ok (train_fp, train_t, test_fp, test_t)
    ∧ (∃ rsv, train_t !! "T" = Some rsv ∧ "mol2" ∈ cids rsv)
    ∧ train_fp !! "mol2" = None.
Proof.
  destruct (train_test_fingerprint_maps example_split_dict example_split_mols
              {[ "T" := mkSetValue "T" ["mol1"; "mol2"] "a target" ]} ["T"]
              [[1; -1; 0; 1]%Z])
    as (train_fp & train_t & test_fp & test_t & Hres & _ & _ & _ & _ & Hc).
  { split_and!.
    - done.
    - by repeat constructor.
    - intros x Hx.
      assert (Forall (λ x, is_Some (example_split_dict !! x))
                example_split_mols) as Hall.
      { apply (bool_decide_unpack _). by vm_compute. }
      rewrite Forall_forall in Hall. by apply Hall.
    - intros k Hk. apply list_elem_of_singleton in Hk as ->.
      rewrite lookup_singleton_eq. by eexists. }
  { apply NoDup_singleton. }
  exists train_fp, train_t, test_fp, test_t. split; [done|].
  apply (Hc 0 "T" [1; -1; 0; 1]%Z
           (mkSetValue "T" ["mol1"; "mol2"] "a target") "mol2");
    [done|done|done| |].
  - cbn. apply elem_of_cons. right. by left.
  - intros j Hj.
    assert (j = 2) as ->.
    { destruct j as [|[|[|[|j]]]]; by simplify_eq/=. }
    split; [done|]. intros r Hr. apply list_elem_of_singleton in Hr as ->.
    done.
Defined.

(** ** Fold splitter: the ways the call fails *)

Lemma map_result_lookups_raises {A} (l : list A) (e e' : exn)
    (js : list nat) :
  map_result (λ j, of_option (l !! j) e) js = Raise e' → e' = e.
Proof.
  induction js as [|j js IH]; cbn; [done|].
  destruct (l !! j); cbn; [|by intros [= <-]].
  destruct (map_result _ js); cbn; [done|]. intros [= <-]. by apply IH.
Qed.

Section split_errors.
Context {T : Type}.
Implicit Types (mol_list_dict : gmap string T) (mol_list : list string).

(** An error that names a listed molecule without fingerprints. *)
Definition missing_molecule mol_list_dict mol_list (e : exn) : Prop :=
  ∃ x, e = KeyError x ∧ x ∈ mol_list ∧ mol_list_dict !! x = None.

Lemma select_mols_raises mol_list_dict mol_list (inds : gset nat) (e : exn) :
  select_mols mol_list_dict mol_list inds = Raise e →
  missing_molecule mol_list_dict mol_list e.
Proof.
  unfold select_mols.
  set (body := λ (acc : gmap string T) (it : nat * string), _).
  assert (∀ (l : list (nat * string)) acc,
            (∀ it, it ∈ l → it.2 ∈ mol_list) →
            fold_result body acc l = Raise e →
            missing_molecule mol_list_dict mol_list e) as Hgen.
  { induction l as [|[i x] l IH]; intros acc Hl Hfold; [done|].
    cbn [fold_result] in Hfold.
    destruct (body acc (i, x)) as [acc'|e'] eqn:Hstep.
    - apply (IH acc'); [|done]. intros it Hit. apply Hl. by right.
    - injection Hfold as <-. unfold body in Hstep. case_decide; [|done].
      destruct (mol_list_dict !! x) eqn:Hx; cbn in Hstep; [done|].
      injection Hstep as <-. exists x. split_and!; [done| |done].
      apply (Hl (i, x)). by left. }
  apply Hgen. intros [i x] Hit%elem_of_enumerate. cbn.
  by eapply list_elem_of_lookup_2.
Qed.

Lemma select_mols_missing mol_list_dict mol_list (inds : gset nat)
    (j : nat) (x : string) :
  mol_list !! j = Some x → j ∈ inds → mol_list_dict !! x = None →
  ∃ e, select_mols mol_list_dict mol_list inds = Raise e.
Proof.
  intros Hj Hin Hx. unfold select_mols.
  set (body := λ (acc : gmap string T) (it : nat * string), _).
  destruct (fold_result_raises (λ _, True) body (enumerate mol_list) ∅)
    as (e & _ & He); [done| |by exists e].
  exists (j, x). split; [by apply elem_of_enumerate|].
  intros acc. unfold body. rewrite decide_True by done. rewrite Hx. cbn.
  by eexists.
Qed.

(** X12: The ways the call fails.  A listed molecule that some row marks 1 or -1
    and that has no fingerprints stops it with [KeyError] for such a
    molecule (a molecule marked nowhere is never looked up).  With all
    listed molecules present: a listed target that the target dict lacks
    stops it with [KeyError] for such a target, when the mask has a row for
    every listed target and no row is longer than the molecule list; and
    with all listed targets present, a mask with fewer rows than listed
    targets, or with a 1 beyond the molecule list in the row of a listed
    target, stops it with [IndexError]. *)
Theorem train_test_dicts_errors mol_list_dict mol_list
    (target_dict : gmap string SetValue) (target_list : list string)
    (mask : list (list Z)) :
  ((∃ j x row, mol_list !! j = Some x ∧ row ∈ mask
               ∧ (row !! j = Some 1%Z ∨ row !! j = Some (-1)%Z)
               ∧ mol_list_dict !! x = None) →
   ∃ x, train_test_dicts_from_mask mol_list_dict mol_list target_dict
          target_list mask = Raise (KeyError x)
        ∧ x ∈ mol_list ∧ mol_list_dict !! x = None)
  ∧ ((∀ x, x ∈ mol_list → is_Some (mol_list_dict !! x)) →
     (length target_list ≤ length mask →
      Forall (λ row, length row ≤ length mol_list) mask →
      (∃ k, k ∈ target_list ∧ target_dict !! k = None) →
      ∃ k, train_test_dicts_from_mask mol_list_dict mol_list target_dict
             target_list mask = Raise (KeyError k)
           ∧ k ∈ target_list ∧ target_dict !! k = None)
     ∧ ((∀ k, k ∈ target_list → is_Some (target_dict !! k)) →
        length mask < length target_list
        ∨ (∃ i row j, i < length target_list ∧ mask !! i = Some row
                      ∧ row !! j = Some 1%Z ∧ length mol_list ≤ j) →
        train_test_dicts_from_mask mol_list_dict mol_list target_dict
          target_list mask = Raise IndexError)).
Proof.
  split; [|intros Hmols; split].
  - intros (j & x & row & Hj & Hrow & Hv & Hx).
    unfold train_test_dicts_from_mask.
    destruct (select_mols mol_list_dict mol_list (any_axis0 1 mask))
      as [test_fp|e] eqn:Htest; cbn.
    2: { apply select_mols_raises in Htest as (y & -> & Hy & Hnone).
         by exists y. }
    destruct (select_mols mol_list_dict mol_list (any_axis0 (-1) mask))
      as [train_fp|e] eqn:Htrain; cbn.
    2: { apply select_mols_raises in Htrain as (y & -> & Hy & Hnone).
         by exists y. }
    exfalso. destruct Hv as [Hv|Hv].
    + destruct (select_mols_missing mol_list_dict mol_list
                  (any_axis0 1 mask) j x Hj) as [e He]; [|done|congruence].
      apply elem_of_any_axis0. by exists row.
    + destruct (select_mols_missing mol_list_dict mol_list
                  (any_axis0 (-1) mask) j x Hj) as [e He]; [|done|congruence].
      apply elem_of_any_axis0. by exists row.
  - intros Hlen Hrows (k & Hk & Hnone). unfold train_test_dicts_from_mask.
    destruct (select_mols_spec mol_list_dict mol_list (any_axis0 1 mask) Hmols)
      as (test_fp & -> & _).
    destruct (select_mols_spec mol_list_dict mol_list (any_axis0 (-1) mask)
                Hmols) as (train_fp & -> & _).
    cbn.
    destruct (fold_result_raises
                (λ e, ∃ k, e = KeyError k ∧ k ∈ target_list
                           ∧ target_dict !! k = None)
                (target_step mol_list target_dict mask)
                (enumerate target_list) (∅, ∅))
      as (e & (k' & -> & Hk' & Hnone') & ->).
    + intros [t r] [i key] e Hin%elem_of_enumerate.
      apply lookup_lt_Some in Hin as Hi.
      destruct (lookup_lt_is_Some_2 mask i) as [row Hrow]; [lia|].
      unfold target_step. rewrite Hrow. cbn.
      rewrite map_result_lookups.
      2: { apply Forall_forall. intros j' Hj'%elem_of_where_eq.
           apply lookup_lt_Some in Hj'. rewrite Forall_forall in Hrows.
           pose proof (Hrows row (list_elem_of_lookup_2 _ _ _ Hrow)). lia. }
      cbn. destruct (target_dict !! key) eqn:Hkey; cbn; [done|].
      intros [= <-]. exists key. split_and!; [done| |done].
      by eapply list_elem_of_lookup_2.
    + apply list_elem_of_lookup in Hk as [i Hi].
      exists (i, k). split; [by apply elem_of_enumerate|].
      intros [t r]. apply lookup_lt_Some in Hi as Hlt.
      destruct (lookup_lt_is_Some_2 mask i) as [row Hrow]; [lia|].
      unfold target_step. rewrite Hrow. cbn.
      rewrite map_result_lookups.
      2: { apply Forall_forall. intros j' Hj'%elem_of_where_eq.
           apply lookup_lt_Some in Hj'. rewrite Forall_forall in Hrows.
           pose proof (Hrows row (list_elem_of_lookup_2 _ _ _ Hrow)). lia. }
      cbn. rewrite Hnone. cbn. by eexists.
    + by exists k'.
  - intros Hkeys Hbad. unfold train_test_dicts_from_mask.
    destruct (select_mols_spec mol_list_dict mol_list (any_axis0 1 mask) Hmols)
      as (test_fp & -> & _).
    destruct (select_mols_spec mol_list_dict mol_list (any_axis0 (-1) mask)
                Hmols) as (train_fp & -> & _).
    cbn.
    destruct (fold_result_raises (λ e, e = IndexError)
                (target_step mol_list target_dict mask)
                (enumerate target_list) (∅, ∅))
      as (e & -> & ->); [| |done].
    + intros [t r] [i key] e Hin%elem_of_enumerate.
      unfold target_step.
      destruct (mask !! i) as [row|]; cbn; [|by intros [= <-]].
      destruct (map_result _ (where_eq 1 row)) as [mols|e'] eqn:Hmap; cbn.
      * destruct (Hkeys key) as [sv ->]; [by eapply list_elem_of_lookup_2|].
        done.
      * intros [= <-]. by apply map_result_lookups_raises in Hmap.
    + destruct Hbad as [Hshort|(i & row & j & Hi & Hrow & Hv & Hj)].
      * destruct (lookup_lt_is_Some_2 target_list (length mask))
          as [key Hkey]; [done|].
        exists (length mask, key). split; [by apply elem_of_enumerate|].
        intros [t r]. unfold target_step.
        rewrite (lookup_ge_None_2 mask) by done. cbn. by eexists.
      * destruct (lookup_lt_is_Some_2 target_list i) as [key Hkey]; [done|].
        exists (i, key). split; [by apply elem_of_enumerate|].
        intros [t r]. unfold target_step. rewrite Hrow. cbn.
        destruct (map_result_raises (λ _, True)
                    (λ j, of_option (mol_list !! j) IndexError)
                    (where_eq 1 row)) as (e0 & _ & ->); [done| |by eexists].
        exists j, IndexError. split; [by apply elem_of_where_eq|].
        by rewrite (lookup_ge_None_2 mol_list).
Qed.
End split_errors.

Lemma train_test_dicts_errors_witness :
  train_test_dicts_from_mask example_split_dict example_split_mols
    {[ "T" := example_target ]} ["T"] []
  = Raise IndexError.
Proof.
  destruct (train_test_dicts_errors example_split_dict example_split_mols
              {[ "T" := example_target ]} ["T"] []) as [_ Herr].
  destruct Herr as [_ Hindex].
  { intros x Hx.
    assert (Forall (λ x, is_Some (example_split_dict !! x))
              example_split_mols) as Hall.
    { apply (bool_decide_unpack _). by vm_compute. }
    rewrite Forall_forall in Hall. by apply Hall. }
  apply Hindex.
  - intros k Hk. apply list_elem_of_singleton in Hk as ->.
    rewrite lookup_singleton_eq. by eexists.
  - left. cbn. lia.
Defined.

(** ** Youden's J *)

Section youden_max.
Context {F : Type} `{!Arith F} `{!ArithTests F} `{!ArithOrder F}.

(** Position [i] holds the first maximum [v] of the list in the order
    [<=] of the doubles. *)
Definition first_max (l : list F) (i : nat) (v : F) : Prop :=
  l !! i = Some v
  ∧ (∀ k w, l !! k = Some w → fle w v = true)
  ∧ (∀ k w, k < i → l !! k = Some w → fle v w = false).

(** The comparison is transitive, and total on what is not NaN. *)
Hypothesis fle_trans :
  ∀ a b c : F, fle a b = true → fle b c = true → fle a c = true.
Hypothesis fle_total :
  ∀ a b : F, fisnan a = false → fisnan b = false →
             fle a b = false → fle b a = true.

Lemma fle_refl (a : F) : fisnan a = false → fle a a = true.
Proof.
  intros Ha. destruct (fle a a) eqn:Haa; [done|].
  pose proof (fle_total a a Ha Ha Haa). congruence.
Qed.

Lemma argmax_from_first_max (pre ip : list F) (mp : F) (max_ind : nat) :
  Forall (λ d, fisnan d = false) (pre ++ ip) →
  first_max pre max_ind mp →
  ∃ v, first_max (pre ++ ip) (argmax_from mp max_ind (length pre) ip) v.
Proof.
  revert pre mp max_ind.
  induction ip as [|x ip IH]; intros pre mp max_ind Hnan Hmax.
  { exists mp. by rewrite app_nil_r. }
  destruct Hmax as (Hi & Hall & Hbefore). apply lookup_lt_Some in Hi as Hlt.
  apply Forall_app in Hnan as Hparts.
  destruct Hparts as [Hpre [Hx Hip]%Forall_cons].
  assert (fisnan mp = false) as Hmp.
  { rewrite Forall_forall in Hpre. apply Hpre.
    by eapply list_elem_of_lookup_2. }
  cbn [argmax_from].
  replace (pre ++ x :: ip) with ((pre ++ [x]) ++ ip) in *
    by (by rewrite <- app_assoc).
  replace (S (length pre)) with (length (pre ++ [x]))
    by (rewrite length_app; cbn; lia).
  destruct (fle x mp) eqn:Hle.
  - apply IH; [done|]. split_and!.
    + by apply lookup_app_l_Some.
    + intros k w [Hk|[_ Hk]]%lookup_app_Some; [by eapply Hall|].
      apply list_lookup_singleton_Some in Hk as [_ <-]. done.
    + intros k w Hk Hw. apply (Hbefore k w Hk).
      rewrite lookup_app_l in Hw by lia. done.
  - rewrite Hx. apply IH; [done|].
    pose proof (fle_total x mp Hx Hmp Hle) as Hmx.
    split_and!.
    + by rewrite list_lookup_middle.
    + intros k w [Hk|[_ Hk]]%lookup_app_Some.
      * eapply fle_trans; [by eapply Hall|done].
      * apply list_lookup_singleton_Some in Hk as [_ <-].
        by apply fle_refl.
    + intros k w Hk Hw. rewrite lookup_app_l in Hw by lia.
      destruct (fle x w) eqn:Hxw; [|done].
      pose proof (fle_trans x w mp Hxw (Hall k w Hw)). congruence.
Qed.

Lemma argmax_first_max (x : F) (l : list F) :
  Forall (λ d, fisnan d = false) (x :: l) →
  ∃ i v, argmax (x :: l) = Ok i ∧ first_max (x :: l) i v.
Proof.
  intros Hnan. apply Forall_cons in Hnan as Hparts.
  destruct Hparts as [Hx _].
  destruct (argmax_from_first_max [x] l x 0) as [v Hv]; [done| |].
  { split_and!; [done| |intros k w Hk; lia].
    intros k w Hk. apply list_lookup_singleton_Some in Hk as [_ <-].
    by apply fle_refl. }
  eexists _, v. split; [|exact Hv]. cbn. by rewrite Hx.
Qed.
End youden_max.

(** X13: Youden's J statistic.  On an empty curve the call fails with
    [ValueError].  On a curve with as many false positive as true positive
    rates, at least one, and none of the computed differences [tp - fp] NaN,
    it returns the computed difference at an index [i] together with the
    point of the curve there; in the order [<=] of the doubles (transitive,
    and total on what is not NaN) every computed difference is at most the
    returned one and no earlier one reaches it, so that among equal computed
    differences the first is taken.  The same value is returned alone when
    no coordinate is asked for. *)
Theorem get_youden_index_max :
  (∀ (F : Type) (A : Arith F) (T : ArithTests F) (O : ArithOrder F)
     (rc : bool),
     get_youden_index (F := F) [] [] rc = Raise ValueError)
  ∧ ∀ (F : Type) (A : Arith F) (T : ArithTests F) (O : ArithOrder F)
      (fp tp : list F),
      (∀ a b c : F, fle a b = true → fle b c = true → fle a c = true) →
      (∀ a b : F, fisnan a = false → fisnan b = false →
                  fle a b = false → fle b a = true) →
      length fp = length tp → fp ≠ [] →
      Forall (λ d, fisnan d = false) (zip_with fsub tp fp) →
      ∃ i x y,
        fp !! i = Some x ∧ tp !! i = Some y
        ∧ get_youden_index fp tp true = Ok (fsub y x, Some (x, y))
        ∧ get_youden_index fp tp false = Ok (fsub y x, None)
        ∧ (∀ k x' y', fp !! k = Some x' → tp !! k = Some y' →
                      fle (fsub y' x') (fsub y x) = true)
        ∧ (∀ k x' y', k < i → fp !! k = Some x' → tp !! k = Some y' →
                      fle (fsub y x) (fsub y' x') = false).
Proof.
  split; [done|].
  intros F A T O fp tp Htrans Htotal Hlen Hne Hnan.
  destruct (zip_with fsub tp fp) as [|j0 js] eqn:Hj.
  { destruct fp, tp; done. }
  destruct (argmax_first_max Htrans Htotal j0 js Hnan)
    as (i & v & Harg & Hi & Hall & Hbefore).
  rewrite <- Hj in Hi, Hall, Hbefore.
  apply lookup_zip_with_Some in Hi as (y & x & -> & Hy & Hx).
  exists i, x, y.
  assert (∀ rc, get_youden_index fp tp rc
                = Ok (fsub y x, if rc then Some (x, y) else None))
    as Hres.
  { intros rc. unfold get_youden_index, get_youden.
    rewrite np_op_same_length by done. cbn [mbind result_bind].
    rewrite Hj, Harg. cbn [mbind result_bind]. rewrite <- Hj.
    rewrite (proj2 (lookup_zip_with_Some fsub tp fp i (fsub y x)))
      by (by exists y, x).
    rewrite Hx, Hy. by destruct rc. }
  split_and!; [done|done|apply Hres|apply Hres| |].
  - intros k x' y' Hx' Hy'. apply (Hall k).
    apply lookup_zip_with_Some. by exists y', x'.
  - intros k x' y' Hk Hx' Hy'. apply (Hbefore k); [done|].
    apply lookup_zip_with_Some. by exists y', x'.
Qed.

Lemma xle_trans (a b c : xreal) :
  xle a b = true → xle b c = true → xle a c = true.
Proof.
  destruct a as [x| | |], b as [y| | |], c as [z| | |]; cbn; try done.
  destruct (Rle_dec x y), (Rle_dec y z), (Rle_dec x z); try done. lra.
Qed.

Lemma xle_total (a b : xreal) :
  xisnan a = false → xisnan b = false → xle a b = false → xle b a = true.
Proof.
  destruct a as [x| | |], b as [y| | |]; cbn; try done.
  destruct (Rle_dec x y), (Rle_dec y x); try done. lra.
Qed.

Lemma get_youden_index_max_witness :
  let fp := [Fin 0; Fin (1 / 10); Fin (4 / 10); Fin 1] in
  let tp := [Fin 0; Fin (7 / 10); Fin 1; Fin 1] in
  ∃ i x y,
    fp !! i = Some x ∧ tp !! i = Some y
    ∧ get_youden_index fp tp true = Ok (fsub y x, Some (x, y))
    ∧ fle (fsub (Fin 1) (Fin (4 / 10))) (fsub y x) = true.
Proof.
  cbn zeta. destruct get_youden_index_max as [_ Hmax].
  destruct (Hmax xreal xreal_arith xreal_tests xreal_order
              [Fin 0; Fin (1 / 10); Fin (4 / 10); Fin 1]
              [Fin 0; Fin (7 / 10); Fin 1; Fin 1] xle_trans xle_total)
    as (i & x & y & Hx & Hy & Hres & _ & Hall & _); [done|done| |].
  { by repeat constructor. }
  exists i, x, y. split_and!; [done|done|done|].
  by apply (Hall 2).
Defined.

(** ** logAUC: curves below the cutoff *)

Section logauc_edges.
Context {F : Type} `{!Arith F} `{!ArithTests F}.

Lemma np_lt_below (x v : F) : flt x v = true → np_lt x v = true.
Proof. intros Hx. unfold np_lt. by rewrite Hx. Qed.

Lemma searchsorted_all_below (a : list F) (v : F) :
  Forall (λ x, flt x v = true) a → searchsorted a v = length a.
Proof.
  induction 1 as [|x a Hx _ IH]; cbn; [done|].
  by rewrite np_lt_below, IH.
Qed.

Lemma searchsorted_first (pre post : list F) (x v : F) :
  Forall (λ x, flt x v = true) pre → np_lt x v = false →
  searchsorted (pre ++ x :: post) v = length pre.
Proof.
  intros Hpre Hx. induction Hpre as [|y pre Hy _ IH]; cbn; [by rewrite Hx|].
  by rewrite np_lt_below, IH.
Qed.

(** X14: A curve all of whose false positive rates lie below the cutoff (an
    empty curve among them) has no segment left after the truncation.  At a
    cutoff of zero the call raises [ZeroDivisionError]; at any other cutoff
    the logAUC is the empty sum, and the adjusted logAUC the empty sum minus
    the constant. *)
Theorem get_logauc_below_cutoff (fp tp : list F) (min_fp : F)
    (adjusted : bool) :
  length fp = length tp → Forall (λ x, flt x min_fp = true) fp →
  get_logauc fp tp min_fp adjusted
  = if fiszero min_fp then Raise ZeroDivisionError
    else Ok (if adjusted
             then fsub (fsum []) (fconst (144620062 # 1000000000))
             else fsum []).
Proof.
  intros Hlen Hbelow. destruct (fiszero min_fp) eqn:Hz.
  { by apply get_logauc_zero_cutoff. }
  rewrite get_logauc_by_segments by done. cbn zeta.
  unfold logauc_by_segments, truncated_points.
  rewrite searchsorted_all_below by done.
  rewrite drop_ge by (rewrite length_zip_with; lia).
  assert (∀ pts, (∃ p, pts = [p]) ∨ pts = [] →
            segment_areas linear_intercept
              (flog10 (fdiv (fconst 1) min_fp)) pts = []) as Hnil.
  { intros pts [[p ->]| ->]; done. }
  rewrite Hnil; [done|].
  destruct (length fp) as [|i]; [by right|].
  destruct (tp !! i); [left; by eexists|by right].
Qed.
End logauc_edges.

Lemma get_logauc_below_cutoff_witness :
  get_logauc [Fin (1 / 10000); Fin (5 / 10000)]
    [Fin (1 / 10); Fin (2 / 10)] (Fin (1 / 1000)) false
  = Ok (Fin 0)
  ∧ get_logauc [Fin (- (1)); Fin (- (1 / 2))]
      [Fin (1 / 10); Fin (2 / 10)] (Fin 0) false
    = Raise ZeroDivisionError.
Proof.
  split.
  - rewrite (get_logauc_below_cutoff (F := xreal)); [|done|].
    + by rewrite xiszero_fin by lra.
    + repeat constructor; apply xlt_fin_true; lra.
  - rewrite (get_logauc_below_cutoff (F := xreal)); [|done|].
    + by rewrite xiszero_zero.
    + repeat constructor; apply xlt_fin_true; lra.
Defined.

(** ** logAUC: segments without width *)

Lemma xdiv_zero_zero (x y : R) : x = 0%R → y = 0%R → xdiv (Fin x) (Fin y) = NaN.
Proof.
  intros -> ->. unfold xdiv, inf_of_sign.
  destruct (Req_dec_T 0 0) as [_|Hne]; [|done].
  destruct (Rlt_dec 0 0) as [Hlt|_]; [lra|done].
Qed.


Lemma xmul_nan_l (a : xreal) : xmul NaN a = NaN.
Proof. done. Qed.

Lemma xadd_nan_r (a : xreal) : xadd a NaN = NaN.
Proof. by destruct a. Qed.

Lemma fsum_nan (l : list xreal) : NaN ∈ l → foldr xadd (Fin 0) l = NaN.
Proof.
  induction l as [|a l IH]; [by intros ?%elem_of_nil|].
  intros [<-|Hin]%elem_of_cons; cbn [foldr]; [done|].
  rewrite (IH Hin). by destruct a.
Qed.

Lemma segment_areas_lookup {F : Type} `{!Arith F}
    (intercept : F * F → F * F → F) (norm : F) (pts : list (F * F))
    (k : nat) (p0 p1 : F * F) :
  pts !! k = Some p0 → pts !! S k = Some p1 →
  segment_areas intercept norm pts !! k
  = Some (segment_area intercept norm p0 p1).
Proof.
  revert k. induction pts as [|q0 pts IH]; intros k H0 H1; [done|].
  destruct pts as [|q1 pts]; [done|].
  destruct k as [|k]; cbn in *; [by simplify_eq|]. by apply IH.
Qed.

Lemma segment_area_repeated (norm : xreal) (x y : R) :
  segment_area linear_intercept norm (Fin x, Fin y) (Fin x, Fin y) = NaN.
Proof.
  unfold segment_area, linear_intercept. xreal_unfold. xreal_fin.
  rewrite (xdiv_zero_zero (y - y) (x - x)) by lra.
  change (xmul (Fin x) NaN) with NaN. change (xsub (Fin y) NaN) with NaN.
  change (xisinf NaN) with false. cbv iota.
  by rewrite xmul_nan_l, xadd_nan_r.
Qed.

(** X15: Two successive points of the truncated curve that are one and the
    same finite point make the logAUC NaN (the slope between them is
    [0 / 0]), adjusted or not and whatever the rest of the curve.  This is
    stated for finite false positive rates in non-decreasing order and a
    finite cutoff other than zero.  It is what happens when a false positive
    rate equals the cutoff and the true positive rate did not change there:
    the point the truncation puts in front is that very point. *)
Theorem get_logauc_repeated_point :
  (∀ (fxs : list R) (tp : list xreal) (m : R) (adjusted : bool)
     (xs ys : list xreal) (k : nat) (x y : R),
     Sorted Rle fxs → m ≠ 0%R →
     length fxs = length tp →
     truncate_curve (Fin <$> fxs) tp (Fin m) = Ok (xs, ys) →
     xs !! k = Some (Fin x) → xs !! S k = Some (Fin x) →
     ys !! k = Some (Fin y) → ys !! S k = Some (Fin y) →
     get_logauc (Fin <$> fxs) tp (Fin m) adjusted = Ok NaN)
  ∧ ∀ (m t : R) (pre post : list R) (tpre tpost : list xreal)
      (adjusted : bool),
      Sorted Rle (pre ++ m :: post) → m ≠ 0%R →
      Forall (λ x, (x < m)%R) pre →
      length tpre + 1 = length pre → length tpost = length post →
      get_logauc (Fin <$> pre ++ m :: post)
        (tpre ++ Fin t :: Fin t :: tpost) (Fin m) adjusted
      = Ok NaN.
Proof.
  assert (∀ (fp tp : list xreal) (m : R) (adjusted : bool)
            (xs ys : list xreal) (k : nat) (x y : R),
            m ≠ 0%R →
            length fp = length tp →
            truncate_curve fp tp (Fin m) = Ok (xs, ys) →
            xs !! k = Some (Fin x) → xs !! S k = Some (Fin x) →
            ys !! k = Some (Fin y) → ys !! S k = Some (Fin y) →
            get_logauc fp tp (Fin m) adjusted = Ok NaN) as Hgen.
  { intros fp tp m adjusted xs ys k x y Hm Hlen Htrunc Hx0 Hx1 Hy0 Hy1.
    destruct (truncate_curve_points fp tp (Fin m) Hlen)
      as (xs' & ys' & Heq & _ & Hzip).
    rewrite Htrunc in Heq. injection Heq as <- <-.
    rewrite get_logauc_by_segments by (done || by apply xiszero_fin).
    cbn zeta.
    unfold logauc_by_segments. rewrite <- Hzip.
    cbn [fsum xreal_arith]. rewrite fsum_nan; [by destruct adjusted|].
    apply (list_elem_of_lookup_2 _ k).
    rewrite (segment_areas_lookup _ _ _ k (Fin x, Fin y) (Fin x, Fin y)).
    - by rewrite segment_area_repeated.
    - apply lookup_zip_with_Some. by eexists _, _.
    - apply lookup_zip_with_Some. by eexists _, _. }
  split.
  { intros fxs tp m adjusted xs ys k x y _ Hm Hlen.
    apply Hgen; [done|]. by rewrite length_fmap. }
  intros m t pre post tpre tpost adjusted _ Hm Hpre Htpre Htpost.
  rewrite fmap_app, fmap_cons.
  apply (Hgen _ _ _ _ (Fin m :: Fin m :: (Fin <$> post))
           (Fin t :: Fin t :: tpost) 0 m t); try done.
  { rewrite !length_app. cbn. rewrite !length_fmap. lia. }
  unfold truncate_curve.
  rewrite (searchsorted_first (F := xreal) (Fin <$> pre) (Fin <$> post)
             (Fin m) (Fin m)).
  2: { apply Forall_fmap. eapply Forall_impl; [exact Hpre|].
       intros x Hx. by apply xlt_fin_true. }
  2: { rewrite np_lt_fin. apply xlt_fin_false. lra. }
  rewrite length_fmap.
  rewrite decide_True by lia.
  replace (length pre - 1) with (length tpre) by lia.
  rewrite list_lookup_middle by done. cbn.
  replace (length pre) with (length (Fin <$> pre)) at 1
    by apply length_fmap.
  rewrite drop_app_length.
  replace (tpre ++ Fin t :: Fin t :: tpost)
    with ((tpre ++ [Fin t]) ++ Fin t :: tpost) by (by rewrite <- app_assoc).
  rewrite drop_app_length'; [done|]. rewrite length_app. cbn. lia.
Qed.

Lemma get_logauc_repeated_point_witness :
  get_logauc (Fin <$> [0; 1 / 1000; 1]%R)
    [Fin (1 / 2); Fin (1 / 2); Fin 1] (Fin (1 / 1000)) false
  = Ok NaN.
Proof.
  destruct get_logauc_repeated_point as [_ Hcut].
  apply (Hcut (1 / 1000)%R (1 / 2)%R [0%R] [1%R] [] [Fin 1] false);
    [|lra| |done|done].
  - repeat constructor; lra.
  - repeat constructor. lra.
Defined.



(** ** Dicts of metrics *)

Section comprehension.
Context {A B : Type}.
Implicit Types (f : A → result B) (d : gmap string A).

Lemma map_result_inv {X Y} (g : X → result Y) (l : list X) (ys : list Y) :
  map_result g l = Ok ys → Forall2 (λ x y, g x = Ok y) l ys.
Proof.
  revert ys. induction l as [|x l IH]; intros ys; cbn.
  { intros [= <-]. constructor. }
  destruct (g x) as [y|] eqn:Hx; cbn; [|done].
  destruct (map_result g l) as [ys'|]; cbn; [|done].
  intros [= <-]. constructor; [done|]. by apply IH.
Qed.

Lemma map_result_some_raises {X Y} (g : X → result Y) (l : list X) :
  (∃ x e, x ∈ l ∧ g x = Raise e) →
  ∃ x e, x ∈ l ∧ g x = Raise e ∧ map_result g l = Raise e.
Proof.
  induction l as [|y l IH]; intros (x & e & Hx & He).
  { by apply elem_of_nil in Hx. }
  cbn. destruct (g y) as [b|e'] eqn:Hy; cbn.
  - destruct IH as (x' & e0 & Hx' & He0 & ->).
    + apply elem_of_cons in Hx as [->|Hx]; [congruence|eauto].
    + exists x', e0. split_and!; [by right|done|done].
  - exists y, e'. split_and!; [by left|done|done].
Qed.

Lemma dict_comprehension_inv f d (r : gmap string B) :
  dict_comprehension f d = Ok r →
  dom r = dom d
  ∧ ∀ k v, d !! k = Some v → ∃ b, f v = Ok b ∧ r !! k = Some b.
Proof.
  unfold dict_comprehension.
  destruct (map_result _ (map_to_list d)) as [kvs|] eqn:Hkvs; cbn; [|done].
  intros [= <-]. apply map_result_inv in Hkvs.
  assert (kvs.*1 = (map_to_list d).*1) as Hfst.
  { clear -Hkvs. induction Hkvs as [|[k v] [k' b] l l' Hkv _ IH]; [done|].
    cbn in *. destruct (f v); cbn in Hkv; [|done]. injection Hkv as <- _.
    by rewrite IH. }
  assert (NoDup (kvs.*1)) as Hnd.
  { rewrite Hfst. apply NoDup_fst_map_to_list. }
  split.
  - apply set_eq. intros k. rewrite dom_list_to_map_L, elem_of_list_to_set.
    rewrite Hfst, elem_of_dom. rewrite list_elem_of_fmap. split.
    + intros ([k' v] & -> & Hin%elem_of_map_to_list). by eexists.
    + intros [v Hv]. exists (k, v). split; [done|].
      by apply elem_of_map_to_list.
  - intros k v Hv. apply elem_of_map_to_list in Hv.
    apply list_elem_of_lookup in Hv as [i Hi].
    destruct (Forall2_lookup_l _ _ _ _ _ Hkvs Hi) as ([k' b] & Hb & Hfb).
    cbn in Hfb. destruct (f v) as [b'|] eqn:Hfv; cbn in Hfb; [|done].
    injection Hfb as <- <-. exists b'. split; [done|].
    apply elem_of_list_to_map; [done|]. by eapply list_elem_of_lookup_2.
Qed.

Lemma dict_comprehension_raises f d :
  (∃ k v e, d !! k = Some v ∧ f v = Raise e) →
  ∃ k v e, d !! k = Some v ∧ f v = Raise e
           ∧ dict_comprehension f d = Raise e.
Proof.
  intros (k & v & e & Hv & He). unfold dict_comprehension.
  destruct (map_result_some_raises
              (λ kv : string * A, b ← f kv.2; Ok (kv.1, b))
              (map_to_list d)) as ([k' v'] & e' & Hin & He' & ->).
  { exists (k, v), e. split; [by apply elem_of_map_to_list|].
    cbn. by rewrite He. }
  cbn in He'. destruct (f v') as [b|e0] eqn:Hv'; cbn in He'; [done|].
  injection He' as <-. exists k', v', e0.
  split_and!; [by apply elem_of_map_to_list|done|done].
Qed.

Lemma dict_comprehension_ok f (g : A → B) d :
  (∀ k v, d !! k = Some v → f v = Ok (g v)) →
  dict_comprehension f d = Ok (g <$> d).
Proof.
  intros Hall. unfold dict_comprehension.
  rewrite (map_result_ok _ (λ kv : string * A, (kv.1, g kv.2))).
  2: { intros [k v] Hin%elem_of_map_to_list. cbn. by rewrite (Hall k v). }
  cbn. f_equal. apply map_eq. intros k. rewrite lookup_fmap.
  destruct (d !! k) as [v|] eqn:Hk; cbn.
  - apply elem_of_list_to_map.
    + rewrite <- list_fmap_compose. apply NoDup_fst_map_to_list.
    + apply list_elem_of_fmap. exists (k, v). split; [done|].
      by apply elem_of_map_to_list.
  - apply not_elem_of_list_to_map. rewrite <- list_fmap_compose.
    intros Hin. apply list_elem_of_fmap in Hin as ([k' v] & -> & Hin).
    apply elem_of_map_to_list in Hin. cbn in Hk. congruence.
Qed.
End comprehension.

Lemma dict_comprehension_empty {A B : Type} (f : A → result B) :
  dict_comprehension f ∅ = Ok ∅.
Proof. unfold dict_comprehension. by rewrite map_to_list_empty. Qed.

(** X17: The two dicts of metrics.  Whatever [auc_dict_from_fp_tp_dict] returns
    has the keys of its argument, each with the AUC of its curve; a curve on
    which the AUC fails makes the call fail with the error of such a curve.
    [logauc_dict_from_fp_tp_dict] returns on every dict whose curves have as
    many false positive as true positive rates, each key with the logAUC of
    its curve at the cutoff 0.001, not adjusted.  (An arithmetic in which
    the constant 0.001 tests as zero, which the doubles are not, would have
    it raise [ZeroDivisionError] on every dict but the empty one.) *)
Theorem metric_dicts_from_fp_tp_dict {F : Type} `{!Arith F} `{!ArithTests F}
    `{!Sklearn F} (d : gmap string (list F * list F)) :
  (∀ r, auc_dict_from_fp_tp_dict d = Ok r →
        dom r = dom d
        ∧ ∀ k v, d !! k = Some v →
                 ∃ a, get_auc v.1 v.2 false = Ok a ∧ r !! k = Some a)
  ∧ ((∃ k v e, d !! k = Some v ∧ get_auc v.1 v.2 false = Raise e) →
     ∃ k v e, d !! k = Some v ∧ get_auc v.1 v.2 false = Raise e
              ∧ auc_dict_from_fp_tp_dict d = Raise e)
  ∧ ((∀ k v, d !! k = Some v → length v.1 = length v.2) →
     if fiszero (fconst (1 # 1000) : F)
     then logauc_dict_from_fp_tp_dict d
          = (if decide (d = ∅) then Ok ∅ else Raise ZeroDivisionError)
     else ∃ r, logauc_dict_from_fp_tp_dict d = Ok r
               ∧ dom r = dom d
               ∧ ∀ k v, d !! k = Some v →
                        ∃ a, get_logauc v.1 v.2 (fconst (1 # 1000)) false
                             = Ok a
                             ∧ r !! k = Some a).
Proof.
  split_and!.
  - intros r Hr. by apply dict_comprehension_inv in Hr.
  - apply dict_comprehension_raises.
  - intros Hlen. unfold logauc_dict_from_fp_tp_dict.
    destruct (fiszero (fconst (1 # 1000) : F)) eqn:Hz.
    { destruct (decide (d = ∅)) as [->|Hne].
      { apply dict_comprehension_empty. }
      apply map_choose in Hne as (k & v & Hv).
      destruct (dict_comprehension_raises
                  (λ v : list F * list F,
                     get_logauc v.1 v.2 (fconst (1 # 1000)) false) d)
        as (k' & v' & e & Hv' & He & ->).
      { exists k, v, ZeroDivisionError. split; [done|].
        apply get_logauc_zero_cutoff; [by eapply Hlen|done]. }
      rewrite get_logauc_zero_cutoff in He by (by eapply Hlen || done).
      congruence. }
    rewrite (dict_comprehension_ok _
               (λ v, logauc_by_segments linear_intercept v.1 v.2
                       (fconst (1 # 1000)))).
    2: { intros k v Hv.
         by rewrite get_logauc_by_segments by (by eapply Hlen || done). }
    eexists. split; [done|]. split; [by rewrite dom_fmap_L|].
    intros k v Hv. eexists. split.
    + by rewrite get_logauc_by_segments by (by eapply Hlen || done).
    + by rewrite lookup_fmap, Hv.
Qed.

Lemma metric_dicts_from_fp_tp_dict_witness :
  ∃ r, logauc_dict_from_fp_tp_dict
         ({[ "T" := ([Fin (1 / 10000)], [Fin (1 / 10)]) ]}
            : gmap string (list xreal * list xreal))
       = Ok r
       ∧ dom r = {[ "T" ]}.
Proof.
  pose (sk := {| sk_auc := λ _ _, Raise ValueError;
                 roc_arrays := λ _ _ _ _, ([], [], []);
                 precision_recall_curve := λ _ _ _, Raise ValueError |}
              : Sklearn xreal).
  destruct (metric_dicts_from_fp_tp_dict (F := xreal)
              {[ "T" := ([Fin (1 / 10000)], [Fin (1 / 10)]) ]})
    as (_ & _ & Hlog).
  rewrite xiszero_cutoff in Hlog.
  destruct Hlog as (r & Hr & Hdom & _).
  { intros k v [<- <-]%lookup_singleton_Some. done. }
  exists r. split; [exact Hr|]. by rewrite Hdom, dom_singleton_L.
Defined.

(** ** Averages and differences of dicts *)






(** X19: The difference of two dicts has the keys the two share: a key of one
    dict only is dropped, it is not an error.  The difference of a dict of
    finite values with itself is zero at every key, and exchanging the two
    dicts negates every finite difference. *)
Theorem get_delta_auc_dict_keys :
  (∀ (F : Type) (A : Arith F) (d1 d2 : gmap string F),
     dom (get_delta_auc_dict d1 d2) = dom d1 ∩ dom d2)
  ∧ (∀ d : gmap string R,
       get_delta_auc_dict (Fin <$> d) (Fin <$> d) = (λ _, Fin 0) <$> d)
  ∧ ∀ d1 d2 : gmap string R,
      get_delta_auc_dict (Fin <$> d2) (Fin <$> d1)
      = xneg <$> get_delta_auc_dict (Fin <$> d1) (Fin <$> d2).
Proof.
  split_and!.
  - intros F A d1 d2. unfold get_delta_auc_dict. apply set_eq. intros k.
    rewrite elem_of_intersection, !elem_of_dom, map_lookup_zip_with.
    destruct (d1 !! k), (d2 !! k); cbn; split;
      try (by intros [? ?]); try (by intros [[? ?] [? ?]]); by eauto.
  - intros d. unfold get_delta_auc_dict. apply map_eq. intros k.
    rewrite map_lookup_zip_with, !lookup_fmap.
    destruct (d !! k) as [r|]; cbn; [|done].
    rewrite xsub_fin. f_equal. apply Fin_eq. lra.
  - intros d1 d2. unfold get_delta_auc_dict. apply map_eq. intros k.
    rewrite lookup_fmap, !map_lookup_zip_with, !lookup_fmap.
    destruct (d1 !! k) as [r1|], (d2 !! k) as [r2|]; cbn; try done.
    rewrite !xsub_fin. f_equal. unfold xneg. apply Fin_eq. lra.
Qed.

(** ** logAUC: a level curve *)

Section level_curve.
Local Open Scope R_scope.



End level_curve.


(** ** The semilog curve *)

Lemma searchsorted_sorted (xs : list R) (m : R) :
  Sorted Rle xs →
  Forall (λ v, (m <= v)%R) (drop (searchsorted (Fin <$> xs) (Fin m)) xs)
  ∧ Forall (λ v, (v < m)%R) (take (searchsorted (Fin <$> xs) (Fin m)) xs).
Proof.
  induction xs as [|x xs IH]; intros Hs; [by split|].
  apply Sorted_StronglySorted in Hs; [|intros ???; apply Rle_trans].
  apply StronglySorted_inv in Hs as [Hs Hall].
  rewrite fmap_cons. cbn [searchsorted]. rewrite ?np_lt_fin.
  destruct (Rlt_dec x m) as [Hlt|Hge].
  - rewrite xlt_fin_true by done. cbn [drop take].
    destruct IH as [IH1 IH2]; [by apply StronglySorted_Sorted|].
    split; [done|]. by constructor.
  - rewrite xlt_fin_false by lra. cbn. split; [|done].
    constructor; [lra|]. eapply Forall_impl; [exact Hall|].
    intros v Hv. cbn in Hv. lra.
Qed.

(** X21: The semilog curve.  For a positive cutoff and finite false positive
    rates in non-decreasing order, as many as there are true positive
    rates, [get_logroc] returns as many x as y values; the y values are the
    true positive rates from the first point at or above the cutoff on,
    behind the rate of the point before it when there is one; every x value
    is finite and at least [log10 min_fp], so that a false positive rate of
    zero never reaches the logarithm; and when the curve starts below the
    cutoff the first x value is [log10 min_fp]. *)
Theorem get_logroc_finite (xs : list R) (tp : list xreal) (m : R) :
  (0 < m)%R → Sorted Rle xs → length xs = length tp →
  let index := searchsorted (Fin <$> xs) (Fin m) in
  ∃ lx ys,
    get_logroc (Fin <$> xs) tp (Fin m) = Ok (Fin <$> lx, ys)
    ∧ length lx = length ys
    ∧ ys = match index with
           | 0 => tp
           | S i => option_list (tp !! i) ++ drop index tp
           end
    ∧ Forall (λ v, (ln m / ln 10 <= v)%R) lx
    ∧ (0 < index → head lx = Some (ln m / ln 10)%R).
Proof.
  intros Hm Hs Hlen index. pose proof ln_10_pos as HL.
  destruct (searchsorted_sorted xs m Hs) as [Hge _]. fold index in Hge.
  assert (index ≤ length xs) as Hidx.
  { unfold index. etrans; [apply searchsorted_le|]. by rewrite length_fmap. }
  assert (∀ l, Forall (λ v, (m <= v)%R) l →
            xlog10 <$> (Fin <$> l) = Fin <$> ((λ v, (ln v / ln 10)%R) <$> l)
            ∧ Forall (λ v, (ln m / ln 10 <= v)%R)
                ((λ v, (ln v / ln 10)%R) <$> l)) as Hlog.
  { intros l Hl. split.
    - rewrite <- !list_fmap_compose. apply Forall_fmap_ext.
      eapply Forall_impl; [exact Hl|]. intros v Hv. cbn.
      apply xlog10_fin. lra.
    - apply Forall_fmap. eapply Forall_impl; [exact Hl|]. intros v Hv. cbn.
      apply Rmult_le_compat_r; [apply Rlt_le, Rinv_0_lt_compat; lra|].
      apply ln_mono; lra. }
  unfold get_logroc, truncate_curve. fold index.
  destruct index as [|i] eqn:Hi.
  - rewrite decide_False by lia. cbn. rewrite !drop_0 in *.
    destruct (Hlog xs Hge) as [-> Hall].
    eexists _, _. split_and!; [done| |done|done|lia].
    by rewrite length_fmap.
  - rewrite decide_True by lia. replace (S i - 1) with i by lia.
    destruct (lookup_lt_is_Some_2 tp i) as [y0 Hy0]; [lia|].
    rewrite Hy0.
    cbn [mbind result_bind of_option option_bind default flog10 xreal_arith].
    rewrite <- fmap_drop.
    change (Fin m :: (Fin <$> drop (S i) xs))
      with (Fin <$> m :: drop (S i) xs).
    destruct (Hlog (m :: drop (S i) xs)) as [-> Hall].
    { constructor; [lra|done]. }
    eexists _, _. split_and!; [done| |done|done|done].
    cbn. rewrite length_fmap, !length_drop. lia.
Qed.

Lemma get_logroc_finite_witness :
  ∃ lx ys,
    get_logroc (Fin <$> [0; 1 / 2; 1]%R) [Fin 0; Fin (1 / 2); Fin 1]
      (Fin (1 / 1000))
    = Ok (Fin <$> lx, ys)
    ∧ head lx = Some (ln (1 / 1000) / ln 10)%R.
Proof.
  destruct (get_logroc_finite [0; 1 / 2; 1]%R [Fin 0; Fin (1 / 2); Fin 1]
              (1 / 1000)) as (lx & ys & Hres & _ & _ & _ & Hhead).
  - lra.
  - repeat constructor; lra.
  - done.
  - exists lx, ys. split; [done|]. apply Hhead.
    cbn [fmap list_fmap searchsorted]. rewrite ?np_lt_fin.
    rewrite xlt_fin_true by lra. lia.
Defined.

(** ** File names *)

(** [c in s] *)
Fixpoint str_in (c : ascii) (s : string) : bool :=
  match s with
  | "" => false
  | String a s' => bool_decide (a = c) || str_in c s'
  end.

Lemma append_nil_l (s : string) : "" +:+ s = s.
Proof. done. Qed.

Lemma append_cons (a : ascii) (s t : string) :
  String a s +:+ t = String a (s +:+ t).
Proof. done. Qed.

Lemma append_assoc (s t u : string) : (s +:+ t) +:+ u = s +:+ t +:+ u.
Proof.
  induction s as [|a s IH]; [done|]. by rewrite !append_cons, IH.
Qed.

Lemma str_in_append (c : ascii) (s t : string) :
  str_in c (s +:+ t) = str_in c s || str_in c t.
Proof.
  induction s as [|a s IH]; [done|]. rewrite append_cons. cbn.
  rewrite IH. by destruct (bool_decide (a = c)).
Qed.

Lemma rfind_from_append (c : ascii) (s t : string) (i found : Z) :
  rfind_from c (s +:+ t) i found
  = rfind_from c t (i + Z.of_nat (String.length s)) (rfind_from c s i found).
Proof.
  revert i found. induction s as [|a s IH]; intros i found.
  - rewrite append_nil_l. cbn. by rewrite Z.add_0_r.
  - rewrite append_cons. cbn [rfind_from String.length]. rewrite IH.
    f_equal. lia.
Qed.

Lemma rfind_from_absent (c : ascii) (s : string) (i found : Z) :
  str_in c s = false → rfind_from c s i found = found.
Proof.
  revert i found. induction s as [|a s IH]; intros i found; [done|].
  cbn. intros [Ha Hs]%orb_false_elim. apply bool_decide_eq_false in Ha.
  rewrite decide_False by done. by apply IH.
Qed.

Lemma rfind_absent (c : ascii) (s : string) :
  str_in c s = false → rfind s c = (-1)%Z.
Proof. apply rfind_from_absent. Qed.

Lemma rfind_last (c : ascii) (s t : string) :
  str_in c t = false →
  rfind (s +:+ String c t) c = Z.of_nat (String.length s).
Proof.
  intros Ht. unfold rfind. rewrite rfind_from_append. cbn [rfind_from].
  rewrite decide_True by done. rewrite rfind_from_absent by done. lia.
Qed.

Lemma str_from_append (s t : string) :
  str_from (String.length s) (s +:+ t) = t.
Proof. induction s as [|a s IH]; [by destruct t|]. by rewrite append_cons. Qed.

Lemma str_to_append (s t : string) :
  str_to (String.length s) (s +:+ t) = s.
Proof.
  induction s as [|a s IH]; [by destruct t|]. rewrite append_cons. cbn.
  by rewrite IH.
Qed.

Lemma get_append_cons (s t : string) (a : ascii) :
  String.get (String.length s) (s +:+ String a t) = Some a.
Proof. induction s as [|b s IH]; [done|]. by rewrite append_cons. Qed.

Lemma length_append_cons (s t : string) (a : ascii) :
  String.length (s +:+ String a t) = S (String.length s + String.length t).
Proof. rewrite length_append. cbn. lia. Qed.

(** The name without its last extension, for a name without directory that
    has a character other than a dot before the extension. *)
Lemma splitext_ext (stem ext : string) :
  str_in "/" stem = false → str_in "/" ext = false →
  str_in "." ext = false →
  (∃ k a, String.get k stem = Some a ∧ a ≠ "."%char) →
  os_path_splitext (stem +:+ String "." ext) = (stem, String "." ext).
Proof.
  intros Hstem Hext Hdot (k & a & Hk & Ha). unfold os_path_splitext.
  rewrite rfind_absent.
  2: { rewrite str_in_append, Hstem. cbn. by rewrite Hext. }
  rewrite rfind_last by done. cbn zeta.
  rewrite decide_True by lia.
  replace (Z.to_nat (-1 + 1)) with 0 by lia.
  replace (Z.to_nat (Z.of_nat (String.length stem) - (-1 + 1)))
    with (String.length stem) by lia.
  rewrite Nat2Z.id.
  assert (existsb (λ filenameIndex,
                     bool_decide (String.get filenameIndex
                                    (stem +:+ String "." ext) ≠ Some "."%char))
            (seq 0 (String.length stem)) = true) as ->.
  { assert (k < String.length stem) as Hlt.
    { destruct (decide (k < String.length stem)) as [|Hge]; [done|].
      exfalso. revert Hk. clear -Hge. revert k Hge.
      induction stem as [|b s IH]; intros k Hge; [by destruct k|].
      destruct k as [|k]; cbn in *; [lia|]. apply IH. lia. }
    apply existsb_exists. exists k. split.
    - apply in_seq. lia.
    - apply bool_decide_eq_true.
      rewrite <- (String.append_correct1 _ (String "." ext) _ Hlt), Hk.
      congruence. }
  by rewrite str_to_append, str_from_append.
Qed.

(** The last component of a path. *)
Lemma basename_append (dir name : string) :
  str_in "/" name = false →
  os_path_basename (dir +:+ String "/" name) = name.
Proof.
  intros Hname. unfold os_path_basename. rewrite rfind_last by done.
  cbn zeta.
  replace (Z.to_nat (Z.of_nat (String.length dir) + 1))
    with (String.length (dir +:+ "/")).
  2: { rewrite length_append. cbn. lia. }
  replace (dir +:+ String "/" name) with ((dir +:+ "/") +:+ name)
    by (by rewrite append_assoc).
  apply str_from_append.
Qed.

(** The decimal writing of an integer: not empty, and made of digits and
    the sign. *)
Definition is_digit_or_sign (c : ascii) : Prop :=
  (∃ k, c = pretty_N_char k) ∨ c = "-"%char.

Lemma pretty_N_go_in (c : ascii) (x : N) (s : string) :
  str_in c (pretty_N_go x s) = true →
  str_in c s = true ∨ is_digit_or_sign c.
Proof.
  revert s. induction (N.lt_wf_0 x) as [x _ IH]; intros s.
  assert (x = 0 ∨ 0 < x)%N as [->|Hx] by lia.
  - rewrite pretty_N_go_0. by left.
  - rewrite pretty_N_go_step by done. intros Hin.
    apply IH in Hin as [Hin|Hin]; [|by right|by apply N.div_lt].
    cbn in Hin. apply orb_true_iff in Hin as [Hc|Hs]; [|by left].
    apply bool_decide_eq_true in Hc. right. left. by eexists.
Qed.

Lemma pretty_N_go_nonempty (x : N) (s : string) :
  s ≠ "" → pretty_N_go x s ≠ "".
Proof.
  revert s. induction (N.lt_wf_0 x) as [x _ IH]; intros s Hs.
  assert (x = 0 ∨ 0 < x)%N as [->|Hx] by lia.
  - by rewrite pretty_N_go_0.
  - rewrite pretty_N_go_step by done. apply IH; [by apply N.div_lt|done].
Qed.

Lemma pretty_Z_in (c : ascii) (i : Z) :
  str_in c (pretty i) = true → is_digit_or_sign c.
Proof.
  assert (∀ p : positive, str_in c (pretty p) = true → is_digit_or_sign c)
    as Hpos.
  { intros p. unfold pretty, pretty_positive, pretty, pretty_N.
    rewrite decide_False by done. intros [Hin|Hin]%pretty_N_go_in; done. }
  destruct i as [|p|p]; unfold pretty at 1, pretty_Z.
  - cbn. rewrite orb_false_r. intros Hc%bool_decide_eq_true.
    left. by exists 0%N.
  - apply Hpos.
  - rewrite str_in_append. intros [Hc|Hc]%orb_true_iff; [|by apply (Hpos p)].
    cbn in Hc. rewrite orb_false_r in Hc. apply bool_decide_eq_true in Hc.
    by right.
Qed.

Lemma pretty_Z_nonempty (i : Z) : pretty i ≠ "".
Proof.
  assert (∀ p : positive, pretty p ≠ "") as Hpos.
  { intros p. unfold pretty, pretty_positive, pretty, pretty_N.
    rewrite decide_False by done.
    rewrite pretty_N_go_step by lia. by apply pretty_N_go_nonempty. }
  destruct i as [|p|p]; unfold pretty, pretty_Z; [done|apply Hpos|done].
Qed.

Lemma not_digit_or_sign (c : ascii) :
  c = "/"%char ∨ c = "."%char ∨ c = "_"%char → ¬ is_digit_or_sign c.
Proof.
  intros Hc [[k ->]| ->].
  - unfold pretty_N_char in Hc. repeat case_match; naive_solver.
  - naive_solver.
Qed.

Lemma pretty_Z_no_slash (i : Z) : str_in "/" (pretty i) = false.
Proof.
  destruct (str_in "/" (pretty i)) eqn:Hin; [|done].
  apply pretty_Z_in in Hin. by apply not_digit_or_sign in Hin; [|left].
Qed.

Lemma str_in_rev_app (c : ascii) (s acc : string) :
  str_in c (String.rev_app s acc) = str_in c s || str_in c acc.
Proof.
  revert acc. induction s as [|a s IH]; intros acc; [done|].
  cbn. rewrite IH. cbn. by destruct (bool_decide (a = c)), (str_in c s).
Qed.

Lemma rev_app_nonempty (s acc : string) :
  acc ≠ "" → String.rev_app s acc ≠ "".
Proof.
  revert acc. induction s as [|a s IH]; intros acc Hacc; [done|].
  cbn. by apply IH.
Qed.

Lemma startswith_absent (c : ascii) (s : string) :
  str_in c s = false → startswith s (String c "") = false.
Proof.
  unfold startswith. destruct s as [|a s]; [done|]. cbn.
  intros [Ha _]%orb_false_elim. apply bool_decide_eq_false in Ha.
  destruct (ascii_dec c a); [by subst|done].
Qed.

Lemma startswith_char_append (c : ascii) (s t : string) :
  s ≠ "" →
  startswith (s +:+ t) (String c "") = startswith s (String c "").
Proof.
  intros Hs. destruct s as [|a s]; [done|]. unfold startswith.
  rewrite append_cons. cbn. destruct (ascii_dec c a); [|done].
  destruct (s +:+ t); by destruct s.
Qed.

Lemma endswith_absent (c : ascii) (x s : string) :
  s ≠ "" → str_in c s = false → endswith (x +:+ s) (String c "") = false.
Proof.
  intros Hne Hin. unfold endswith. rewrite rev_append.
  assert (str_in c (String.rev s) = false) as Hrev.
  { unfold String.rev. rewrite str_in_rev_app, Hin. done. }
  destruct (String.rev s) as [|a r] eqn:Hr.
  { exfalso. destruct s as [|b s]; [done|].
    unfold String.rev in Hr. cbn in Hr.
    by apply (rev_app_nonempty s (String b "")) in Hr. }
  cbn in Hrev. apply orb_false_elim in Hrev as [Ha _].
  apply bool_decide_eq_false in Ha. rewrite append_cons.
  change (String.rev (String c "")) with (String c ""). cbn.
  destruct (ascii_dec c a); [by subst|done].
Qed.

(** The directory of a fold always ends in the writing of its index. *)
Lemma make_cv_subdir_eq (basedir : string) (i : Z) :
  ∃ dir, _make_cv_subdir basedir i = dir +:+ pretty i
         ∧ dir = if bool_decide (basedir = "") || endswith basedir "/"
                 then basedir else basedir +:+ "/".
Proof.
  unfold _make_cv_subdir, os_path_join.
  rewrite startswith_absent by apply pretty_Z_no_slash.
  destruct (bool_decide (basedir = "") || endswith basedir "/").
  - by eexists.
  - exists (basedir +:+ "/"). by rewrite append_assoc.
Qed.

Lemma make_cv_filename_eq (out_dir basename group_type : string) (i : Z)
    (out_ext : string) :
  startswith basename "/" = false →
  _make_cv_filename out_dir basename group_type i out_ext
  = _make_cv_subdir out_dir i +:+ "/" +:+ basename +:+ "_" +:+ group_type
    +:+ "_" +:+ pretty i +:+ out_ext.
Proof.
  intros Hbase. unfold _make_cv_filename, os_path_join at 1.
  assert (startswith (basename +:+ "_" +:+ group_type +:+ "_" +:+ pretty i
                        +:+ out_ext) "/" = false) as ->.
  { destruct basename as [|a b]; [done|].
    by rewrite startswith_char_append. }
  destruct (make_cv_subdir_eq out_dir i) as (dir & -> & _).
  rewrite endswith_absent;
    [|apply pretty_Z_nonempty|apply pretty_Z_no_slash].
  rewrite bool_decide_eq_false_2; [done|].
  intros Heq. apply (f_equal String.length) in Heq.
  rewrite length_append in Heq. cbn in Heq.
  pose proof (pretty_Z_nonempty i). destruct (pretty i); [done|].
  cbn in Heq. lia.
Qed.

Lemma make_csv_basename_csv_ext (dir stem ext : string) :
  str_in "/" stem = false → str_in "/" ext = false →
  str_in "." ext = false →
  (∃ k a, String.get k stem = Some a ∧ a ≠ "."%char) →
  _make_csv_basename (dir +:+ "/" +:+ stem +:+ ".csv." +:+ ext) = stem.
Proof.
  intros Hstem Hext Hdot (k & a & Hk & Ha). unfold _make_csv_basename.
  assert (k < String.length stem) as Hlt.
  { destruct (decide (k < String.length stem)) as [|Hge]; [done|].
    exfalso. revert Hk. clear -Hge. revert k Hge.
    induction stem as [|b s IH]; intros k Hge; [by destruct k|].
    destruct k as [|k]; cbn in *; [lia|]. apply IH. lia. }
  change (dir +:+ "/" +:+ stem +:+ ".csv." +:+ ext)
    with (dir +:+ String "/" (stem +:+ ".csv" +:+ String "." ext)).
  rewrite basename_append.
  2: { rewrite !str_in_append, Hstem. cbn. by rewrite Hext. }
  assert (os_path_splitext (stem +:+ ".csv" +:+ String "." ext)
          = (stem +:+ ".csv", String "." ext)) as ->.
  { rewrite <- append_assoc. apply splitext_ext; [|done|done|].
    - by rewrite str_in_append, Hstem.
    - exists k, a. split; [|done].
      by rewrite <- (String.append_correct1 _ ".csv" _ Hlt). }
  cbn [fst]. rewrite endswith_append.
  change (stem +:+ ".csv") with (stem +:+ String "." "csv").
  rewrite splitext_ext; [done..|]. by exists k, a.
Qed.

(** X22: How the names are put together.  The directory of fold [i] is the
    writing of [i] under the base directory (no separator is added after an
    empty base directory or one that ends in a separator).  The file of a
    group lies in that directory under the name
    [basename_grouptype_i] followed by the extension, unless the base name
    starts with a separator: then the directory is dropped from the
    result. *)
Theorem make_cv_filename_paths (out_dir basename group_type : string) (i : Z)
    (out_ext : string) :
  _make_cv_subdir out_dir i
  = (if bool_decide (out_dir = "") || endswith out_dir "/" then out_dir
     else out_dir +:+ "/") +:+ pretty i
  ∧ (startswith basename "/" = false →
     _make_cv_filename out_dir basename group_type i out_ext
     = _make_cv_subdir out_dir i +:+ "/" +:+ basename +:+ "_" +:+ group_type
       +:+ "_" +:+ pretty i +:+ out_ext)
  ∧ (startswith basename "/" = true →
     _make_cv_filename out_dir basename group_type i out_ext
     = basename +:+ "_" +:+ group_type +:+ "_" +:+ pretty i +:+ out_ext).
Proof.
  split_and!.
  - by destruct (make_cv_subdir_eq out_dir i) as (dir & -> & ->).
  - apply make_cv_filename_eq.
  - intros Hbase. unfold _make_cv_filename, os_path_join at 1.
    rewrite startswith_char_append, Hbase; [done|].
    intros ->. done.
Qed.

Lemma make_cv_filename_paths_witness :
  _make_cv_filename "out" "mols" "test" 3 OUT_CSV_EXT_DEF
  = "out/3/mols_test_3.csv.gz".
Proof.
  destruct (make_cv_filename_paths "out" "mols" "test" 3 OUT_CSV_EXT_DEF)
    as (Hdir & Hfile & _).
  rewrite Hfile by done. rewrite Hdir. reflexivity.
Defined.

(** X23: The base name of a CSV file.  A name [stem.csv.ext] in any directory
    gives [stem], when the stem has no separator and some character other
    than a dot, and the last extension neither separator nor dot.  So the
    name made for a fold gives back [basename_grouptype_i], when neither the
    base name nor the group type holds a separator. *)
Theorem make_csv_basename_roundtrip :
  (∀ dir stem ext : string,
     str_in "/" stem = false → str_in "/" ext = false →
     str_in "." ext = false →
     (∃ k a, String.get k stem = Some a ∧ a ≠ "."%char) →
     _make_csv_basename (dir +:+ "/" +:+ stem +:+ ".csv." +:+ ext) = stem)
  ∧ ∀ (out_dir basename group_type : string) (i : Z),
      str_in "/" basename = false → str_in "/" group_type = false →
      _make_csv_basename
        (_make_cv_filename out_dir basename group_type i OUT_CSV_EXT_DEF)
      = basename +:+ "_" +:+ group_type +:+ "_" +:+ pretty i.
Proof.
  split; [apply make_csv_basename_csv_ext|].
  intros out_dir basename group_type i Hbase Hgroup.
  rewrite make_cv_filename_eq by (by apply startswith_absent).
  set (stem := basename +:+ "_" +:+ group_type +:+ "_" +:+ pretty i).
  replace (_make_cv_subdir out_dir i +:+ "/" +:+ basename +:+ "_"
           +:+ group_type +:+ "_" +:+ pretty i +:+ OUT_CSV_EXT_DEF)
    with (_make_cv_subdir out_dir i +:+ "/" +:+ stem +:+ ".csv." +:+ "gz").
  2: { unfold stem, OUT_CSV_EXT_DEF. by rewrite !append_assoc. }
  apply make_csv_basename_csv_ext; [|done|done|].
  - unfold stem. rewrite !str_in_append, Hbase, Hgroup, pretty_Z_no_slash.
    done.
  - exists (String.length basename), "_"%char. split; [|done].
    unfold stem. apply get_append_cons.
Qed.

Lemma make_csv_basename_roundtrip_witness :
  _make_csv_basename (_make_cv_filename "out/" "mols" "train" 12
                        OUT_CSV_EXT_DEF)
  = "mols_train_12".
Proof.
  destruct make_csv_basename_roundtrip as [_ Hround].
  by rewrite Hround.
Defined.
